(** * go-flows: flow keys, TCP teardown, per-flow timers, buffer pool, filters

    A shallow embedding of the packet-to-flow core of go-flows:
    - [Filters.Matches]            (packet/filters.go)
    - [funcEntries] timers         (flows timer array: expire, addTimer, hasTimer)
    - [fivetuple]                  (packet five-tuple flow key)
    - [tcpFlow.Event]              (packet/flow.go)
    - [multiPacketBuffer.release]  (packet/multibuffer.go)

    Go slices are lists read and written by index; a run-time panic of the Go
    program (index out of range, make with a negative length) is an explicit
    error result. *)

From Stdlib Require Import ZArith List Bool Lia Sorted.
From Stdlib.Strings Require Import Byte.
From stdpp Require Import base list.
Import ListNotations.

Local Open Scope Z_scope.

(** ** Shared vocabulary *)

(** gopacket.LayerType is an integer enumeration of the decoders gopacket
    registers; the members the flow code distinguishes are kept by name. *)
Inductive LayerType :=
| LayerTypeEthernet
| LayerTypeIPv4
| LayerTypeIPv6
| LayerTypeTCP
| LayerTypeUDP
| LayerTypeICMPv4
| LayerTypeICMPv6
| LayerTypeSCTP
| LayerTypeUDPLite.

Definition LayerType_eqb (a b : LayerType) : bool :=
  match a, b with
  | LayerTypeEthernet, LayerTypeEthernet
  | LayerTypeIPv4, LayerTypeIPv4
  | LayerTypeIPv6, LayerTypeIPv6
  | LayerTypeTCP, LayerTypeTCP
  | LayerTypeUDP, LayerTypeUDP
  | LayerTypeICMPv4, LayerTypeICMPv4
  | LayerTypeICMPv6, LayerTypeICMPv6
  | LayerTypeSCTP, LayerTypeSCTP
  | LayerTypeUDPLite, LayerTypeUDPLite => true
  | _, _ => false
  end.

(** A Go run-time panic. *)
Inductive Panic :=
| IndexOutOfRange (index len : Z)
| MakeSliceLenOutOfRange (len : Z)
| NilDereference
| InterfaceConversion.

Inductive Result (A : Type) :=
| Ok (a : A)
| Panicked (p : Panic).
Arguments Ok {A} a.
Arguments Panicked {A} p.

(** Sequencing of steps that may panic, with stdpp's notation [x ← c; k]. *)
#[global] Instance Result_ret : MRet Result := fun _ a => Ok a.
#[global] Instance Result_bind : MBind Result := fun _ _ k c =>
  match c with
  | Ok a => k a
  | Panicked p => Panicked p
  end.

(** [len(s)] of a Go slice, as the signed integer Go computes with. *)
Definition len {A : Type} (s : list A) : Z := Z.of_nat (length s).

(** Two's-complement wrap-around of int32 arithmetic. *)
Definition wrap32 (z : Z) : Z := (z + 2 ^ 31) mod 2 ^ 32 - 2 ^ 31.

(** Modelled from the spec: the declaration of flows.DateTimeNanoseconds is
    not among the sources; the spec has timestamps in nanoseconds of packet
    time, zero meaning that no timer is scheduled.  The code below only
    compares such values, so they are kept as integers without wrap-around. *)
Definition DateTimeNanoseconds := Z.

(** Modelled from the spec: the declaration of flows.EventContext is not
    among the sources; what the code reads of it is the scheduled time of the
    event ([context.when] is the scheduled time) and the direction bit of
    the packet relative to the canonical key. *)
Record EventContext := {
  When : DateTimeNanoseconds;
  Forward : bool
}.

(** ** packet/filters.go *)

Module Filters.

(** gopacket.CaptureInfo *)
Record CaptureInfo := {
  Timestamp : Z;
  CaptureLength : Z;
  Length : Z;
  InterfaceIndex : Z
}.

(** The [Filter] interface: its one method used here is [Matches]. *)
Definition Filter := LayerType -> list byte -> CaptureInfo -> Z -> bool.

(** [Filters] holds a collection of filters that are tried one after another. *)
Definition Filters := list Filter.

(** [Filters.Matches], with the log of the calls it makes: the second
    component lists, in the order of the calls, the indices of the filters
    whose [Matches] method was invoked. The range loop is at index [i] of the
    original collection, [f] being what is left of it. *)
Fixpoint Matches_from (i : nat) (f : Filters)
    (lt : LayerType) (data : list byte) (ci : CaptureInfo) (n : Z)
    : bool * list nat :=
  match f with
  | [] => (true, [])
  | filter :: rest =>
      if negb (filter lt data ci n) then (false, [i])
      else
        let '(r, calls) := Matches_from (S i) rest lt data ci n in
        (r, i :: calls)
  end.

Definition Matches (f : Filters)
    (lt : LayerType) (data : list byte) (ci : CaptureInfo) (n : Z)
    : bool * list nat :=
  Matches_from 0 f lt data ci n.

(** How many filters a packet gets evaluated by: all of them, or those up to
    and including the first that rejects it. *)
Fixpoint evaluated (lt : LayerType) (data : list byte) (ci : CaptureInfo)
    (n : Z) (f : Filters) : nat :=
  match f with
  | [] => O
  | filter :: rest =>
      if filter lt data ci n then S (evaluated lt data ci n rest) else 1%nat
  end.

End Filters.

(** ** Per-flow timers: funcEntries *)

Module Timers.

(** TimerID represents a single timer (a Go int). *)
Definition TimerID := Z.

Section WithCallbacks.

(** TimerCallback values: the functions a flow registers.  A callback is a
    closure over its flow, so besides its two arguments it can reach the
    timer array it is stored in; [run] gives what a call does to that array
    (in place: the array is not re-allocated while expire runs). *)
Variable TimerCallback : Type.

Record funcEntry := {
  function : option TimerCallback;   (* None is the nil func *)
  context : EventContext
}.

Definition funcEntries := list funcEntry.

Variable run :
  TimerCallback -> EventContext -> DateTimeNanoseconds -> funcEntries -> funcEntries.

(** The zero value of funcEntry, as [make] fills a slice with. *)
Definition zeroEntry : funcEntry :=
  {| function := None; context := {| When := 0; Forward := false |} |}.

(** [make(funcEntries, n)] *)
Definition make (n : Z) : Result funcEntries :=
  if n <? 0 then Panicked (MakeSliceLenOutOfRange n)
  else Ok (replicate (Z.to_nat n) zeroEntry).

Definition makeFuncEntries : funcEntries := replicate 2 zeroEntry.

(** One call [function(context, when)] made by expire, as observed from
    outside: the index of the entry, and the arguments of the call. *)
Record Invocation := {
  inv_id : nat;
  inv_function : TimerCallback;
  inv_context : EventContext;
  inv_now : DateTimeNanoseconds
}.

(** The variables of expire's loop: the slice [fep], [next], and the calls
    made so far. *)
Record ExpireState := {
  fep : funcEntries;
  next : DateTimeNanoseconds;
  fired : list Invocation
}.

Definition clearWhen (e : funcEntry) : funcEntry :=
  {| function := function e;
     context := {| When := 0; Forward := Forward (context e) |} |}.

(** The body of [for i, v := range fep]. *)
Definition expire_body (when : DateTimeNanoseconds) (i : nat) (st : ExpireState)
    : Result ExpireState :=
  match fep st !! i with
  | None => Panicked (IndexOutOfRange (Z.of_nat i) (len (fep st)))
  | Some v =>
      if negb (When (context v) =? 0) then
        if When (context v) <=? when then
          match function v with
          | None => Panicked NilDereference
          | Some f =>
              let fep1 := run f (context v) when (fep st) in
              Ok {| fep := alter clearWhen i fep1;
                    next := next st;
                    fired := fired st ++
                      [ {| inv_id := i; inv_function := f;
                           inv_context := context v; inv_now := when |} ] |}
          end
        else if (next st =? 0) || (When (context v) <=? next st) then
          Ok {| fep := fep st; next := When (context v); fired := fired st |}
        else Ok st
      else Ok st
  end.

(** [n] iterations of the range loop, from index [i]. *)
Fixpoint expire_loop (when : DateTimeNanoseconds) (n : nat) (i : nat)
    (st : ExpireState) : Result ExpireState :=
  match n with
  | O => Ok st
  | S n' =>
      st' ← expire_body when i st;
      expire_loop when n' (S i) st'
  end.

(** [expire]: the array afterwards, the returned [next], and the calls made. *)
Definition expire (when : DateTimeNanoseconds) (fe : funcEntries)
    : Result ExpireState :=
  expire_loop when (length fe) 0 {| fep := fe; next := 0; fired := [] |}.

(** [fep[id].function = f] and [fep[id].context = context], bounds-checked. *)
Definition store (id : Z) (upd : funcEntry -> funcEntry) (s : funcEntries)
    : Result funcEntries :=
  if (id <? 0) || (len s <=? id) then Panicked (IndexOutOfRange id (len s))
  else Ok (alter upd (Z.to_nat id) s).

Definition setFunction (f : option TimerCallback) (e : funcEntry) : funcEntry :=
  {| function := f; context := context e |}.

Definition setContext (c : EventContext) (e : funcEntry) : funcEntry :=
  {| function := function e; context := c |}.

Definition addTimer (id : TimerID) (f : option TimerCallback)
    (context : EventContext) (fe : funcEntries) : Result funcEntries :=
  fep0 ← (if len fe <=? id then
            ext ← make (len fe - id + 1);
            Ok (fe ++ ext)
          else Ok fe);
  fep1 ← store id (setFunction f) fep0;
  store id (setContext context) fep1.

Definition hasTimer (id : TimerID) (fe : funcEntries) : bool :=
  if (len fe <=? id) || (id <? 0) then false
  else
    match fe !! Z.to_nat id with
    | None => false
    | Some e => if When (context e) =? 0 then false else true
    end.

(** *** Vocabulary of the timer properties *)

(** The callbacks do not re-schedule: a call leaves the timer array as it
    is. *)
Definition inert : Prop :=
  forall f c now fe, run f c now fe = fe.

(** Every scheduled entry carries a callback (addTimer was given one). *)
Definition armed (fe : funcEntries) : Prop :=
  forall e, In e fe -> When (context e) <> 0 -> function e <> None.

(** The scheduled time of [e] is nonzero and at most [when]. *)
Definition due (when : DateTimeNanoseconds) (e : funcEntry) : bool :=
  negb (When (context e) =? 0) && (When (context e) <=? when).

(** The scheduled time of [e] is nonzero and after [when]. *)
Definition pending (when : DateTimeNanoseconds) (e : funcEntry) : bool :=
  negb (When (context e) =? 0) && negb (When (context e) <=? when).

Definition expired (when : DateTimeNanoseconds) (e : funcEntry) : funcEntry :=
  if due when e then clearWhen e else e.

(** The calls owed at [when] by the entries [fe], the first of which has
    index [i]: one per due entry, by ascending index. *)
Fixpoint due_calls (when : DateTimeNanoseconds) (i : nat) (fe : funcEntries)
    : list Invocation :=
  match fe with
  | [] => []
  | e :: rest =>
      match function e with
      | Some f =>
          if due when e then
            {| inv_id := i; inv_function := f;
               inv_context := context e; inv_now := when |}
            :: due_calls when (S i) rest
          else due_calls when (S i) rest
      | None => due_calls when (S i) rest
      end
  end.

(** The earliest pending time among [fe], starting from [nx] (zero: none). *)
Fixpoint earliest (when : DateTimeNanoseconds) (nx : DateTimeNanoseconds)
    (fe : funcEntries) : DateTimeNanoseconds :=
  match fe with
  | [] => nx
  | e :: rest =>
      earliest when
        (if pending when e then
           if (nx =? 0) || (When (context e) <=? nx) then When (context e)
           else nx
         else nx) rest
  end.

(** How many of the calls [l] went to the entry of index [i]. *)
Definition calls_to (i : nat) (l : list Invocation) : nat :=
  length (List.filter (fun v => Nat.eqb (inv_id v) i) l).

End WithCallbacks.

Arguments function {TimerCallback} _.
Arguments context {TimerCallback} _.
Arguments zeroEntry {TimerCallback}.
Arguments makeFuncEntries {TimerCallback}.
Arguments fep {TimerCallback} _.
Arguments next {TimerCallback} _.
Arguments fired {TimerCallback} _.
Arguments inv_id {TimerCallback} _.
Arguments inv_function {TimerCallback} _.
Arguments inv_context {TimerCallback} _.
Arguments inv_now {TimerCallback} _.
Arguments clearWhen {TimerCallback} _.
Arguments hasTimer {TimerCallback} _ _.
Arguments addTimer {TimerCallback} _ _ _ _.
Arguments expire {TimerCallback} _ _ _.
Arguments expire_loop {TimerCallback} _ _ _ _ _.
Arguments expire_body {TimerCallback} _ _ _ _.
Arguments inert {TimerCallback} _.
Arguments armed {TimerCallback} _.
Arguments due {TimerCallback} _ _.
Arguments pending {TimerCallback} _ _.
Arguments expired {TimerCallback} _ _.
Arguments due_calls {TimerCallback} _ _ _.
Arguments earliest {TimerCallback} _ _ _.
Arguments calls_to {TimerCallback} _ _.

(** A flow's two timers, with callbacks named by numbers that do nothing to
    the array: the idle timer is due at 5, the active timer at 20. *)
Definition nop (f : nat) (c : EventContext) (now : DateTimeNanoseconds)
    (fe : funcEntries nat) : funcEntries nat := fe.

Definition idle_and_active : funcEntries nat :=
  [ {| function := Some 0%nat; context := {| When := 5; Forward := true |} |};
    {| function := Some 1%nat; context := {| When := 20; Forward := true |} |} ].

(** A callback that re-schedules: whatever it is called for, it sets the
    active timer (index 1) to the current time. *)
Definition rearm (f : nat) (c : EventContext) (now : DateTimeNanoseconds)
    (fe : funcEntries nat) : funcEntries nat :=
  <[1%nat := {| function := Some 1%nat;
                context := {| When := now; Forward := true |} |}]> fe.

(** *** Registration of timers, and runs of the operations *)

(** Two's-complement wrap-around of the Go int (64 bits). *)
Definition wrap64 (z : Z) : Z := (z + 2 ^ 63) mod 2 ^ 64 - 2 ^ 63.

(** [RegisterTimer], on the package variable [timerMaxID]: the TimerID
    returned, and the new value of the variable. *)
Definition RegisterTimer (timerMaxID : TimerID) : TimerID * TimerID :=
  let ret := timerMaxID in
  (ret, wrap64 (timerMaxID + 1)).

(** The package initialisation: [timerMaxID] starts at its zero value, and
    [timerIdle] and [timerActive] are registered in this order. *)
Definition timerIdle : TimerID := fst (RegisterTimer 0).
Definition timerActive : TimerID :=
  fst (RegisterTimer (snd (RegisterTimer 0))).
Definition timerMaxID_init : TimerID :=
  snd (RegisterTimer (snd (RegisterTimer 0))).

(** [n] calls of RegisterTimer in a row: the ids returned, in order, and the
    final value of [timerMaxID]. *)
Fixpoint RegisterTimers (n : nat) (timerMaxID : TimerID)
    : list TimerID * TimerID :=
  match n with
  | O => ([], timerMaxID)
  | S n' =>
      let '(id, m) := RegisterTimer timerMaxID in
      let '(ids, m') := RegisterTimers n' m in
      (id :: ids, m')
  end.

(** expire called at the times [ts] one after the other: the array at the
    end, and the calls made by each run. *)
Fixpoint expires {TimerCallback : Type}
    (run : TimerCallback -> EventContext -> DateTimeNanoseconds ->
           funcEntries TimerCallback -> funcEntries TimerCallback)
    (ts : list DateTimeNanoseconds) (fe : funcEntries TimerCallback)
    : Result (funcEntries TimerCallback * list (list (Invocation TimerCallback))) :=
  match ts with
  | [] => Ok (fe, [])
  | t :: rest =>
      st ← expire run t fe;
      r ← expires run rest (fep st);
      Ok (fst r, fired st :: snd r)
  end.

(** addTimer called for the ids [id], [id + 1], ... with the callbacks and
    contexts [es], in this order. *)
Fixpoint addTimers {TimerCallback : Type} (id : TimerID)
    (es : list (option TimerCallback * EventContext))
    (fe : funcEntries TimerCallback) : Result (funcEntries TimerCallback) :=
  match es with
  | [] => Ok fe
  | (f, c) :: rest =>
      fe' ← addTimer id f c fe;
      addTimers (id + 1) rest fe'
  end.

End Timers.

(** ** The five-tuple flow key *)

Module FiveTuple.

(** *** gopacket's endpoints and flows, as the key code uses them *)

(** [bytes.Compare]: lexicographic comparison of byte slices, -1, 0 or +1. *)
Fixpoint bytes_Compare (a b : list byte) : Z :=
  match a, b with
  | [], [] => 0
  | [], _ :: _ => -1
  | _ :: _, [] => 1
  | x :: a', y :: b' =>
      if (Byte.to_N x <? Byte.to_N y)%N then -1
      else if (Byte.to_N y <? Byte.to_N x)%N then 1
      else bytes_Compare a' b'
  end.

(** gopacket.Endpoint: an endpoint type and the raw bytes of the address or
    port. *)
Record Endpoint := {
  typ : Z;
  Raw : list byte
}.

(** [Endpoint.LessThan]: first by endpoint type, then by raw bytes. *)
Definition LessThan (a b : Endpoint) : bool :=
  (typ a <? typ b) || ((typ a =? typ b) && (bytes_Compare (Raw a) (Raw b) <? 0)).

(** gopacket.Flow: one endpoint type, a source and a destination. *)
Record Flow := {
  ftyp : Z;
  fsrc : list byte;
  fdst : list byte
}.

Definition Endpoints (f : Flow) : Endpoint * Endpoint :=
  ({| typ := ftyp f; Raw := fsrc f |}, {| typ := ftyp f; Raw := fdst f |}).

Record NetworkLayer := { NetworkFlow : Flow }.

Record TransportLayer := {
  LayerType_of : LayerType;
  TransportFlow : Flow
}.

(** gopacket.Packet: the two layers the key is built from, nil when the
    packet has none. *)
Record Packet := {
  Network : option NetworkLayer;
  Transport : option TransportLayer
}.

(** [layers.LayerClassIPControl.Contains] *)
Definition LayerClassIPControl_Contains (t : LayerType) : bool :=
  match t with
  | LayerTypeICMPv4 | LayerTypeICMPv6 => true
  | _ => false
  end.

(** layers.IPProtocol numbers. *)
Definition IPProtocolICMPv4 : byte := x01.
Definition IPProtocolTCP : byte := x06.
Definition IPProtocolUDP : byte := x11.
Definition IPProtocolICMPv6 : byte := x3a.

(** *** Keys *)

(** fiveTuple4 is [13]byte, fiveTuple6 is [37]byte; a flows.FlowKey is one of
    the two. *)
Inductive FlowKey :=
| fiveTuple4 (t : list byte)
| fiveTuple6 (t : list byte).

(** The slice expression [t[lo:hi]]. *)
Definition slice (lo hi : nat) (t : list byte) : list byte :=
  take (hi - lo) (drop lo t).

Definition SrcIP (k : FlowKey) : list byte :=
  match k with
  | fiveTuple4 t => slice 0 4 t
  | fiveTuple6 t => slice 0 16 t
  end.

Definition DstIP (k : FlowKey) : list byte :=
  match k with
  | fiveTuple4 t => slice 4 8 t
  | fiveTuple6 t => slice 16 32 t
  end.

Definition Proto (k : FlowKey) : option byte :=
  match k with
  | fiveTuple4 t => t !! 8%nat
  | fiveTuple6 t => t !! 32%nat
  end.

Definition SrcPort (k : FlowKey) : list byte :=
  match k with
  | fiveTuple4 t => slice 9 11 t
  | fiveTuple6 t => slice 33 35 t
  end.

Definition DstPort (k : FlowKey) : list byte :=
  match k with
  | fiveTuple4 t => slice 11 13 t
  | fiveTuple6 t => slice 35 37 t
  end.

Definition key_bytes (k : FlowKey) : list byte :=
  match k with
  | fiveTuple4 t => t
  | fiveTuple6 t => t
  end.

(** [copy(ret[lo:hi], src)]: copies min(hi-lo, len(src)) bytes. *)
Definition copy (lo hi : nat) (src : list byte) (ret : list byte) : list byte :=
  let n := Nat.min (hi - lo) (length src) in
  take lo ret ++ take n src ++ drop (lo + n) ret.

(** The locals that the two swap branches of fivetuple assign. *)
Record Locals := {
  forward : bool;
  srcIP : Endpoint;
  dstIP : Endpoint;
  srcPortR : list byte;
  dstPortR : list byte
}.

Definition swap (proto : LayerType) (l : Locals) : Locals :=
  let l1 := {| forward := false;
               srcIP := dstIP l; dstIP := srcIP l;
               srcPortR := srcPortR l; dstPortR := dstPortR l |} in
  if negb (LayerClassIPControl_Contains proto) then
    {| forward := forward l1;
       srcIP := srcIP l1; dstIP := dstIP l1;
       srcPortR := dstPortR l1; dstPortR := srcPortR l1 |}
  else l1.

Definition fivetuple (packet : Packet) : option FlowKey * bool :=
  match Network packet with
  | None => (None, false)
  | Some network =>
  match Transport packet with
  | None => (None, false)
  | Some transport =>
      let '(srcPort, dstPort) := Endpoints (TransportFlow transport) in
      let proto := LayerType_of transport in
      let '(srcIP0, dstIP0) := Endpoints (NetworkFlow network) in
      let l0 := {| forward := true; srcIP := srcIP0; dstIP := dstIP0;
                   srcPortR := Raw srcPort; dstPortR := Raw dstPort |} in
      let l :=
        if LessThan dstIP0 srcIP0 then swap proto l0
        else if bytes_Compare (Raw srcIP0) (Raw dstIP0) =? 0 then
          if LessThan srcPort dstPort then swap proto l0 else l0
        else l0 in
      let protoB :=
        match proto with
        | LayerTypeTCP => IPProtocolTCP
        | LayerTypeUDP => IPProtocolUDP
        | LayerTypeICMPv4 => IPProtocolICMPv4
        | LayerTypeICMPv6 => IPProtocolICMPv6
        | _ => x00
        end in
      let srcIPR := Raw (srcIP l) in
      let dstIPR := Raw (dstIP l) in
      if (length srcIPR =? 4)%nat then
        let ret := replicate 13 x00 in
        let ret := copy 0 4 srcIPR ret in
        let ret := copy 4 8 dstIPR ret in
        let ret := <[8%nat := protoB]> ret in
        let ret := copy 9 11 (srcPortR l) ret in
        let ret := copy 11 13 (dstPortR l) ret in
        (Some (fiveTuple4 ret), forward l)
      else if (length srcIPR =? 16)%nat then
        let ret := replicate 37 x00 in
        let ret := copy 0 16 srcIPR ret in
        let ret := copy 16 32 dstIPR ret in
        let ret := <[32%nat := protoB]> ret in
        let ret := copy 33 35 (srcPortR l) ret in
        let ret := copy 35 37 (dstPortR l) ret in
        (Some (fiveTuple6 ret), forward l)
      else (None, false)
  end
  end.

(** *** The rules of the specification *)

(** Byte-lexicographic order, strict and large. *)
Fixpoint lex_ltb (a b : list byte) : bool :=
  match a, b with
  | _, [] => false
  | [], _ :: _ => true
  | x :: a', y :: b' =>
      (Byte.to_N x <? Byte.to_N y)%N
      || ((Byte.to_N x =? Byte.to_N y)%N && lex_ltb a' b')
  end.

Definition lex_leb (a b : list byte) : bool := negb (lex_ltb b a).

Fixpoint bytes_eqb (a b : list byte) : bool :=
  match a, b with
  | [], [] => true
  | x :: a', y :: b' => Byte.eqb x y && bytes_eqb a' b'
  | _, _ => false
  end.

(** The raw 5-tuple of a packet. *)
Record Tuple := {
  t_srcIP : list byte;
  t_dstIP : list byte;
  t_proto : LayerType;
  t_srcPort : list byte;
  t_dstPort : list byte
}.

Definition raw_tuple (network : NetworkLayer) (transport : TransportLayer) : Tuple :=
  {| t_srcIP := fsrc (NetworkFlow network);
     t_dstIP := fdst (NetworkFlow network);
     t_proto := LayerType_of transport;
     t_srcPort := fsrc (TransportFlow transport);
     t_dstPort := fdst (TransportFlow transport) |}.

Definition is_IP_control (p : LayerType) : bool :=
  LayerType_eqb p LayerTypeICMPv4 || LayerType_eqb p LayerTypeICMPv6.

Definition swap_addresses (t : Tuple) : Tuple :=
  {| t_srcIP := t_dstIP t; t_dstIP := t_srcIP t; t_proto := t_proto t;
     t_srcPort := t_srcPort t; t_dstPort := t_dstPort t |}.

Definition swap_ports (t : Tuple) : Tuple :=
  {| t_srcIP := t_srcIP t; t_dstIP := t_dstIP t; t_proto := t_proto t;
     t_srcPort := t_dstPort t; t_dstPort := t_srcPort t |}.

(** Rules 1 to 3 of the key canonicalization, in the specification's words:
    the canonical tuple, and the forward bit (true iff no swap occurred). *)
Definition canonical (t : Tuple) : Tuple * bool :=
  if lex_ltb (t_dstIP t) (t_srcIP t) then
    (* rule 1 *)
    if is_IP_control (t_proto t) then (swap_addresses t, false)
    else (swap_ports (swap_addresses t), false)
  else if bytes_eqb (t_srcIP t) (t_dstIP t) then
    if lex_ltb (t_srcPort t) (t_dstPort t) then
      (* rule 2 *)
      if is_IP_control (t_proto t) then (swap_addresses t, false)
      else (swap_ports (swap_addresses t), false)
    else (t, true)
  else (t, true).

(** A field of fixed width [n] of a key holding [x]: [x] itself when it is
    [n] bytes long, cut or zero-filled otherwise. *)
Definition field (n : nat) (x : list byte) : list byte :=
  take n x ++ replicate (n - length x) x00.

(** The order on pairs (address, port): by address, then by port. *)
Definition pair_leb (a b : list byte * list byte) : bool :=
  lex_ltb (fst a) (fst b)
  || (lex_leb (fst a) (fst b) && lex_leb (fst b) (fst a) && lex_leb (snd a) (snd b)).

(** [q] carries the reversed 5-tuple of [p]. *)
Definition reverse_flow (f : Flow) : Flow :=
  {| ftyp := ftyp f; fsrc := fdst f; fdst := fsrc f |}.

Definition reversed (p q : Packet) : Prop :=
  exists network transport,
    Network p = Some network /\ Transport p = Some transport /\
    Network q = Some {| NetworkFlow := reverse_flow (NetworkFlow network) |} /\
    Transport q = Some {| LayerType_of := LayerType_of transport;
                          TransportFlow := reverse_flow (TransportFlow transport) |}.

(** The protocol byte, in the specification's words: the IANA number for
    TCP, UDP, ICMPv4 and ICMPv6, zero for unknown transports. *)
Definition protocol_byte (p : LayerType) : byte :=
  match p with
  | LayerTypeTCP => x06      (* 6 *)
  | LayerTypeUDP => x11      (* 17 *)
  | LayerTypeICMPv4 => x01   (* 1 *)
  | LayerTypeICMPv6 => x3a   (* 58 *)
  | _ => x00
  end.

(** The encoded key of a tuple with addresses of [n] bytes:
    srcIP, dstIP, proto, srcPort, dstPort. *)
Definition encode (n : nat) (t : Tuple) : list byte :=
  field n (t_srcIP t) ++ field n (t_dstIP t) ++ [protocol_byte (t_proto t)]
  ++ field 2 (t_srcPort t) ++ field 2 (t_dstPort t).

(** The tuple of the opposite direction. *)
Definition reverse_tuple (t : Tuple) : Tuple :=
  {| t_srcIP := t_dstIP t; t_dstIP := t_srcIP t; t_proto := t_proto t;
     t_srcPort := t_dstPort t; t_dstPort := t_srcPort t |}.

(** *** Packets to try the key on *)

(** gopacket's endpoint types for IPv4 addresses and for TCP and UDP ports. *)
Definition EndpointIPv4 : Z := 1.
Definition EndpointTCPPort : Z := 4.
Definition EndpointUDPPort : Z := 5.

Definition packet_of (proto : LayerType) (porttyp : Z)
    (src sport dst dport : list byte) : Packet :=
  {| Network := Some {| NetworkFlow :=
       {| ftyp := EndpointIPv4; fsrc := src; fdst := dst |} |};
     Transport := Some {| LayerType_of := proto; TransportFlow :=
       {| ftyp := porttyp; fsrc := sport; fdst := dport |} |} |}.

(** UDP 9.0.0.1:1000 to 1.0.0.1:2000. *)
Definition udp_9_to_1 : Packet :=
  packet_of LayerTypeUDP EndpointUDPPort
    [x09; x00; x00; x01] [x03; xe8] [x01; x00; x00; x01] [x07; xd0].

(** TCP 127.0.0.1:1000 to 127.0.0.1:2000, a connection on the loopback. *)
Definition tcp_loopback : Packet :=
  packet_of LayerTypeTCP EndpointTCPPort
    [x7f; x00; x00; x01] [x03; xe8] [x7f; x00; x00; x01] [x07; xd0].

(** TCP 127.0.0.1:80 to 127.0.0.1:80: source and destination coincide. *)
Definition tcp_self : Packet :=
  packet_of LayerTypeTCP EndpointTCPPort
    [x7f; x00; x00; x01] [x00; x50] [x7f; x00; x00; x01] [x00; x50].

(** UDP 1.0.0.1:2000 to 9.0.0.1:1000, the answer to [udp_9_to_1]. *)
Definition udp_1_to_9 : Packet :=
  packet_of LayerTypeUDP EndpointUDPPort
    [x01; x00; x00; x01] [x07; xd0] [x09; x00; x00; x01] [x03; xe8].

(** ICMPv4 between 9.0.0.1 and 1.0.0.1, the transport flow reporting the
    two bytes 08 00 one way and 00 00 the other way, and the answer: the
    same with source and destination exchanged. *)
Definition icmp_9_to_1 : Packet :=
  packet_of LayerTypeICMPv4 0
    [x09; x00; x00; x01] [x08; x00] [x01; x00; x00; x01] [x00; x00].

Definition icmp_1_to_9 : Packet :=
  packet_of LayerTypeICMPv4 0
    [x01; x00; x00; x01] [x00; x00] [x09; x00; x00; x01] [x08; x00].

(** A key holds an array of the length of its type: 13 bytes for
    fiveTuple4, 37 bytes for fiveTuple6. *)
Definition well_sized (k : FlowKey) : Prop :=
  match k with
  | fiveTuple4 t => length t = 13%nat
  | fiveTuple6 t => length t = 37%nat
  end.

End FiveTuple.

(** ** packet/flow.go: the TCP flow *)

Module TcpFlow.

(** Modelled from the spec: the export reasons idle-timeout, active-timeout,
    tcp-end and forced-end-of-input, under the names the flow code uses. *)
Inductive FlowEndReason :=
| FlowEndReasonIdle
| FlowEndReasonActive
| FlowEndReasonEnd
| FlowEndReasonForcedEnd.

(** layers.TCP: the flags of the segment. *)
Record TCP := {
  FIN : bool;
  SYN : bool;
  RST : bool;
  PSH : bool;
  ACK : bool;
  URG : bool
}.

(** What [buffer.TransportLayer()] returns: nil, a *layers.TCP, or a layer of
    another type. *)
Inductive Layer :=
| NoLayer
| LayerTCP (tcp : TCP)
| LayerOther (t : LayerType).

Record Buffer := { TransportLayer : Layer }.

(** Modelled from the spec: flows.BaseFlow is not among the sources.  A flow
    is active from its first packet and terminated after export; every event
    updates the features (kept here as the events seen); exporting hands the
    flow over with a reason and a time, and a flow that is no longer active
    ignores further events and exports. *)
Record BaseFlow := {
  active : bool;
  features : list Buffer;
  exported : list (FlowEndReason * DateTimeNanoseconds)
}.

(** Modelled from the spec: BaseFlow.Event. Every event updates the features
    of an active flow and exports nothing; a flow that is not active ignores
    the event. *)
Definition BaseFlow_Event (event : Buffer) (context : EventContext)
    (flow : BaseFlow) : BaseFlow :=
  if active flow then
    {| active := true; features := features flow ++ [event];
       exported := exported flow |}
  else flow.

(** Modelled from the spec: BaseFlow.Export. An active flow is handed over
    with the reason and the time given and is terminated; exporting again
    does nothing. *)
Definition BaseFlow_Export (reason : FlowEndReason) (context : EventContext)
    (now : DateTimeNanoseconds) (flow : BaseFlow) : BaseFlow :=
  if active flow then
    {| active := false; features := features flow;
       exported := exported flow ++ [(reason, now)] |}
  else flow.

Record tcpFlow := {
  base : BaseFlow;
  srcFIN : bool;
  dstFIN : bool;
  dstACK : bool;
  srcACK : bool
}.

(** Modelled from the spec: BaseFlow.Active, promoted to the TCP flow. *)
Definition Active (flow : tcpFlow) : bool := active (base flow).

Definition with_base (b : BaseFlow) (flow : tcpFlow) : tcpFlow :=
  {| base := b; srcFIN := srcFIN flow; dstFIN := dstFIN flow;
     dstACK := dstACK flow; srcACK := srcACK flow |}.

Definition Export (reason : FlowEndReason) (context : EventContext)
    (now : DateTimeNanoseconds) (flow : tcpFlow) : tcpFlow :=
  with_base (BaseFlow_Export reason context now (base flow)) flow.

Definition set_srcFIN (flow : tcpFlow) : tcpFlow :=
  {| base := base flow; srcFIN := true; dstFIN := dstFIN flow;
     dstACK := dstACK flow; srcACK := srcACK flow |}.

Definition set_dstFIN (flow : tcpFlow) : tcpFlow :=
  {| base := base flow; srcFIN := srcFIN flow; dstFIN := true;
     dstACK := dstACK flow; srcACK := srcACK flow |}.

Definition set_dstACK (flow : tcpFlow) : tcpFlow :=
  {| base := base flow; srcFIN := srcFIN flow; dstFIN := dstFIN flow;
     dstACK := true; srcACK := srcACK flow |}.

Definition set_srcACK (flow : tcpFlow) : tcpFlow :=
  {| base := base flow; srcFIN := srcFIN flow; dstFIN := dstFIN flow;
     dstACK := dstACK flow; srcACK := true |}.

(** The zero value [new(tcpFlow)] after [Init]. *)
Definition newTcpFlow : tcpFlow :=
  {| base := {| active := true; features := []; exported := [] |};
     srcFIN := false; dstFIN := false; dstACK := false; srcACK := false |}.

(** [tcpFlow.Event] *)
Definition Event (event : Buffer) (context : EventContext) (flow : tcpFlow)
    : Result tcpFlow :=
  let flow := with_base (BaseFlow_Event event context (base flow)) flow in
  if negb (Active flow) then Ok flow
  else
    match TransportLayer event with
    | LayerTCP tcp =>
        if RST tcp then
          Ok (Export FlowEndReasonEnd context (When context) flow)
        else
          let flow :=
            if Forward context then
              let flow := if FIN tcp then set_srcFIN flow else flow in
              if dstFIN flow && ACK tcp then set_dstACK flow else flow
            else
              let flow := if FIN tcp then set_dstFIN flow else flow in
              if srcFIN flow && ACK tcp then set_srcACK flow else flow in
          if srcFIN flow && srcACK flow && dstFIN flow && dstACK flow then
            Ok (Export FlowEndReasonEnd context (When context) flow)
          else Ok flow
    | _ => Panicked InterfaceConversion
    end.

(** A sequence of events delivered to one flow, in order. *)
Fixpoint Events (evs : list (Buffer * EventContext)) (flow : tcpFlow)
    : Result tcpFlow :=
  match evs with
  | [] => Ok flow
  | (event, context) :: rest =>
      flow' ← Event event context flow;
      Events rest flow'
  end.

(** The graceful teardown: FIN forward, ACK back, FIN back, ACK forward,
    at times 10, 20, 30 and 40. *)
Definition segment (fin ack : bool) : Buffer :=
  {| TransportLayer := LayerTCP {| FIN := fin; SYN := false; RST := false;
                                   PSH := false; ACK := ack; URG := false |} |}.

Definition teardown : list (Buffer * EventContext) :=
  [ (segment true false, {| When := 10; Forward := true |});
    (segment false true, {| When := 20; Forward := false |});
    (segment true false, {| When := 30; Forward := false |});
    (segment false true, {| When := 40; Forward := true |}) ].

(** The flow after the graceful teardown: exported once, at time 40. *)
Definition torn_down : tcpFlow :=
  {| base := {| active := false;
                features := map fst teardown;
                exported := [(FlowEndReasonEnd, 40)] |};
     srcFIN := true; dstFIN := true; dstACK := true; srcACK := true |}.

(** *** NewFlow and the two kinds of flow *)

Record uniFlow := { ubase : BaseFlow }.

(** The flows.Flow values NewFlow returns. *)
Inductive Flow :=
| FlowTcp (f : tcpFlow)
| FlowUni (f : uniFlow).






Definition Flow_base (flow : Flow) : BaseFlow :=
  match flow with
  | FlowTcp f => base f
  | FlowUni f => ubase f
  end.

(** The teardown bits recorded for a direction: forward packets record
    srcFIN and are acknowledged by srcACK. *)
Definition FIN_of (forward : bool) (flow : tcpFlow) : bool :=
  if forward then srcFIN flow else dstFIN flow.

(** The events of a list are TCP segments without RST. *)
Definition tcp_no_RST (ev : Buffer * EventContext) : Prop :=
  exists tcp, TransportLayer (fst ev) = LayerTCP tcp /\ RST tcp = false.

(** No event of direction [forward] carries a FIN. *)
Definition no_FIN_from (forward : bool) (ev : Buffer * EventContext) : Prop :=
  forall tcp, TransportLayer (fst ev) = LayerTCP tcp ->
              Forward (snd ev) = forward -> FIN tcp = false.

(** An acknowledgement is only recorded for a FIN that is recorded. *)
Definition acks_follow_fins (flow : tcpFlow) : Prop :=
  (srcACK flow = true -> srcFIN flow = true) /\
  (dstACK flow = true -> dstFIN flow = true).

End TcpFlow.

(** ** packet/multibuffer.go: the buffer pool *)

Module MultiBuffer.

(** Modelled from the spec: packetBuffer is declared in a file that is not
    among the sources.  As far as the pool looks at it, it is a cell with an
    address and an in-use flag (an int32 read atomically), zero when the
    buffer is unused. *)
Record packetBuffer := {
  addr : nat;
  inUse : Z
}.

(** A *packetBuffer: None is nil. *)
Abbreviation ptr := (option packetBuffer).

Record multiPacketBuffer := {
  numFree : Z;
  allocSize : Z;
  prealloc : Z;
  buffers : list ptr;
  resize : bool
}.

(** [make([]*packetBuffer, n)] *)
Definition make (n : Z) : Result (list ptr) :=
  if n <? 0 then Panicked (MakeSliceLenOutOfRange n)
  else Ok (replicate (Z.to_nat n) None).

(** [newlist[i] = b] *)
Definition put (i : Z) (b : ptr) (newlist : list ptr) : Result (list ptr) :=
  if (i <? 0) || (len newlist <=? i) then
    Panicked (IndexOutOfRange i (len newlist))
  else Ok (<[Z.to_nat i := b]> newlist).

(** The variables of release's loop. *)
Record ReleaseState := {
  newlist : list ptr;
  idx : Z;
  freed : Z
}.

(** The body of [for _, b := range mpb.buffers]. *)
Definition release_body (allocSize : Z) (b : ptr) (st : ReleaseState)
    : Result ReleaseState :=
  match b with
  | None => Panicked NilDereference
  | Some pb =>
      if negb (inUse pb =? 0) then
        nl ← put (idx st) b (newlist st);
        Ok {| newlist := nl; idx := idx st + 1; freed := freed st |}
      else if freed st =? allocSize then
        nl ← put (idx st) b (newlist st);
        Ok {| newlist := nl; idx := idx st + 1; freed := freed st |}
      else
        Ok {| newlist := newlist st; idx := idx st;
              freed := wrap32 (freed st + 1) |}
  end.

Fixpoint release_loop (allocSize : Z) (bs : list ptr) (st : ReleaseState)
    : Result ReleaseState :=
  match bs with
  | [] => Ok st
  | b :: rest =>
      st' ← release_body allocSize b st;
      release_loop allocSize rest st'
  end.

(** [release] releases allocSize buffers. *)
Definition release (mpb : multiPacketBuffer) : Result multiPacketBuffer :=
  nl ← make (len (buffers mpb) - allocSize mpb);
  st ← release_loop (allocSize mpb) (buffers mpb)
         {| newlist := nl; idx := 0; freed := 0 |};
  Ok {| numFree := wrap32 (numFree mpb + wrap32 (- freed st));
        allocSize := allocSize mpb;
        prealloc := prealloc mpb;
        buffers := newlist st;
        resize := resize mpb |}.

(** [replenish]: allocSize fresh buffers, none in use; [fresh] is the first
    unused address. *)
Definition replenish (fresh : nat) (mpb : multiPacketBuffer)
    : Result multiPacketBuffer :=
  if allocSize mpb <? 0 then Panicked (MakeSliceLenOutOfRange (allocSize mpb))
  else
    let new := map (fun j => Some {| addr := fresh + j; inUse := 0 |})
                   (seq 0 (Z.to_nat (allocSize mpb))) in
    Ok {| numFree := wrap32 (numFree mpb + allocSize mpb);
          allocSize := allocSize mpb;
          prealloc := prealloc mpb;
          buffers := buffers mpb ++ new;
          resize := resize mpb |}.

Definition is_unused (b : ptr) : bool :=
  match b with
  | Some pb => inUse pb =? 0
  | None => false
  end.

(** The number of buffers of a list that are not in use. *)
Fixpoint unused (bs : list ptr) : nat :=
  match bs with
  | [] => O
  | b :: rest => if is_unused b then S (unused rest) else unused rest
  end.

(** The buffers release is to keep, in order, when [f] buffers have been
    dropped so far: every buffer in use, and the unused ones once [allocSize]
    have been dropped. *)
Fixpoint kept (allocSize f : Z) (bs : list ptr) : list ptr :=
  match bs with
  | [] => []
  | b :: rest =>
      if is_unused b && negb (f =? allocSize) then kept allocSize (f + 1) rest
      else b :: kept allocSize f rest
  end.

(** A pool of two buffers allocated together (allocSize 2), the first of
    which a batch holds. *)
Definition pool_one_busy : multiPacketBuffer :=
  {| numFree := 1; allocSize := 2; prealloc := 4096;
     buffers := [ Some {| addr := 0; inUse := 1 |};
                  Some {| addr := 1; inUse := 0 |} ];
     resize := false |}.

(** A pool of four buffers allocated two at a time, one of which is held. *)
Definition pool_three_free : multiPacketBuffer :=
  {| numFree := 3; allocSize := 2; prealloc := 4096;
     buffers := [ Some {| addr := 0; inUse := 0 |};
                  Some {| addr := 1; inUse := 1 |};
                  Some {| addr := 2; inUse := 0 |};
                  Some {| addr := 3; inUse := 0 |} ];
     resize := false |}.

(** *** The rest of the pool, and the batches *)

Definition newMultiPacketBuffer (buffers : Z) (prealloc : Z) (resize : bool)
    : multiPacketBuffer :=
  {| numFree := 0; allocSize := buffers; prealloc := prealloc;
     buffers := []; resize := resize |}.

(** [free(num)]: the pool with its counter raised, and whether the condition
    is signalled. [batchSize] is a constant of the package that is declared
    outside the sources at hand. *)
Definition free (batchSize : Z) (num : Z) (mpb : multiPacketBuffer)
    : multiPacketBuffer * bool :=
  let n := wrap32 (numFree mpb + num) in
  ({| numFree := n; allocSize := allocSize mpb; prealloc := prealloc mpb;
      buffers := buffers mpb; resize := resize mpb |},
   batchSize <? n).

(** A batch holds pointers to packet buffers: the address of a buffer, or
    nil (None). [owner] tells whether the batch belongs to a ring. *)
Record shallowMultiPacketBuffer := {
  sbuffers : list (option nat);
  owner : bool;
  rindex : Z;
  windex : Z;
  timestamp : DateTimeNanoseconds;
  expire : bool
}.

Definition newShallowMultiPacketBuffer (size : Z) (owner : bool)
    : Result shallowMultiPacketBuffer :=
  if size <? 0 then Panicked (MakeSliceLenOutOfRange size)
  else Ok {| sbuffers := replicate (Z.to_nat size) None; owner := owner;
             rindex := 0; windex := 0; timestamp := 0; expire := false |}.

Definition empty (smpb : shallowMultiPacketBuffer) : bool :=
  windex smpb =? 0.

Definition full (smpb : shallowMultiPacketBuffer) : bool :=
  negb (windex smpb =? 0) && (rindex smpb =? windex smpb).

Definition reset (smpb : shallowMultiPacketBuffer) : shallowMultiPacketBuffer :=
  {| sbuffers := sbuffers smpb; owner := owner smpb;
     rindex := 0; windex := 0;
     timestamp := timestamp smpb; expire := expire smpb |}.

(** [push]: the batch afterwards and the boolean returned. *)
Definition push (buffer : option nat) (smpb : shallowMultiPacketBuffer)
    : shallowMultiPacketBuffer * bool :=
  if (len (sbuffers smpb) <=? windex smpb) || (windex smpb <? 0) then
    (smpb, false)
  else
    ({| sbuffers := <[Z.to_nat (windex smpb) := buffer]> (sbuffers smpb);
        owner := owner smpb;
        rindex := rindex smpb; windex := windex smpb + 1;
        timestamp := timestamp smpb; expire := expire smpb |}, true).

(** [read]: the batch afterwards and the pointer returned (nil is None). *)
Definition read (smpb : shallowMultiPacketBuffer)
    : shallowMultiPacketBuffer * option nat :=
  if (len (sbuffers smpb) <=? rindex smpb)
     || (windex smpb <=? rindex smpb) || (rindex smpb <? 0) then
    (smpb, None)
  else
    match sbuffers smpb !! Z.to_nat (rindex smpb) with
    | None => (smpb, None)
    | Some ret =>
        ({| sbuffers := sbuffers smpb; owner := owner smpb;
            rindex := rindex smpb + 1; windex := windex smpb;
            timestamp := timestamp smpb; expire := expire smpb |}, ret)
    end.

Definition setTimestamp (t : DateTimeNanoseconds)
    (smpb : shallowMultiPacketBuffer) : shallowMultiPacketBuffer :=
  {| sbuffers := sbuffers smpb; owner := owner smpb;
     rindex := rindex smpb; windex := windex smpb;
     timestamp := t; expire := expire smpb |}.

Definition Timestamp (smpb : shallowMultiPacketBuffer) : DateTimeNanoseconds :=
  timestamp smpb.

(** The slice expression [s[:hi]] of a slice whose capacity is its length;
    a bound out of range is reported with the bound and the capacity. *)
Definition slice_to {A : Type} (hi : Z) (s : list A) : Result (list A) :=
  if (hi <? 0) || (len s <? hi) then Panicked (IndexOutOfRange hi (len s))
  else Ok (take (Z.to_nat hi) s).

(** [smpb.Copy(other)]: what [other] becomes. *)
Definition Copy (smpb other : shallowMultiPacketBuffer)
    : Result shallowMultiPacketBuffer :=
  src ← slice_to (windex smpb) (sbuffers smpb);
  target ← slice_to (len src) (sbuffers other);
  Ok {| sbuffers := take (Nat.min (length target) (length src)) src
                    ++ drop (Nat.min (length target) (length src))
                            (sbuffers other);
        owner := owner other;
        rindex := 0; windex := windex smpb;
        timestamp := timestamp other; expire := expire other |}.

Definition set_inUse (v : Z) (pb : packetBuffer) : packetBuffer :=
  {| addr := addr pb; inUse := v |}.

(** The loop of Pop over the buffers of the pool: the buffers afterwards,
    the batch, and the number of buffers reserved. *)
Fixpoint Pop_loop (bs : list ptr) (buffer : shallowMultiPacketBuffer) (num : Z)
    : Result (list ptr * shallowMultiPacketBuffer * Z) :=
  match bs with
  | [] => Ok ([], buffer, num)
  | b :: rest =>
      match b with
      | None => Panicked NilDereference
      | Some pb =>
          if inUse pb =? 0 then
            if negb (snd (push (Some (addr pb)) buffer)) then
              Ok (b :: rest, fst (push (Some (addr pb)) buffer), num)
            else
              r ← Pop_loop rest (fst (push (Some (addr pb)) buffer))
                             (wrap32 (num + 1));
              Ok (Some (set_inUse 1 pb) :: fst (fst r), snd (fst r), snd r)
          else
            r ← Pop_loop rest buffer num;
            Ok (b :: fst (fst r), snd (fst r), snd r)
      end
  end.

(** How a call of Pop ends when nothing else runs: it waits on the condition
    for another goroutine, or it returns, its last act being the call
    [high(free, total)]. *)
Inductive PopOutcome :=
| Waits (mpb : multiPacketBuffer) (buffer : shallowMultiPacketBuffer)
| Popped (mpb : multiPacketBuffer) (buffer : shallowMultiPacketBuffer)
         (free total : Z).

(** [Pop]. The callback [low] is given with what it does to the pool. *)
Definition Pop (batchSize : Z)
    (low : Z -> Z -> multiPacketBuffer -> Result multiPacketBuffer)
    (mpb : multiPacketBuffer) (buffer : shallowMultiPacketBuffer)
    : Result PopOutcome :=
  let buffer := reset buffer in
  (if numFree mpb <? batchSize then
     mpb1 ← low (numFree mpb) (len (buffers mpb)) mpb;
     if numFree mpb1 <? batchSize then Ok (mpb1, true)
     else Ok (mpb1, false)
   else Ok (mpb, false)) ≫=
  (fun r : multiPacketBuffer * bool =>
     if snd r then Ok (Waits (fst r) buffer)
     else
       l ← Pop_loop (buffers (fst r)) buffer 0;
       let mpb2 :=
         {| numFree := wrap32 (numFree (fst r) + wrap32 (- snd l));
            allocSize := allocSize (fst r); prealloc := prealloc (fst r);
            buffers := fst (fst l); resize := resize (fst r) |} in
       Ok (Popped mpb2 (snd (fst l)) (numFree mpb2) (len (buffers mpb2)))).

(** [atomic.StoreInt32(&b.inUse, 0)] through a pointer of a batch, as the
    pool sees it: the buffer of that address is unused. *)
Definition clear_inUse (a : nat) (bs : list ptr) : list ptr :=
  map (fun b => match b with
                | Some pb => if Nat.eqb (addr pb) a
                             then Some (set_inUse 0 pb) else b
                | None => b
                end) bs.

(** Modelled from the spec: canRecycle is a method of packetBuffer, declared
    in a file that is not among the sources; the spec calls it the recycle
    condition of a buffer (no other stage retains a reference).  It is given
    here as a predicate [canRecycle] on the address of the buffer; what a
    call on nil does is not known, and is taken to panic.

    The loop of recycle over the pointers of the batch. *)
Fixpoint recycle_loop (canRecycle : nat -> bool) (buf : list (option nat))
    (bs : list ptr) (num : Z) : Result (list ptr * Z) :=
  match buf with
  | [] => Ok (bs, num)
  | None :: _ => Panicked NilDereference
  | Some a :: rest =>
      if canRecycle a then
        recycle_loop canRecycle rest (clear_inUse a bs) (wrap32 (num + 1))
      else recycle_loop canRecycle rest bs num
  end.

(** [recycle], on the pool that owns the buffers of the batch: the pool and
    the batch afterwards, and whether the condition was signalled. The batch
    then goes to the channel [empty] of its ring when it has one. *)
Definition recycle (batchSize : Z) (canRecycle : nat -> bool)
    (mpb : multiPacketBuffer) (smpb : shallowMultiPacketBuffer)
    : Result (multiPacketBuffer * shallowMultiPacketBuffer * bool) :=
  if negb (empty smpb) then
    match sbuffers smpb !! 0%nat with
    | None => Panicked (IndexOutOfRange 0 (len (sbuffers smpb)))
    | Some None => Panicked NilDereference
    | Some (Some _) =>
        buf ← slice_to (windex smpb) (sbuffers smpb);
        r ← recycle_loop canRecycle buf (buffers mpb) 0;
        let f := free batchSize (snd r)
                   {| numFree := numFree mpb; allocSize := allocSize mpb;
                      prealloc := prealloc mpb; buffers := fst r;
                      resize := resize mpb |} in
        Ok (fst f, reset smpb, snd f)
    end
  else Ok (mpb, reset smpb, false).

(** *** Vocabulary of the pool properties *)

(** The pool with its first [n] unused buffers reserved. *)
Fixpoint reserve (n : nat) (bs : list ptr) : list ptr :=
  match n, bs with
  | O, _ => bs
  | _, [] => []
  | S n', b :: rest =>
      match b with
      | Some pb =>
          if inUse pb =? 0 then Some (set_inUse 1 pb) :: reserve n' rest
          else b :: reserve n rest
      | None => b :: reserve n rest
      end
  end.

(** The addresses of the first [n] unused buffers of the pool. *)
Fixpoint first_unused (n : nat) (bs : list ptr) : list (option nat) :=
  match n, bs with
  | O, _ => []
  | _, [] => []
  | S n', b :: rest =>
      match b with
      | Some pb =>
          if inUse pb =? 0 then Some (addr pb) :: first_unused n' rest
          else first_unused n rest
      | None => first_unused n rest
      end
  end.

(** The addresses of the buffers of the pool. *)
Fixpoint addrs (bs : list ptr) : list nat :=
  match bs with
  | [] => []
  | Some pb :: rest => addr pb :: addrs rest
  | None :: rest => addrs rest
  end.

(** The addresses a batch recycles: those of its pointers whose recycle
    condition holds, as often as the batch holds them. *)
Fixpoint recycled (canRecycle : nat -> bool) (buf : list (option nat))
    : list nat :=
  match buf with
  | [] => []
  | Some a :: rest =>
      if canRecycle a then a :: recycled canRecycle rest
      else recycled canRecycle rest
  | None :: rest => recycled canRecycle rest
  end.

(** The pool with the buffers of the given addresses unused. *)
Definition clear_all (addresses : list nat) (bs : list ptr) : list ptr :=
  map (fun b => match b with
                | Some pb => if existsb (Nat.eqb (addr pb)) addresses
                             then Some (set_inUse 0 pb) else b
                | None => b
                end) bs.

(** [push] called for each pointer of a list. *)
Fixpoint push_all (ps : list (option nat)) (smpb : shallowMultiPacketBuffer)
    : shallowMultiPacketBuffer * list bool :=
  match ps with
  | [] => (smpb, [])
  | p :: rest =>
      let r := push_all rest (fst (push p smpb)) in
      (fst r, snd (push p smpb) :: snd r)
  end.

(** [read] called [n] times. *)
Fixpoint read_n (n : nat) (smpb : shallowMultiPacketBuffer)
    : shallowMultiPacketBuffer * list (option nat) :=
  match n with
  | O => (smpb, [])
  | S n' =>
      let r := read_n n' (fst (read smpb)) in
      (fst r, snd (read smpb) :: snd r)
  end.

End MultiBuffer.

(** * Properties *)

(** ** Filters *)

Section FiltersProps.

Import Filters.

Variables (lt : LayerType) (data : list byte) (ci : CaptureInfo) (n : Z).

Lemma Matches_from_eq (i : nat) (f : Filters) :
  Matches_from i f lt data ci n =
  (forallb (fun filter => filter lt data ci n) f, seq i (evaluated lt data ci n f)).
Proof.
  revert i. induction f as [|filter rest IH]; intros i; simpl.
  - reflexivity.
  - destruct (filter lt data ci n); simpl.
    + rewrite IH. reflexivity.
    + reflexivity.
Qed.

Lemma evaluated_lt (f : Filters) (j : nat) :
  (j < evaluated lt data ci n f)%nat <->
  (j < length f)%nat /\
  (forall i filter, (i < j)%nat -> f !! i = Some filter -> filter lt data ci n = true).
Proof.
  revert j. induction f as [|flt rest IH]; intros j; simpl.
  - split; [lia | intros [H _]; lia].
  - destruct (flt lt data ci n) eqn:E.
    + destruct j as [|j].
      * split; [intros _; split; [lia | intros i filter Hi; lia] | intros _; lia].
      * rewrite <- Nat.succ_lt_mono, IH. split.
        -- intros [Hlen Hall]. split; [lia |].
           intros [|i] filter Hi Hf; simpl in Hf.
           ++ congruence.
           ++ apply (Hall i); [lia | exact Hf].
        -- intros [Hlen Hall]. split; [lia |].
           intros i filter Hi Hf. apply (Hall (S i)); [lia | exact Hf].
    + split.
      * intros Hj. assert (j = O) by lia. subst j.
        split; [lia | intros i filter Hi; lia].
      * intros [_ Hall]. destruct j as [|j]; [lia |].
        specialize (Hall O flt ltac:(lia) eq_refl). congruence.
Qed.

End FiltersProps.

(** C10. [Filters.Matches] returns true iff every filter of the collection
    returns true for the packet; the filters are called in order of their
    index, and filter [j] is called iff every filter before it returned true,
    so the loop stops at the first filter that returns false; the empty
    collection matches every packet and calls nothing. *)
Theorem Filters_Matches_all_in_order :
  forall (f : Filters.Filters) (lt : LayerType) (data : list byte)
         (ci : Filters.CaptureInfo) (n : Z),
    (fst (Filters.Matches f lt data ci n) = true <->
       forall filter, In filter f -> filter lt data ci n = true) /\
    (snd (Filters.Matches f lt data ci n) =
       seq 0 (length (snd (Filters.Matches f lt data ci n)))) /\
    (forall j, In j (snd (Filters.Matches f lt data ci n)) <->
       (j < length f)%nat /\
       forall i filter, (i < j)%nat -> f !! i = Some filter ->
                        filter lt data ci n = true) /\
    Filters.Matches [] lt data ci n = (true, []).
Proof.
  intros f lt data ci n. unfold Filters.Matches.
  rewrite Matches_from_eq. simpl fst. simpl snd.
  split; [| split; [| split]].
  - rewrite forallb_forall. reflexivity.
  - rewrite length_seq. reflexivity.
  - intros j. rewrite in_seq, <- evaluated_lt. lia.
  - reflexivity.
Qed.

(** ** Timers *)

Section TimersProps.

Import Timers.

Context {TimerCallback : Type}.
Variable run :
  TimerCallback -> EventContext -> DateTimeNanoseconds ->
  funcEntries TimerCallback -> funcEntries TimerCallback.
Hypothesis run_inert : inert run.

Implicit Types (fe pre rest : funcEntries TimerCallback).
Implicit Types (e : funcEntry TimerCallback).
Implicit Types (when nx : DateTimeNanoseconds).

Lemma armed_cons e rest : armed (e :: rest) -> armed rest.
Proof. intros H x Hx. apply H. right. exact Hx. Qed.

Lemma lookup_middle pre e rest : (pre ++ e :: rest) !! length pre = Some e.
Proof. rewrite lookup_app_r by lia. rewrite Nat.sub_diag. reflexivity. Qed.

Lemma alter_middle (g : funcEntry TimerCallback -> funcEntry TimerCallback)
    pre e rest :
  alter g (length pre) (pre ++ e :: rest) = pre ++ g e :: rest.
Proof.
  induction pre as [|x pre IH]; simpl.
  - reflexivity.
  - f_equal. exact IH.
Qed.

(** The loop over the entries [rest] that follow the entries [pre] already
    visited. *)
Lemma expire_loop_inert when rest : forall pre nx log,
  armed rest ->
  expire_loop run when (length rest) (length pre)
    {| fep := pre ++ rest; next := nx; fired := log |} =
  Ok {| fep := pre ++ map (expired when) rest;
        next := earliest when nx rest;
        fired := log ++ due_calls when (length pre) rest |}.
Proof.
  induction rest as [|e rest IH]; intros pre nx log Harmed.
  - simpl. rewrite !app_nil_r. reflexivity.
  - assert (Hstep : forall st,
      expire_body run when (length pre)
        {| fep := pre ++ e :: rest; next := nx; fired := log |} = Ok st ->
      expire_loop run when (length (e :: rest)) (length pre)
        {| fep := pre ++ e :: rest; next := nx; fired := log |} =
      expire_loop run when (length rest) (S (length pre)) st).
    { intros st Hst. simpl. rewrite Hst. reflexivity. }
    pose proof (IH (pre ++ [expired when e])) as IH'.
    rewrite length_app, Nat.add_1_r in IH'.
    assert (Hcons : forall l : funcEntries TimerCallback,
              (pre ++ [expired when e]) ++ l = pre ++ expired when e :: l).
    { intros l. rewrite <- app_assoc. reflexivity. }
    rewrite !Hcons in IH'.
    unfold expire_body in Hstep. cbn [fep next fired] in Hstep.
    rewrite lookup_middle in Hstep.
    simpl map. simpl earliest. simpl due_calls.
    unfold expired at 1, due, pending. unfold expired, due in IH'.
    destruct (When (context e) =? 0) eqn:E0; simpl negb in *; simpl andb in *.
    + rewrite (Hstep _ eq_refl).
      rewrite (IH' nx log (armed_cons _ _ Harmed)).
      destruct (function e); reflexivity.
    + destruct (When (context e) <=? when) eqn:Ele; simpl negb in *.
      * destruct (function e) as [f|] eqn:Ef.
        -- rewrite run_inert in Hstep. rewrite alter_middle in Hstep.
           rewrite (Hstep _ eq_refl).
           rewrite (IH' nx _ (armed_cons _ _ Harmed)).
           rewrite <- app_assoc. reflexivity.
        -- exfalso. apply (Harmed e); [left; reflexivity | | exact Ef].
           apply Z.eqb_neq. exact E0.
      * destruct ((nx =? 0) || (When (context e) <=? nx)) eqn:Enx.
        -- rewrite (Hstep _ eq_refl).
           rewrite (IH' _ log (armed_cons _ _ Harmed)).
           destruct (function e); reflexivity.
        -- rewrite (Hstep _ eq_refl).
           rewrite (IH' _ log (armed_cons _ _ Harmed)).
           destruct (function e); reflexivity.
Qed.

Lemma expire_inert when fe :
  armed fe ->
  expire run when fe =
  Ok {| fep := map (expired when) fe;
        next := earliest when 0 fe;
        fired := due_calls when 0 fe |}.
Proof.
  intros Harmed. unfold expire.
  apply (expire_loop_inert when fe [] 0 [] Harmed).
Qed.

(** *** What is called *)

Lemma due_calls_In when fe : forall i v,
  In v (due_calls when i fe) <->
  exists k e f,
    fe !! k = Some e /\ due when e = true /\ function e = Some f /\
    v = {| inv_id := (i + k)%nat; inv_function := f;
           inv_context := context e; inv_now := when |}.
Proof.
  induction fe as [|e0 rest IH]; intros i v; simpl.
  - split; [intros [] | intros (k & e & f & Hk & _)]. discriminate.
  - assert (Hrest :
      In v (due_calls when (S i) rest) <->
      exists k e f,
        (e0 :: rest) !! S k = Some e /\ due when e = true /\
        function e = Some f /\
        v = {| inv_id := (i + S k)%nat; inv_function := f;
               inv_context := context e; inv_now := when |}).
    { rewrite IH. split; intros (k & e & f & Hk & Hd & Hf & Hv);
        exists k, e, f; (split; [exact Hk |]); (split; [exact Hd |]);
        (split; [exact Hf |]); rewrite Hv; f_equal; lia. }
    assert (Hsplit : forall P : nat -> Prop,
              (exists k, P k) <-> P O \/ exists k, P (S k)).
    { intros P. split.
      - intros [[|k] Hk]; [left; exact Hk | right; exists k; exact Hk].
      - intros [H0 | [k Hk]]; [exists O; exact H0 | exists (S k); exact Hk]. }
    rewrite Hsplit, <- Hrest. simpl. rewrite Nat.add_0_r.
    destruct (function e0) as [f0|] eqn:Ef; [destruct (due when e0) eqn:Ed |].
    + simpl. split.
      * intros [<- | H]; [left; exists e0, f0; auto | right; exact H].
      * intros [(e & f & He & _ & Hf & ->) | H]; [left | right; exact H].
        injection He as <-. rewrite Ef in Hf. injection Hf as <-. reflexivity.
    + split; [intros H; right; exact H |].
      intros [(e & f & He & Hd & _) | H]; [| exact H].
      injection He as <-. congruence.
    + split; [intros H; right; exact H |].
      intros [(e & f & He & _ & Hf & _) | H]; [| exact H].
      injection He as <-. congruence.
Qed.



Lemma calls_to_below when fe : forall i j,
  (j < i)%nat -> calls_to j (due_calls when i fe) = O.
Proof.
  induction fe as [|e rest IH]; intros i j Hj; simpl.
  - reflexivity.
  - destruct (function e); [destruct (due when e) |];
      try (apply IH; lia).
    unfold calls_to. simpl.
    destruct (Nat.eqb_spec i j); [lia |]. apply IH. lia.
Qed.

Lemma calls_to_due_calls when fe : forall i k e,
  armed fe ->
  fe !! k = Some e ->
  calls_to (i + k) (due_calls when i fe) = if due when e then 1%nat else O.
Proof.
  induction fe as [|e0 rest IH]; intros i k e Harmed Hk.
  - discriminate.
  - destruct k as [|k]; simpl in Hk.
    + injection Hk as ->. rewrite Nat.add_0_r. simpl.
      destruct (due when e) eqn:Ed.
      * destruct (function e) as [f|] eqn:Ef.
        -- unfold calls_to. simpl. rewrite Nat.eqb_refl. simpl. f_equal.
           apply (calls_to_below when rest (S i) i). lia.
        -- exfalso. apply (Harmed e); [left; reflexivity | | exact Ef].
           unfold due in Ed. apply andb_prop in Ed as [Ed _].
           apply negb_true_iff, Z.eqb_neq in Ed. exact Ed.
      * destruct (function e); apply calls_to_below; lia.
    + assert (Hrest : calls_to (i + S k) (due_calls when (S i) rest) =
                      if due when e then 1%nat else O).
      { replace (i + S k)%nat with (S i + k)%nat by lia.
        apply IH; [exact (armed_cons _ _ Harmed) | exact Hk]. }
      simpl. destruct (function e0); [destruct (due when e0) |];
        try exact Hrest.
      unfold calls_to. simpl.
      destruct (Nat.eqb_spec i (i + S k)); [lia |]. exact Hrest.
Qed.

(** *** What is left *)

Lemma due_expired when e : due when (expired when e) = false.
Proof.
  unfold expired. destruct (due when e) eqn:Ed; [reflexivity | exact Ed].
Qed.

Lemma expired_idem when e : expired when (expired when e) = expired when e.
Proof. unfold expired at 1. rewrite due_expired. reflexivity. Qed.

Lemma pending_expired when e : pending when (expired when e) = pending when e.
Proof.
  unfold expired, due, pending.
  destruct (When (context e) =? 0) eqn:E0; simpl; [rewrite E0; reflexivity |].
  destruct (When (context e) <=? when) eqn:Ele; simpl.
  - reflexivity.
  - rewrite E0, Ele. reflexivity.
Qed.

Lemma When_expired when e :
  When (context (expired when e)) =
  if due when e then 0 else When (context e).
Proof. unfold expired. destruct (due when e); reflexivity. Qed.

Lemma expired_pending when e : pending when e = true -> expired when e = e.
Proof.
  unfold expired, due, pending. intros H.
  apply andb_prop in H as [_ H]. apply negb_true_iff in H. rewrite H.
  rewrite andb_false_r. reflexivity.
Qed.

Lemma due_or_pending when e :
  When (context e) <> 0 -> due when e = true \/ pending when e = true.
Proof.
  unfold due, pending. intros H. apply Z.eqb_neq in H. rewrite H. simpl.
  destruct (When (context e) <=? when); [left | right]; reflexivity.
Qed.

Lemma pending_iff when e :
  pending when e = true <-> When (context e) <> 0 /\ when < When (context e).
Proof.
  unfold pending. rewrite andb_true_iff, !negb_true_iff, Z.eqb_neq, Z.leb_gt.
  reflexivity.
Qed.

Lemma due_iff when e :
  due when e = true <-> When (context e) <> 0 /\ When (context e) <= when.
Proof.
  unfold due. rewrite andb_true_iff, negb_true_iff, Z.eqb_neq, Z.leb_le.
  reflexivity.
Qed.

Lemma armed_expired when fe : armed fe -> armed (map (expired when) fe).
Proof.
  intros Harmed e' He' Hw. apply in_map_iff in He' as (e & <- & He).
  rewrite When_expired in Hw. unfold expired.
  destruct (due when e) eqn:Ed; [congruence |].
  apply (Harmed e He Hw).
Qed.

Lemma due_calls_expired when fe : forall i,
  due_calls when i (map (expired when) fe) = [].
Proof.
  induction fe as [|e rest IH]; intros i; simpl.
  - reflexivity.
  - rewrite due_expired, IH. destruct (function (expired when e)); reflexivity.
Qed.

Lemma earliest_expired when fe : forall nx,
  earliest when nx (map (expired when) fe) = earliest when nx fe.
Proof.
  induction fe as [|e rest IH]; intros nx; simpl.
  - reflexivity.
  - rewrite pending_expired. destruct (pending when e) eqn:Ep.
    + rewrite (expired_pending _ _ Ep). apply IH.
    + apply IH.
Qed.

(** *** What is returned *)

Lemma earliest_spec when fe : forall nx,
  (earliest when nx fe = nx \/
   exists e, In e fe /\ pending when e = true /\
             When (context e) = earliest when nx fe) /\
  (nx <> 0 -> earliest when nx fe <> 0 /\ earliest when nx fe <= nx) /\
  (forall e, In e fe -> pending when e = true ->
     earliest when nx fe <> 0 /\ earliest when nx fe <= When (context e)).
Proof.
  induction fe as [|e rest IH]; intros nx; simpl.
  - split; [left; reflexivity |]. split; [intros H; split; [exact H | lia] |].
    intros e [].
  - set (nx' := if pending when e
                then if (nx =? 0) || (When (context e) <=? nx)
                     then When (context e) else nx
                else nx).
    destruct (IH nx') as (H1 & H2 & H3).
    assert (Hnx' :
      (nx' = nx /\ (pending when e = true ->
                     nx <> 0 /\ nx <= When (context e))) \/
      (nx' = When (context e) /\ pending when e = true /\
       (nx <> 0 -> When (context e) <= nx))).
    { subst nx'. destruct (pending when e) eqn:Ep.
      - destruct ((nx =? 0) || (When (context e) <=? nx)) eqn:E.
        + right. split; [reflexivity |]. split; [reflexivity |].
          intros Hnx. apply orb_prop in E as [E | E]; [| lia].
          apply Z.eqb_eq in E. contradiction.
        + left. split; [reflexivity |]. intros _.
          apply orb_false_elim in E as [E1 E2].
          apply Z.eqb_neq in E1. apply Z.leb_gt in E2. lia.
      - left. split; [reflexivity | discriminate]. }
    split; [| split].
    + destruct H1 as [H1 | (e' & He' & Hp & Hw)].
      * destruct Hnx' as [[-> _] | (Hn & Hp & _)].
        -- left. exact H1.
        -- right. exists e. split; [left; reflexivity |].
           split; [exact Hp |]. rewrite H1. symmetry. exact Hn.
      * right. exists e'. split; [right; exact He' |]. split; assumption.
    + intros Hnx. destruct Hnx' as [[Hn _] | (Hn & Hp & Hle)].
      * rewrite Hn in *. apply H2. exact Hnx.
      * apply pending_iff in Hp as [Hp0 _].
        destruct (H2 ltac:(rewrite Hn; exact Hp0)) as [Ha Hb].
        split; [exact Ha |]. specialize (Hle Hnx). lia.
    + intros e' [<- | He'] Hp'.
      * destruct Hnx' as [[Hn Hle] | (Hn & _ & _)].
        -- destruct (Hle Hp') as [Hnx Hle'].
           destruct (H2 ltac:(rewrite Hn; exact Hnx)) as [Ha Hb].
           split; [exact Ha | lia].
        -- pose proof Hp' as Hp''. apply pending_iff in Hp'' as [Hp0 _].
           destruct (H2 ltac:(rewrite Hn; exact Hp0)) as [Ha Hb].
           split; [exact Ha | lia].
      * apply H3; assumption.
Qed.

End TimersProps.


(** C6. With callbacks that do not re-schedule timers, [expire t] run twice
    in succession calls every entry whose scheduled time is nonzero and at
    most [t] exactly once and no other entry at all: the second run calls
    nothing, changes nothing and returns what the first returned. *)
Theorem expire_twice_fires_once :
  forall (TimerCallback : Type)
         (run : TimerCallback -> EventContext -> DateTimeNanoseconds ->
                Timers.funcEntries TimerCallback ->
                Timers.funcEntries TimerCallback)
         (t : DateTimeNanoseconds) (fe : Timers.funcEntries TimerCallback),
    Timers.inert run ->
    Timers.armed fe ->
    exists st1 st2,
      Timers.expire run t fe = Ok st1 /\
      Timers.expire run t (Timers.fep st1) = Ok st2 /\
      Timers.fired st2 = [] /\
      Timers.fep st2 = Timers.fep st1 /\
      Timers.next st2 = Timers.next st1 /\
      (forall i e, fe !! i = Some e ->
         Timers.calls_to i (Timers.fired st1 ++ Timers.fired st2) =
         if Timers.due t e then 1%nat else O) /\
      (forall i, fe !! i = None ->
         Timers.calls_to i (Timers.fired st1 ++ Timers.fired st2) = O).
Proof.
  intros TimerCallback run t fe Hinert Harmed.
  eexists. eexists.
  split; [apply (expire_inert run Hinert t fe Harmed) |].
  cbn [Timers.fep].
  split; [apply (expire_inert run Hinert t _ (armed_expired t fe Harmed)) |].
  cbn [Timers.fep Timers.next Timers.fired].
  rewrite due_calls_expired, earliest_expired, app_nil_r.
  split; [reflexivity |]. split; [| split; [reflexivity |]].
  - rewrite map_map. apply map_ext. intros e. apply expired_idem.
  - split.
    + intros i e Hi. apply (calls_to_due_calls t fe O i e Harmed Hi).
    + intros i Hi. unfold Timers.calls_to.
      destruct (List.filter _ _) as [|v l] eqn:E; [reflexivity | exfalso].
      assert (Hv : In v (List.filter
                (fun v => Nat.eqb (Timers.inv_id v) i)
                (Timers.due_calls t 0 fe))) by (rewrite E; left; reflexivity).
      apply filter_In in Hv as [Hv Hid].
      apply due_calls_In in Hv as (k & e & f & Hk & _ & _ & ->).
      simpl in Hid. apply Nat.eqb_eq in Hid. subst i. congruence.
Qed.

Lemma nop_inert : Timers.inert Timers.nop.
Proof. intros f c now fe. reflexivity. Defined.

Lemma idle_and_active_armed : Timers.armed Timers.idle_and_active.
Proof.
  intros e [<- | [<- | []]] _; discriminate.
Defined.


Lemma expire_twice_fires_once_witness :
  exists st1 st2,
    Timers.expire Timers.nop 10 Timers.idle_and_active = Ok st1 /\
    Timers.expire Timers.nop 10 (Timers.fep st1) = Ok st2 /\
    Timers.fired st2 = [].
Proof.
  destruct (expire_twice_fires_once nat Timers.nop 10
              Timers.idle_and_active nop_inert idle_and_active_armed)
    as (st1 & st2 & H1 & H2 & H3 & _).
  exists st1, st2. split; [exact H1 |]. split; [exact H2 | exact H3].
Defined.

(** Both runs on the two timers of a flow, evaluated: at 10 the idle timer
    is called and cleared and 20 is returned; the second run calls nothing. *)
Example expire_idle_then_nothing :
  Timers.expire Timers.nop 10 Timers.idle_and_active =
    Ok {| Timers.fep :=
            [ {| Timers.function := Some 0%nat;
                 Timers.context := {| When := 0; Forward := true |} |};
              {| Timers.function := Some 1%nat;
                 Timers.context := {| When := 20; Forward := true |} |} ];
          Timers.next := 20;
          Timers.fired :=
            [ {| Timers.inv_id := 0; Timers.inv_function := 0%nat;
                 Timers.inv_context := {| When := 5; Forward := true |};
                 Timers.inv_now := 10 |} ] |}.
Proof. reflexivity. Qed.

(** The premise on the callbacks is needed: a callback that re-schedules the
    next timer to fire now makes a single [expire 10] call the active timer
    as well, although it was due at 20 only. *)
Example expire_rearm_fires_more :
  exists st,
    Timers.expire Timers.rearm 10 Timers.idle_and_active = Ok st /\
    map Timers.inv_id (Timers.fired st) = [0%nat; 1%nat].
Proof. eexists. split; reflexivity. Qed.

(** *** addTimer and hasTimer *)

Section AddTimerProps.

Import Timers.

Context {TimerCallback : Type}.

Implicit Types (fe : funcEntries TimerCallback).

Lemma len_app fe (ext : funcEntries TimerCallback) :
  len (fe ++ ext) = len fe + len ext.
Proof. unfold len. rewrite length_app. lia. Qed.

Lemma len_replicate (n : nat) (e : funcEntry TimerCallback) :
  len (replicate n e) = Z.of_nat n.
Proof. unfold len. rewrite length_replicate. reflexivity. Qed.

Lemma store_ok (id : Z) (upd : funcEntry TimerCallback -> funcEntry TimerCallback) fe :
  0 <= id < len fe ->
  store TimerCallback id upd fe = Ok (alter upd (Z.to_nat id) fe).
Proof.
  intros H. unfold store.
  destruct (id <? 0) eqn:E1; [apply Z.ltb_lt in E1; lia |].
  destruct (len fe <=? id) eqn:E2; [apply Z.leb_le in E2; lia |].
  reflexivity.
Qed.

Lemma store_panics (id : Z) (upd : funcEntry TimerCallback -> funcEntry TimerCallback) fe :
  len fe <= id ->
  store TimerCallback id upd fe = Panicked (IndexOutOfRange id (len fe)).
Proof.
  intros H. unfold store.
  destruct (len fe <=? id) eqn:E2; [| apply Z.leb_gt in E2; lia].
  rewrite orb_true_r. reflexivity.
Qed.

(** Within the array, and one past its end, addTimer stores the entry. *)
Lemma addTimer_in_reach (id : TimerID) (f : option TimerCallback)
    (c : EventContext) fe :
  0 <= id <= len fe ->
  exists fe',
    addTimer id f c fe = Ok fe' /\
    len fe' = Z.max (len fe) (id + 1) /\
    fe' !! Z.to_nat id = Some {| function := f; context := c |} /\
    hasTimer id fe' = negb (When c =? 0).
Proof.
  intros Hid. unfold addTimer.
  set (fep0 := if len fe <=? id then fe ++ [zeroEntry] else fe).
  assert (H0 : (if len fe <=? id
                then ext ← make TimerCallback (len fe - id + 1); Ok (fe ++ ext)
                else Ok fe) = Ok fep0).
  { subst fep0. destruct (len fe <=? id) eqn:E; [| reflexivity].
    apply Z.leb_le in E. replace (len fe - id + 1) with 1 by lia.
    reflexivity. }
  rewrite H0. cbn [mbind Result_bind].
  assert (Hlen : len fep0 = Z.max (len fe) (id + 1)).
  { subst fep0. destruct (len fe <=? id) eqn:E.
    - apply Z.leb_le in E. rewrite len_app.
      change (len [@zeroEntry TimerCallback]) with 1. lia.
    - apply Z.leb_gt in E. lia. }
  assert (Hin : 0 <= id < len fep0) by lia.
  rewrite (store_ok _ _ _ Hin). cbn [mbind Result_bind].
  assert (Hlen1 : len (alter (setFunction TimerCallback f) (Z.to_nat id) fep0)
                  = len fep0).
  { unfold len. rewrite length_alter. reflexivity. }
  rewrite store_ok by (unfold funcEntries in *; lia).
  assert (Hlook : exists e0, fep0 !! Z.to_nat id = Some e0).
  { apply lookup_lt_is_Some. unfold len in Hin. lia. }
  destruct Hlook as [e0 He0].
  assert (Hget :
    alter (setContext TimerCallback c) (Z.to_nat id)
      (alter (setFunction TimerCallback f) (Z.to_nat id) fep0)
      !! Z.to_nat id = Some {| function := f; context := c |}).
  { rewrite !list_lookup_alter_eq, He0. reflexivity. }
  eexists. split; [reflexivity |]. unfold funcEntries in *. split; [| split].
  - unfold len. rewrite !length_alter. exact Hlen.
  - exact Hget.
  - unfold hasTimer. unfold funcEntries in *. rewrite Hget.
    assert (Hl : len (alter (setContext TimerCallback c) (Z.to_nat id)
                   (alter (setFunction TimerCallback f) (Z.to_nat id) fep0))
                 = len fep0).
    { unfold len. rewrite !length_alter. reflexivity. }
    rewrite Hl.
    destruct (len fep0 <=? id) eqn:E1; [apply Z.leb_le in E1; lia |].
    destruct (id <? 0) eqn:E2; [apply Z.ltb_lt in E2; lia |].
    simpl. destruct (When c =? 0); reflexivity.
Qed.

(** Further out, addTimer panics: the slice it appends has length
    [len - id + 1], which is zero for [id = len + 1] and negative beyond. *)
Lemma addTimer_beyond_reach (id : TimerID) (f : option TimerCallback)
    (c : EventContext) fe :
  len fe < id ->
  addTimer id f c fe =
    if id =? len fe + 1 then Panicked (IndexOutOfRange id (len fe))
    else Panicked (MakeSliceLenOutOfRange (len fe - id + 1)).
Proof.
  intros Hid. unfold addTimer.
  destruct (len fe <=? id) eqn:E; [| apply Z.leb_gt in E; lia].
  unfold make. destruct (id =? len fe + 1) eqn:E1.
  - apply Z.eqb_eq in E1. replace (len fe - id + 1) with 0 by lia.
    cbn [Z.ltb Z.compare Z.to_nat replicate mbind Result_bind].
    rewrite app_nil_r. rewrite store_panics by lia. reflexivity.
  - apply Z.eqb_neq in E1.
    destruct (len fe - id + 1 <? 0) eqn:E2; [reflexivity |].
    apply Z.ltb_ge in E2. lia.
Qed.

End AddTimerProps.

(** C7. addTimer does not reach every nonnegative TimerID: on the two-entry
    array of a new flow, TimerID 3 makes it append a slice of length
    [2 - 3 + 1 = 0] and then index the array out of range, and TimerID 4
    makes it ask for a slice of length [-1]; only TimerID 2, one past the
    end, is stored. *)
Theorem addTimer_beyond_end_panics :
  forall (TimerCallback : Type) (f : option TimerCallback)
         (context : EventContext),
    Timers.addTimer 3 f context Timers.makeFuncEntries =
      Panicked (IndexOutOfRange 3 2) /\
    Timers.addTimer 4 f context Timers.makeFuncEntries =
      Panicked (MakeSliceLenOutOfRange (-1)) /\
    Timers.addTimer 2 f context Timers.makeFuncEntries =
      Ok [ Timers.zeroEntry; Timers.zeroEntry;
           {| Timers.function := f; Timers.context := context |} ].
Proof.
  intros TimerCallback f context.
  split; [| split]; reflexivity.
Qed.

(** ** The five-tuple key *)

Section FiveTupleProps.

Import FiveTuple.

Implicit Types (a b src : list byte) (t : Tuple).

(** *** Byte order *)

Lemma to_N_inj (x y : byte) : Byte.to_N x = Byte.to_N y -> x = y.
Proof.
  intros H. pose proof (Byte.of_to_N x) as Hx.
  rewrite H, Byte.of_to_N in Hx. congruence.
Qed.

Lemma byte_eqb_to_N (x y : byte) :
  Byte.eqb x y = (Byte.to_N x =? Byte.to_N y)%N.
Proof.
  destruct (Byte.eqb x y) eqn:E.
  - apply Byte.byte_dec_bl in E. subst y. symmetry. apply N.eqb_refl.
  - apply Byte.eqb_false in E. symmetry. apply N.eqb_neq.
    intros H. apply E. apply to_N_inj. exact H.
Qed.

Lemma bytes_Compare_lt a : forall b,
  (bytes_Compare a b <? 0) = lex_ltb a b.
Proof.
  induction a as [|x a IH]; intros [|y b]; simpl; try reflexivity.
  destruct (Byte.to_N x <? Byte.to_N y)%N eqn:E1; [reflexivity |].
  destruct (Byte.to_N y <? Byte.to_N x)%N eqn:E2; simpl.
  - destruct (Byte.to_N x =? Byte.to_N y)%N eqn:E3; [| reflexivity].
    apply N.eqb_eq in E3. apply N.ltb_lt in E2. lia.
  - assert (E3 : (Byte.to_N x =? Byte.to_N y)%N = true).
    { apply N.eqb_eq. apply N.ltb_ge in E1, E2. lia. }
    rewrite E3. apply IH.
Qed.

Lemma bytes_Compare_eq a : forall b,
  (bytes_Compare a b =? 0) = bytes_eqb a b.
Proof.
  induction a as [|x a IH]; intros [|y b]; simpl; try reflexivity.
  rewrite byte_eqb_to_N.
  destruct (Byte.to_N x <? Byte.to_N y)%N eqn:E1.
  - apply N.ltb_lt in E1.
    destruct (N.eqb_spec (Byte.to_N x) (Byte.to_N y)); [lia | reflexivity].
  - destruct (Byte.to_N y <? Byte.to_N x)%N eqn:E2.
    + apply N.ltb_lt in E2.
      destruct (N.eqb_spec (Byte.to_N x) (Byte.to_N y)); [lia | reflexivity].
    + apply N.ltb_ge in E1, E2.
      destruct (N.eqb_spec (Byte.to_N x) (Byte.to_N y)); [apply IH | lia].
Qed.

Lemma bytes_eqb_eq a : forall b, bytes_eqb a b = true <-> a = b.
Proof.
  induction a as [|x a IH]; intros [|y b]; simpl;
    try (split; [discriminate | congruence]); try tauto.
  rewrite andb_true_iff, IH. split.
  - intros [Hx ->]. apply Byte.byte_dec_bl in Hx. congruence.
  - intros H. injection H as -> ->. split; [| reflexivity].
    apply Byte.byte_dec_lb. reflexivity.
Qed.

Lemma bytes_eqb_refl a : bytes_eqb a a = true.
Proof. apply bytes_eqb_eq. reflexivity. Qed.

Lemma lex_ltb_irrefl a : lex_ltb a a = false.
Proof.
  induction a as [|x a IH]; simpl; [reflexivity |].
  rewrite N.ltb_irrefl, N.eqb_refl, IH. reflexivity.
Qed.

Lemma lex_ltb_asym a : forall b, lex_ltb a b = true -> lex_ltb b a = false.
Proof.
  induction a as [|x a IH]; intros [|y b]; simpl;
    try discriminate; try reflexivity.
  intros H. apply orb_prop in H as [H | H].
  - apply N.ltb_lt in H.
    destruct (N.ltb_spec (Byte.to_N y) (Byte.to_N x)); [lia |].
    destruct (N.eqb_spec (Byte.to_N y) (Byte.to_N x)); [lia | reflexivity].
  - apply andb_prop in H as [Hxy Hab]. apply N.eqb_eq in Hxy.
    rewrite Hxy, N.ltb_irrefl, N.eqb_refl, (IH _ Hab). reflexivity.
Qed.

Lemma lex_ltb_total a : forall b,
  lex_ltb a b = false -> lex_ltb b a = false -> a = b.
Proof.
  induction a as [|x a IH]; intros [|y b]; simpl;
    try discriminate; try reflexivity.
  intros H1 H2.
  apply orb_false_elim in H1 as [H1 H1'], H2 as [H2 H2'].
  apply N.ltb_ge in H1, H2.
  assert (Hxy : Byte.to_N x = Byte.to_N y) by lia.
  rewrite Hxy, N.eqb_refl in H1', H2'. simpl in H1', H2'.
  f_equal; [apply to_N_inj; exact Hxy | apply IH; assumption].
Qed.

Lemma lex_ltb_neq a b : lex_ltb a b = true -> bytes_eqb b a = false.
Proof.
  intros H. destruct (bytes_eqb b a) eqn:E; [| reflexivity].
  apply bytes_eqb_eq in E. subst b. rewrite lex_ltb_irrefl in H. discriminate.
Qed.

(** *** Fixed-width fields *)

Lemma field_exact (n : nat) a : length a = n -> field n a = a.
Proof.
  intros H. unfold field. rewrite take_ge by lia.
  replace (n - length a)%nat with O by lia. simpl. apply app_nil_r.
Qed.

Lemma length_field (n : nat) a : length (field n a) = n.
Proof.
  unfold field. rewrite length_app, length_take, length_replicate. lia.
Qed.

Lemma field_succ_cons (n : nat) (x : byte) a :
  field (S n) (x :: a) = x :: field n a.
Proof. reflexivity. Qed.

Lemma field_succ_nil (n : nat) : field (S n) [] = x00 :: field n [].
Proof. unfold field. simpl. destruct n; reflexivity. Qed.

(** Cutting or zero-filling two byte strings to the same width keeps their
    order: zero is the least byte. *)
Lemma field_mono (n : nat) : forall a b,
  lex_ltb b a = false -> lex_ltb (field n b) (field n a) = false.
Proof.
  induction n as [|n IH]; intros a b H.
  - reflexivity.
  - destruct a as [|x a], b as [|y b].
    + rewrite field_succ_nil. simpl. apply IH. reflexivity.
    + rewrite field_succ_nil, field_succ_cons. simpl.
      rewrite (IH [] b); [| destruct b; reflexivity].
      rewrite andb_false_r, orb_false_r.
      apply N.ltb_ge. lia.
    + simpl in H. discriminate.
    + rewrite !field_succ_cons. simpl in *.
      apply orb_false_elim in H as [H1 H2]. rewrite H1. simpl.
      destruct (Byte.to_N y =? Byte.to_N x)%N; [| reflexivity].
      simpl in *. apply IH. exact H2.
Qed.

Lemma copy_field (lo hi : nat) src (A B : list byte) :
  length A = lo -> (lo <= hi)%nat ->
  copy lo hi src (A ++ replicate (hi - lo) x00 ++ B) =
  A ++ field (hi - lo) src ++ B.
Proof.
  intros HA Hle. unfold copy, field. subst lo.
  set (w := (hi - length A)%nat).
  rewrite take_app_length, drop_app_add.
  rewrite drop_app_le by (rewrite length_replicate; lia).
  rewrite drop_replicate. f_equal. rewrite <- app_assoc. f_equal; [| f_equal].
  - destruct (Nat.le_gt_cases (length src) w) as [H | H].
    + rewrite Nat.min_r by lia. rewrite !take_ge by lia. reflexivity.
    + rewrite Nat.min_l by lia. reflexivity.
  - f_equal. lia.
Qed.

Lemma insert_after (A B : list byte) (n : nat) (x y : byte) :
  length A = n -> <[n := y]> (A ++ x :: B) = A ++ y :: B.
Proof.
  intros <-. rewrite <- (Nat.add_0_r (length A)), insert_app_r. reflexivity.
Qed.

(** The five stores of the IPv4 branch, and of the IPv6 branch. *)
Lemma build4 (s d sp dp : list byte) (pb : byte) :
  copy 11 13 dp (copy 9 11 sp (<[8%nat := pb]>
    (copy 4 8 d (copy 0 4 s (replicate 13 x00))))) =
  field 4 s ++ field 4 d ++ [pb] ++ field 2 sp ++ field 2 dp.
Proof.
  change (replicate 13 x00)
    with ([] ++ replicate (4 - 0) x00 ++ replicate 9 x00).
  rewrite (copy_field 0 4 s [] _ eq_refl ltac:(lia)).
  change ([] ++ field (4 - 0) s ++ replicate 9 x00)
    with (field 4 s ++ replicate (8 - 4) x00 ++ replicate 5 x00).
  rewrite (copy_field 4 8 d (field 4 s) _ (length_field 4 s) ltac:(lia)).
  change (field (8 - 4) d ++ replicate 5 x00)
    with (field 4 d ++ x00 :: replicate 4 x00).
  rewrite (app_assoc (field 4 s) (field 4 d)).
  rewrite (insert_after _ _ 8)
    by (rewrite length_app, !length_field; reflexivity).
  change (pb :: replicate 4 x00)
    with ([pb] ++ replicate (11 - 9) x00 ++ replicate 2 x00).
  rewrite (app_assoc _ [pb]).
  rewrite (copy_field 9 11 sp)
    by (rewrite ?length_app, ?length_field; simpl; lia).
  change (replicate 2 x00) with (replicate (13 - 11) x00 ++ []).
  rewrite (app_assoc _ (field (11 - 9) sp)).
  rewrite (copy_field 11 13 dp)
    by (rewrite ?length_app, ?length_field; simpl; lia).
  rewrite app_nil_r, <- !app_assoc. reflexivity.
Qed.

Lemma build6 (s d sp dp : list byte) (pb : byte) :
  copy 35 37 dp (copy 33 35 sp (<[32%nat := pb]>
    (copy 16 32 d (copy 0 16 s (replicate 37 x00))))) =
  field 16 s ++ field 16 d ++ [pb] ++ field 2 sp ++ field 2 dp.
Proof.
  change (replicate 37 x00)
    with ([] ++ replicate (16 - 0) x00 ++ replicate 21 x00).
  rewrite (copy_field 0 16 s [] _ eq_refl ltac:(lia)).
  change ([] ++ field (16 - 0) s ++ replicate 21 x00)
    with (field 16 s ++ replicate (32 - 16) x00 ++ replicate 5 x00).
  rewrite (copy_field 16 32 d (field 16 s) _ (length_field 16 s) ltac:(lia)).
  change (field (32 - 16) d ++ replicate 5 x00)
    with (field 16 d ++ x00 :: replicate 4 x00).
  rewrite (app_assoc (field 16 s) (field 16 d)).
  rewrite (insert_after _ _ 32)
    by (rewrite length_app, !length_field; reflexivity).
  change (pb :: replicate 4 x00)
    with ([pb] ++ replicate (35 - 33) x00 ++ replicate 2 x00).
  rewrite (app_assoc _ [pb]).
  rewrite (copy_field 33 35 sp)
    by (rewrite ?length_app, ?length_field; simpl; lia).
  change (replicate 2 x00) with (replicate (37 - 35) x00 ++ []).
  rewrite (app_assoc _ (field (35 - 33) sp)).
  rewrite (copy_field 35 37 dp)
    by (rewrite ?length_app, ?length_field; simpl; lia).
  rewrite app_nil_r, <- !app_assoc. reflexivity.
Qed.

(** *** The key code against the rules *)

Lemma Contains_is_IP_control (p : LayerType) :
  LayerClassIPControl_Contains p = is_IP_control p.
Proof. destruct p; reflexivity. Qed.

Lemma LessThan_same_type (ty : Z) a b :
  LessThan {| typ := ty; Raw := a |} {| typ := ty; Raw := b |} = lex_ltb a b.
Proof.
  unfold LessThan. simpl.
  rewrite Z.ltb_irrefl, Z.eqb_refl, bytes_Compare_lt. reflexivity.
Qed.

(** fivetuple computes the canonical tuple of the rules and encodes it. *)
Lemma fivetuple_spec (packet : Packet) (network : NetworkLayer)
    (transport : TransportLayer) :
  Network packet = Some network ->
  Transport packet = Some transport ->
  fivetuple packet =
    let c := canonical (raw_tuple network transport) in
    if (length (t_srcIP (fst c)) =? 4)%nat then
      (Some (fiveTuple4 (encode 4 (fst c))), snd c)
    else if (length (t_srcIP (fst c)) =? 16)%nat then
      (Some (fiveTuple6 (encode 16 (fst c))), snd c)
    else (None, false).
Proof.
  intros Hn Ht. unfold fivetuple. rewrite Hn, Ht.
  destruct network as [[nty ns nd]], transport as [proto [tty ts td]].
  unfold Endpoints. cbv beta iota zeta.
  rewrite build4, build6.
  cbn [NetworkFlow TransportFlow LayerType_of ftyp fsrc fdst Raw].
  rewrite !LessThan_same_type, bytes_Compare_eq.
  unfold canonical, raw_tuple, swap, encode.
  rewrite Contains_is_IP_control.
  cbn [NetworkFlow TransportFlow LayerType_of ftyp fsrc fdst Raw
       t_srcIP t_dstIP t_proto t_srcPort t_dstPort].
  destruct (lex_ltb nd ns); [| destruct (bytes_eqb ns nd);
                                [destruct (lex_ltb ts td) |]];
    destruct proto; reflexivity.
Qed.

(** *** The canonical tuple *)

Lemma lex_ltb_diff a b : lex_ltb a b = true -> a <> b.
Proof. intros H ->. rewrite lex_ltb_irrefl in H. discriminate. Qed.

Lemma bytes_eqb_neq a b : a <> b -> bytes_eqb a b = false.
Proof.
  intros H. destruct (bytes_eqb a b) eqn:E; [| reflexivity].
  apply bytes_eqb_eq in E. contradiction.
Qed.


(** The canonical source address is one of the two addresses of the
    packet. *)
Lemma canonical_src_cases t :
  t_srcIP (fst (canonical t)) = t_srcIP t \/
  t_srcIP (fst (canonical t)) = t_dstIP t.
Proof.
  unfold canonical.
  destruct (lex_ltb (t_dstIP t) (t_srcIP t));
    [| destruct (bytes_eqb (t_srcIP t) (t_dstIP t));
       [destruct (lex_ltb (t_srcPort t) (t_dstPort t)) |]];
    try destruct (is_IP_control (t_proto t)); simpl; auto.
Qed.

(** The canonical source address is not after the destination address. *)
Lemma canonical_addr_order t :
  lex_ltb (t_dstIP (fst (canonical t))) (t_srcIP (fst (canonical t))) = false.
Proof.
  unfold canonical.
  destruct (lex_ltb (t_dstIP t) (t_srcIP t)) eqn:E1.
  - destruct (is_IP_control (t_proto t)); simpl; apply lex_ltb_asym; exact E1.
  - destruct (bytes_eqb (t_srcIP t) (t_dstIP t)) eqn:E2; [| exact E1].
    apply bytes_eqb_eq in E2.
    destruct (lex_ltb (t_srcPort t) (t_dstPort t)); [| exact E1].
    destruct (is_IP_control (t_proto t)); simpl;
      rewrite E2; apply lex_ltb_irrefl.
Qed.

(** Between equal addresses the canonical source port is not before the
    destination port, unless the protocol is an IP-control one. *)
Lemma canonical_port_order t :
  t_srcIP t = t_dstIP t ->
  is_IP_control (t_proto t) = false ->
  lex_ltb (t_srcPort (fst (canonical t))) (t_dstPort (fst (canonical t))) = false.
Proof.
  intros Heq Hctl. unfold canonical.
  rewrite Heq, lex_ltb_irrefl, bytes_eqb_refl, Hctl.
  destruct (lex_ltb (t_srcPort t) (t_dstPort t)) eqn:E; simpl.
  - apply lex_ltb_asym. exact E.
  - exact E.
Qed.

(** IP-control protocols keep the ports as the packet has them. *)
Lemma canonical_control_ports t :
  is_IP_control (t_proto t) = true ->
  t_srcPort (fst (canonical t)) = t_srcPort t /\
  t_dstPort (fst (canonical t)) = t_dstPort t.
Proof.
  intros Hctl. unfold canonical. rewrite Hctl.
  destruct (lex_ltb (t_dstIP t) (t_srcIP t));
    [| destruct (bytes_eqb (t_srcIP t) (t_dstIP t));
       [destruct (lex_ltb (t_srcPort t) (t_dstPort t)) |]];
    simpl; split; reflexivity.
Qed.

(** The two directions of a flow have the same canonical tuple, and opposite
    forward bits unless the two endpoints coincide. *)
Lemma canonical_reverse t :
  is_IP_control (t_proto t) = false ->
  fst (canonical (reverse_tuple t)) = fst (canonical t) /\
  (snd (canonical (reverse_tuple t)) = snd (canonical t) <->
   (t_srcIP t, t_srcPort t) = (t_dstIP t, t_dstPort t)).
Proof.
  destruct t as [s d pr sp dp]. intros Hctl. simpl in Hctl.
  unfold canonical, reverse_tuple. simpl. rewrite Hctl.
  destruct (lex_ltb d s) eqn:E1.
  - rewrite (lex_ltb_asym _ _ E1).
    rewrite (bytes_eqb_neq d s (lex_ltb_diff _ _ E1)). simpl.
    split; [reflexivity |].
    split; [discriminate | intros H; injection H as -> _].
    rewrite lex_ltb_irrefl in E1. discriminate.
  - destruct (bytes_eqb s d) eqn:E2.
    + apply bytes_eqb_eq in E2. subst d.
      rewrite bytes_eqb_refl, ?lex_ltb_irrefl.
      destruct (lex_ltb sp dp) eqn:E3.
      * rewrite (lex_ltb_asym _ _ E3). simpl. split; [reflexivity |].
        split; [discriminate | intros H; injection H as ->].
        rewrite lex_ltb_irrefl in E3. discriminate.
      * destruct (lex_ltb dp sp) eqn:E4; simpl.
        -- split; [reflexivity |].
           split; [discriminate | intros H; injection H as ->].
           rewrite lex_ltb_irrefl in E4. discriminate.
        -- assert (sp = dp) by (apply lex_ltb_total; assumption). subst dp.
           split; [reflexivity | split; reflexivity].
    + assert (E3 : lex_ltb s d = true).
      { destruct (lex_ltb s d) eqn:E; [reflexivity | exfalso].
        assert (s = d) by (apply lex_ltb_total; assumption). subst d.
        rewrite bytes_eqb_refl in E2. discriminate. }
      rewrite E3. simpl. split; [reflexivity |].
      split; [discriminate | intros H; injection H as -> _].
      rewrite bytes_eqb_refl in E2. discriminate.
Qed.

(** *** The fields of an encoded key *)

Lemma slice_middle (A B C : list byte) (lo hi : nat) :
  length A = lo -> length B = (hi - lo)%nat ->
  slice lo hi (A ++ B ++ C) = B.
Proof.
  intros HA HB. unfold slice.
  rewrite (drop_app_length' A _ lo) by (symmetry; exact HA).
  apply take_app_length'. symmetry. exact HB.
Qed.

Lemma encode_fields (n : nat) t :
  slice 0 n (encode n t) = field n (t_srcIP t) /\
  slice n (n + n) (encode n t) = field n (t_dstIP t) /\
  encode n t !! (n + n)%nat = Some (protocol_byte (t_proto t)) /\
  slice (n + n + 1) (n + n + 3) (encode n t) = field 2 (t_srcPort t) /\
  slice (n + n + 3) (n + n + 5) (encode n t) = field 2 (t_dstPort t) /\
  length (encode n t) = (n + n + 5)%nat.
Proof.
  unfold encode.
  set (F1 := field n (t_srcIP t)). set (F2 := field n (t_dstIP t)).
  set (F3 := field 2 (t_srcPort t)). set (F4 := field 2 (t_dstPort t)).
  set (pb := protocol_byte (t_proto t)).
  assert (H1 : length F1 = n) by apply length_field.
  assert (H2 : length F2 = n) by apply length_field.
  assert (H3 : length F3 = 2%nat) by apply length_field.
  assert (H4 : length F4 = 2%nat) by apply length_field.
  split; [| split; [| split; [| split; [| split]]]].
  - apply (slice_middle [] F1 _ 0 n); [reflexivity | lia].
  - apply (slice_middle F1 F2 _ n (n + n)); [exact H1 | lia].
  - rewrite (app_assoc F1 F2). apply list_lookup_middle.
    rewrite length_app. lia.
  - rewrite (app_assoc F1 F2), (app_assoc _ [pb]).
    apply slice_middle; [rewrite !length_app; simpl; lia | lia].
  - rewrite (app_assoc F1 F2), (app_assoc _ [pb]), (app_assoc _ F3).
    rewrite <- (app_nil_r F4) at 1.
    apply slice_middle; [rewrite !length_app; simpl; lia | lia].
  - rewrite !length_app. simpl. lia.
Qed.

Lemma fivetuple_produced (packet : Packet) (network : NetworkLayer)
    (transport : TransportLayer) (k : FlowKey) (fwd : bool) :
  Network packet = Some network ->
  Transport packet = Some transport ->
  fivetuple packet = (Some k, fwd) ->
  fwd = snd (canonical (raw_tuple network transport)) /\
  ((length (t_srcIP (fst (canonical (raw_tuple network transport)))) = 4%nat /\
    k = fiveTuple4 (encode 4 (fst (canonical (raw_tuple network transport)))))
   \/
   (length (t_srcIP (fst (canonical (raw_tuple network transport)))) = 16%nat /\
    k = fiveTuple6 (encode 16 (fst (canonical (raw_tuple network transport)))))).
Proof.
  intros Hn Ht Hk. rewrite (fivetuple_spec _ _ _ Hn Ht) in Hk.
  cbv zeta in Hk.
  destruct (Nat.eqb_spec
    (length (t_srcIP (fst (canonical (raw_tuple network transport))))) 4)
    as [E4 | E4].
  - injection Hk as <- <-. split; [reflexivity |]. left. auto.
  - destruct (Nat.eqb_spec
      (length (t_srcIP (fst (canonical (raw_tuple network transport))))) 16)
      as [E16 | E16].
    + injection Hk as <- <-. split; [reflexivity |]. right. auto.
    + discriminate.
Qed.

(** The fields of a produced key, read by the key's own accessors. *)
Lemma fivetuple_fields (packet : Packet) (network : NetworkLayer)
    (transport : TransportLayer) (k : FlowKey) (fwd : bool) :
  Network packet = Some network ->
  Transport packet = Some transport ->
  fivetuple packet = (Some k, fwd) ->
  exists w,
    (w = 4%nat \/ w = 16%nat) /\
    length (t_srcIP (fst (canonical (raw_tuple network transport)))) = w /\
    length (key_bytes k) = (w + w + 5)%nat /\
    key_bytes k = encode w (fst (canonical (raw_tuple network transport))) /\
    SrcIP k = t_srcIP (fst (canonical (raw_tuple network transport))) /\
    DstIP k = field w (t_dstIP (fst (canonical (raw_tuple network transport)))) /\
    Proto k = Some (protocol_byte (LayerType_of transport)) /\
    SrcPort k = field 2 (t_srcPort (fst (canonical (raw_tuple network transport)))) /\
    DstPort k = field 2 (t_dstPort (fst (canonical (raw_tuple network transport)))).
Proof.
  intros Hn Ht Hk.
  destruct (fivetuple_produced _ _ _ _ _ Hn Ht Hk) as [_ Hcases].
  set (c := fst (canonical (raw_tuple network transport))) in *.
  assert (Hproto : t_proto c = LayerType_of transport).
  { subst c. unfold canonical.
    destruct (lex_ltb _ _);
      [| destruct (bytes_eqb _ _); [destruct (lex_ltb _ _) |]];
      try destruct (is_IP_control _); reflexivity. }
  destruct Hcases as [[Hlen ->] | [Hlen ->]].
  - exists 4%nat.
    destruct (encode_fields 4 c) as (F1 & F2 & F3 & F4 & F5 & F6).
    rewrite (field_exact _ _ Hlen) in F1. rewrite Hproto in F3.
    split; [left; reflexivity |]. split; [exact Hlen |].
    split; [exact F6 |]. split; [reflexivity |].
    split; [exact F1 |]. split; [exact F2 |]. split; [exact F3 |].
    split; [exact F4 | exact F5].
  - exists 16%nat.
    destruct (encode_fields 16 c) as (F1 & F2 & F3 & F4 & F5 & F6).
    rewrite (field_exact _ _ Hlen) in F1. rewrite Hproto in F3.
    split; [right; reflexivity |]. split; [exact Hlen |].
    split; [exact F6 |]. split; [reflexivity |].
    split; [exact F1 |]. split; [exact F2 |]. split; [exact F3 |].
    split; [exact F4 | exact F5].
Qed.

End FiveTupleProps.



(** C8. For a packet with a network and a transport layer, when the
    canonical source address has 4 bytes the key is the 13 bytes
    srcIP, dstIP, proto, srcPort, dstPort of the canonical tuple, each field
    at its width, and when it has 16 bytes the key is the 37 bytes laid out
    the same way; with addresses and ports of their wire widths the key is
    the plain concatenation; the protocol byte is 6 for TCP, 17 for UDP, 1
    for ICMPv4, 58 for ICMPv6 and 0 for any other transport; and when the
    canonical source address has another length, in particular when the
    packet's addresses have a length other than 4 or 16, no key is
    returned. *)
Theorem fivetuple_key_layout :
  forall (packet : FiveTuple.Packet) (network : FiveTuple.NetworkLayer)
         (transport : FiveTuple.TransportLayer),
    FiveTuple.Network packet = Some network ->
    FiveTuple.Transport packet = Some transport ->
    let t := FiveTuple.raw_tuple network transport in
    let c := fst (FiveTuple.canonical t) in
    let pb := match FiveTuple.LayerType_of transport with
              | LayerTypeTCP => x06
              | LayerTypeUDP => x11
              | LayerTypeICMPv4 => x01
              | LayerTypeICMPv6 => x3a
              | _ => x00
              end in
    let wire (w : nat) :=
      FiveTuple.field w (FiveTuple.t_srcIP c) ++
      FiveTuple.field w (FiveTuple.t_dstIP c) ++ [pb] ++
      FiveTuple.field 2 (FiveTuple.t_srcPort c) ++
      FiveTuple.field 2 (FiveTuple.t_dstPort c) in
    (length (FiveTuple.t_srcIP c) = 4%nat ->
       fst (FiveTuple.fivetuple packet) = Some (FiveTuple.fiveTuple4 (wire 4%nat)) /\
       length (wire 4%nat) = 13%nat) /\
    (length (FiveTuple.t_srcIP c) = 16%nat ->
       fst (FiveTuple.fivetuple packet) = Some (FiveTuple.fiveTuple6 (wire 16%nat)) /\
       length (wire 16%nat) = 37%nat) /\
    (forall w, length (FiveTuple.t_srcIP c) = w ->
       length (FiveTuple.t_dstIP c) = w ->
       length (FiveTuple.t_srcPort c) = 2%nat ->
       length (FiveTuple.t_dstPort c) = 2%nat ->
       wire w =
         FiveTuple.t_srcIP c ++ FiveTuple.t_dstIP c ++ [pb] ++
         FiveTuple.t_srcPort c ++ FiveTuple.t_dstPort c) /\
    (forall k, fst (FiveTuple.fivetuple packet) = Some k ->
       FiveTuple.Proto k = Some pb) /\
    (length (FiveTuple.t_srcIP c) <> 4%nat ->
     length (FiveTuple.t_srcIP c) <> 16%nat ->
     FiveTuple.fivetuple packet = (None, false)) /\
    (forall n, length (FiveTuple.t_srcIP t) = n ->
       length (FiveTuple.t_dstIP t) = n ->
       n <> 4%nat -> n <> 16%nat ->
       FiveTuple.fivetuple packet = (None, false)).
Proof.
  intros packet network transport Hn Ht t c pb wire.
  assert (Hpb : pb = FiveTuple.protocol_byte (FiveTuple.LayerType_of transport)).
  { subst pb. destruct (FiveTuple.LayerType_of transport); reflexivity. }
  assert (Hproto : FiveTuple.t_proto c = FiveTuple.LayerType_of transport).
  { subst c. unfold FiveTuple.canonical.
    destruct (FiveTuple.lex_ltb _ _);
      [| destruct (FiveTuple.bytes_eqb _ _);
         [destruct (FiveTuple.lex_ltb _ _) |]];
      try destruct (FiveTuple.is_IP_control _); reflexivity. }
  assert (Hwire : forall w, wire w = FiveTuple.encode w c).
  { intros w. subst wire. unfold FiveTuple.encode.
    cbv beta. rewrite Hpb, Hproto. reflexivity. }
  pose proof (fivetuple_spec _ _ _ Hn Ht) as Hspec. cbv zeta in Hspec.
  fold t in Hspec. fold c in Hspec.
  assert (Hreject : length (FiveTuple.t_srcIP c) <> 4%nat ->
                    length (FiveTuple.t_srcIP c) <> 16%nat ->
                    FiveTuple.fivetuple packet = (None, false)).
  { intros H4 H16. rewrite Hspec.
    destruct (Nat.eqb_spec (length (FiveTuple.t_srcIP c)) 4); [contradiction |].
    destruct (Nat.eqb_spec (length (FiveTuple.t_srcIP c)) 16);
      [contradiction | reflexivity]. }
  split; [| split; [| split; [| split; [| split]]]].
  - intros Hlen. rewrite Hspec, Hlen. simpl fst. rewrite Hwire.
    split; [reflexivity |].
    destruct (encode_fields 4 c) as (_ & _ & _ & _ & _ & Hl). exact Hl.
  - intros Hlen. rewrite Hspec, Hlen. simpl fst. rewrite Hwire.
    split; [reflexivity |].
    destruct (encode_fields 16 c) as (_ & _ & _ & _ & _ & Hl). exact Hl.
  - intros w H1 H2 H3 H4. subst wire. cbv beta.
    rewrite !field_exact by assumption. reflexivity.
  - intros k Hk.
    destruct (FiveTuple.fivetuple packet) as [ok fwd] eqn:E.
    simpl in Hk. subst ok.
    destruct (fivetuple_fields _ _ _ _ _ Hn Ht E)
      as (w & _ & _ & _ & _ & _ & _ & Hp & _).
    rewrite Hp, Hpb. reflexivity.
  - exact Hreject.
  - intros n Hs Hd H4 H16.
    destruct (canonical_src_cases t) as [Hc | Hc];
      apply Hreject; subst c; rewrite Hc; congruence.
Qed.

Lemma fivetuple_key_layout_witness :
  fst (FiveTuple.fivetuple FiveTuple.udp_9_to_1) =
    Some (FiveTuple.fiveTuple4
            [x01; x00; x00; x01; x09; x00; x00; x01; x11;
             x07; xd0; x03; xe8]).
Proof.
  destruct (fivetuple_key_layout FiveTuple.udp_9_to_1 _ _ eq_refl eq_refl)
    as (H4 & _).
  destruct (H4 eq_refl) as [Hkey _]. exact Hkey.
Defined.

(** C2, as the code has it. For every packet for which a key is returned,
    the key's srcIP is not after its dstIP in byte-lexicographic order; when
    the packet's two addresses are equal and the transport is not an
    IP-control one, the key's srcPort is not before its dstPort (the greater
    port comes first); and for IP-control transports the ports stay as the
    packet has them. *)
Theorem key_addresses_ascend_ports_descend :
  forall (packet : FiveTuple.Packet) (network : FiveTuple.NetworkLayer)
         (transport : FiveTuple.TransportLayer)
         (k : FiveTuple.FlowKey) (fwd : bool),
    FiveTuple.Network packet = Some network ->
    FiveTuple.Transport packet = Some transport ->
    FiveTuple.fivetuple packet = (Some k, fwd) ->
    let t := FiveTuple.raw_tuple network transport in
    FiveTuple.lex_leb (FiveTuple.SrcIP k) (FiveTuple.DstIP k) = true /\
    (FiveTuple.t_srcIP t = FiveTuple.t_dstIP t ->
     FiveTuple.is_IP_control (FiveTuple.t_proto t) = false ->
     FiveTuple.lex_leb (FiveTuple.DstPort k) (FiveTuple.SrcPort k) = true) /\
    (FiveTuple.is_IP_control (FiveTuple.t_proto t) = true ->
     FiveTuple.SrcPort k = FiveTuple.field 2 (FiveTuple.t_srcPort t) /\
     FiveTuple.DstPort k = FiveTuple.field 2 (FiveTuple.t_dstPort t)).
Proof.
  intros packet network transport k fwd Hn Ht Hk t.
  destruct (fivetuple_fields _ _ _ _ _ Hn Ht Hk)
    as (w & _ & Hlen & _ & _ & Hs & Hd & _ & Hsp & Hdp).
  fold t in Hlen, Hs, Hd, Hsp, Hdp.
  split; [| split].
  - unfold FiveTuple.lex_leb. rewrite Hd, Hs.
    rewrite <- (field_exact w (FiveTuple.t_srcIP (fst (FiveTuple.canonical t))))
      by exact Hlen.
    rewrite field_mono; [reflexivity | apply canonical_addr_order].
  - intros Heq Hctl. unfold FiveTuple.lex_leb. rewrite Hsp, Hdp.
    rewrite field_mono; [reflexivity |].
    apply canonical_port_order; assumption.
  - intros Hctl. destruct (canonical_control_ports t Hctl) as [H1 H2].
    rewrite Hsp, Hdp, H1, H2. split; reflexivity.
Qed.

Lemma key_addresses_ascend_ports_descend_witness :
  exists k,
    FiveTuple.fivetuple FiveTuple.tcp_loopback = (Some k, false) /\
    FiveTuple.lex_leb (FiveTuple.SrcIP k) (FiveTuple.DstIP k) = true /\
    FiveTuple.lex_leb (FiveTuple.DstPort k) (FiveTuple.SrcPort k) = true.
Proof.
  eexists. split; [reflexivity |].
  destruct (key_addresses_ascend_ports_descend FiveTuple.tcp_loopback _ _ _
              false eq_refl eq_refl eq_refl) as (H1 & H2 & _).
  split; [exact H1 | exact (H2 eq_refl eq_refl)].
Defined.

(** C2 fails as stated: for TCP 127.0.0.1:1000 to 127.0.0.1:2000 the key
    returned has the two addresses equal, source port 2000 and destination
    port 1000, so (srcIP, srcPort) is after (dstIP, dstPort). *)
Lemma key_pair_order_fails_on_loopback :
  FiveTuple.fivetuple FiveTuple.tcp_loopback =
    (Some (FiveTuple.fiveTuple4
             [x7f; x00; x00; x01; x7f; x00; x00; x01; x06;
              x07; xd0; x03; xe8]), false) /\
  FiveTuple.pair_leb
    ([x7f; x00; x00; x01], [x07; xd0])
    ([x7f; x00; x00; x01], [x03; xe8]) = false /\
  ~ (forall packet k fwd,
       FiveTuple.fivetuple packet = (Some k, fwd) ->
       FiveTuple.pair_leb (FiveTuple.SrcIP k, FiveTuple.SrcPort k)
                          (FiveTuple.DstIP k, FiveTuple.DstPort k) = true).
Proof.
  split; [reflexivity |]. split; [reflexivity |].
  intros H. specialize (H FiveTuple.tcp_loopback _ _ eq_refl).
  vm_compute in H. discriminate.
Qed.

(** C3, as the code has it. For two packets with reversed 5-tuples and a
    transport that is not an IP-control one, the key code returns the same
    key for both (or none for both); and when a key is returned, the two
    forward bits differ iff the source endpoint (address, port) differs from
    the destination endpoint. *)
Theorem reversed_packets_share_key :
  forall (p q : FiveTuple.Packet) (network : FiveTuple.NetworkLayer)
         (transport : FiveTuple.TransportLayer),
    FiveTuple.Network p = Some network ->
    FiveTuple.Transport p = Some transport ->
    FiveTuple.reversed p q ->
    FiveTuple.is_IP_control (FiveTuple.LayerType_of transport) = false ->
    let t := FiveTuple.raw_tuple network transport in
    fst (FiveTuple.fivetuple p) = fst (FiveTuple.fivetuple q) /\
    (forall k, fst (FiveTuple.fivetuple p) = Some k ->
       (snd (FiveTuple.fivetuple p) <> snd (FiveTuple.fivetuple q) <->
        (FiveTuple.t_srcIP t, FiveTuple.t_srcPort t) <>
        (FiveTuple.t_dstIP t, FiveTuple.t_dstPort t))).
Proof.
  intros p q network transport Hn Ht Hrev Hctl t.
  destruct Hrev as (network' & transport' & Hn' & Ht' & Hqn & Hqt).
  rewrite Hn in Hn'. injection Hn' as <-.
  rewrite Ht in Ht'. injection Ht' as <-.
  pose proof (fivetuple_spec _ _ _ Hn Ht) as Hp.
  pose proof (fivetuple_spec _ _ _ Hqn Hqt) as Hq.
  cbv zeta in Hp, Hq.
  change (FiveTuple.raw_tuple _ _) with (FiveTuple.reverse_tuple t) in Hq.
  fold t in Hp.
  destruct (canonical_reverse t Hctl) as [Hkey Hfwd].
  rewrite Hkey in Hq. rewrite Hp, Hq.
  set (c := fst (FiveTuple.canonical t)) in *.
  destruct (length (FiveTuple.t_srcIP c) =? 4)%nat;
    [| destruct (length (FiveTuple.t_srcIP c) =? 16)%nat].
  - simpl. split; [reflexivity |]. intros k _. split; intros H E; apply H.
    + symmetry. apply Hfwd. exact E.
    + apply Hfwd. symmetry. exact E.
  - simpl. split; [reflexivity |]. intros k _. split; intros H E; apply H.
    + symmetry. apply Hfwd. exact E.
    + apply Hfwd. symmetry. exact E.
  - simpl. split; [reflexivity |]. intros k Hk. discriminate.
Qed.

Lemma reversed_packets_share_key_witness :
  fst (FiveTuple.fivetuple FiveTuple.udp_9_to_1) =
  fst (FiveTuple.fivetuple FiveTuple.udp_1_to_9) /\
  snd (FiveTuple.fivetuple FiveTuple.udp_9_to_1) <>
  snd (FiveTuple.fivetuple FiveTuple.udp_1_to_9).
Proof.
  assert (Hrev : FiveTuple.reversed FiveTuple.udp_9_to_1 FiveTuple.udp_1_to_9).
  { eexists. eexists. repeat split; reflexivity. }
  destruct (reversed_packets_share_key FiveTuple.udp_9_to_1
              FiveTuple.udp_1_to_9 _ _ eq_refl eq_refl Hrev eq_refl)
    as [Hkey Hfwd].
  split; [exact Hkey |].
  apply (Hfwd _ eq_refl). simpl. intros H. discriminate.
Defined.

(** C3 fails as stated: the packet TCP 127.0.0.1:80 to 127.0.0.1:80 is its
    own reverse, so the two packets of the pair get the same forward bit. *)
Lemma reversed_self_same_forward :
  FiveTuple.reversed FiveTuple.tcp_self FiveTuple.tcp_self /\
  FiveTuple.fivetuple FiveTuple.tcp_self =
    (Some (FiveTuple.fiveTuple4
             [x7f; x00; x00; x01; x7f; x00; x00; x01; x06;
              x00; x50; x00; x50]), true) /\
  ~ (forall p q transport,
       FiveTuple.reversed p q ->
       FiveTuple.Transport p = Some transport ->
       FiveTuple.is_IP_control (FiveTuple.LayerType_of transport) = false ->
       fst (FiveTuple.fivetuple p) = fst (FiveTuple.fivetuple q) /\
       snd (FiveTuple.fivetuple p) <> snd (FiveTuple.fivetuple q)).
Proof.
  assert (Hrev : FiveTuple.reversed FiveTuple.tcp_self FiveTuple.tcp_self).
  { eexists. eexists. repeat split; reflexivity. }
  split; [exact Hrev |]. split; [reflexivity |].
  intros H.
  destruct (H FiveTuple.tcp_self FiveTuple.tcp_self _ Hrev eq_refl eq_refl)
    as [_ Hne].
  apply Hne. reflexivity.
Qed.

(** ** The TCP flow *)

(** C4. For a TCP segment delivered to an active TCP flow: with RST the flow
    exports with reason end at the time of the event and nothing else
    changes; without RST, a FIN records srcFIN when the packet is forward and
    dstFIN when it is reverse, an ACK records dstACK (forward) or srcACK
    (reverse) when the FIN of the opposite side was recorded before, and the
    flow exports with reason end exactly when the four bits are then all
    set.  On a flow with no bit set, the sequence FIN forward, ACK reverse,
    FIN reverse, ACK forward leaves the flow active and unexported for three
    events and exports it on the fourth. *)
Theorem tcpFlow_Event_teardown :
  forall (flow : TcpFlow.tcpFlow),
    TcpFlow.Active flow = true ->
    (forall (tcp : TcpFlow.TCP) (context : EventContext),
       exists flow',
         TcpFlow.Event {| TcpFlow.TransportLayer := TcpFlow.LayerTCP tcp |}
                       context flow = Ok flow' /\
         (TcpFlow.RST tcp = true ->
            TcpFlow.exported (TcpFlow.base flow') =
              TcpFlow.exported (TcpFlow.base flow)
              ++ [(TcpFlow.FlowEndReasonEnd, When context)] /\
            TcpFlow.Active flow' = false /\
            TcpFlow.srcFIN flow' = TcpFlow.srcFIN flow /\
            TcpFlow.dstFIN flow' = TcpFlow.dstFIN flow /\
            TcpFlow.srcACK flow' = TcpFlow.srcACK flow /\
            TcpFlow.dstACK flow' = TcpFlow.dstACK flow) /\
         (TcpFlow.RST tcp = false ->
            TcpFlow.srcFIN flow' =
              TcpFlow.srcFIN flow || (Forward context && TcpFlow.FIN tcp) /\
            TcpFlow.dstFIN flow' =
              TcpFlow.dstFIN flow || (negb (Forward context) && TcpFlow.FIN tcp) /\
            TcpFlow.dstACK flow' =
              TcpFlow.dstACK flow
              || (Forward context && TcpFlow.dstFIN flow && TcpFlow.ACK tcp) /\
            TcpFlow.srcACK flow' =
              TcpFlow.srcACK flow
              || (negb (Forward context) && TcpFlow.srcFIN flow && TcpFlow.ACK tcp) /\
            (TcpFlow.srcFIN flow' && TcpFlow.srcACK flow'
             && TcpFlow.dstFIN flow' && TcpFlow.dstACK flow' = true ->
               TcpFlow.exported (TcpFlow.base flow') =
                 TcpFlow.exported (TcpFlow.base flow)
                 ++ [(TcpFlow.FlowEndReasonEnd, When context)] /\
               TcpFlow.Active flow' = false) /\
            (TcpFlow.srcFIN flow' && TcpFlow.srcACK flow'
             && TcpFlow.dstFIN flow' && TcpFlow.dstACK flow' = false ->
               TcpFlow.exported (TcpFlow.base flow') =
                 TcpFlow.exported (TcpFlow.base flow) /\
               TcpFlow.Active flow' = true))) /\
    (forall (t1 t2 t3 t4 : TcpFlow.TCP) (c1 c2 c3 c4 : EventContext),
       TcpFlow.srcFIN flow = false -> TcpFlow.dstFIN flow = false ->
       TcpFlow.srcACK flow = false -> TcpFlow.dstACK flow = false ->
       TcpFlow.RST t1 = false -> TcpFlow.RST t2 = false ->
       TcpFlow.RST t3 = false -> TcpFlow.RST t4 = false ->
       Forward c1 = true -> TcpFlow.FIN t1 = true ->
       Forward c2 = false -> TcpFlow.ACK t2 = true ->
       Forward c3 = false -> TcpFlow.FIN t3 = true ->
       Forward c4 = true -> TcpFlow.ACK t4 = true ->
       exists f1 f2 f3 f4,
         TcpFlow.Event {| TcpFlow.TransportLayer := TcpFlow.LayerTCP t1 |}
                       c1 flow = Ok f1 /\
         TcpFlow.Event {| TcpFlow.TransportLayer := TcpFlow.LayerTCP t2 |}
                       c2 f1 = Ok f2 /\
         TcpFlow.Event {| TcpFlow.TransportLayer := TcpFlow.LayerTCP t3 |}
                       c3 f2 = Ok f3 /\
         TcpFlow.Event {| TcpFlow.TransportLayer := TcpFlow.LayerTCP t4 |}
                       c4 f3 = Ok f4 /\
         TcpFlow.Active f1 = true /\ TcpFlow.Active f2 = true /\
         TcpFlow.Active f3 = true /\ TcpFlow.Active f4 = false /\
         TcpFlow.exported (TcpFlow.base f1) = TcpFlow.exported (TcpFlow.base flow) /\
         TcpFlow.exported (TcpFlow.base f2) = TcpFlow.exported (TcpFlow.base flow) /\
         TcpFlow.exported (TcpFlow.base f3) = TcpFlow.exported (TcpFlow.base flow) /\
         TcpFlow.exported (TcpFlow.base f4) =
           TcpFlow.exported (TcpFlow.base flow)
           ++ [(TcpFlow.FlowEndReasonEnd, When c4)]).
Proof.
  intros [[act feats exps] sf df da sa] Hact.
  unfold TcpFlow.Active in Hact. simpl in Hact. subst act.
  split.
  - intros [fin syn rst psh ack urg] [when fwd].
    destruct rst, fwd, fin, ack, sf, df, da, sa;
      (eexists; split; [vm_compute; reflexivity |]; vm_compute;
       split; intros Hrst; try discriminate Hrst;
       repeat split; congruence).
  - intros [fin1 syn1 rst1 psh1 ack1 urg1] [fin2 syn2 rst2 psh2 ack2 urg2]
           [fin3 syn3 rst3 psh3 ack3 urg3] [fin4 syn4 rst4 psh4 ack4 urg4]
           [w1 fw1] [w2 fw2] [w3 fw3] [w4 fw4].
    simpl. intros -> -> -> -> -> -> -> -> -> -> -> -> -> -> -> ->.
    destruct ack1, fin2, ack3, fin4;
      (eexists; eexists; eexists; eexists;
       repeat (split; [vm_compute; reflexivity |]);
       vm_compute; reflexivity).
Qed.

Lemma tcpFlow_Event_teardown_witness :
  exists f,
    TcpFlow.Events TcpFlow.teardown TcpFlow.newTcpFlow = Ok f /\
    TcpFlow.Active f = false /\
    TcpFlow.exported (TcpFlow.base f) = [(TcpFlow.FlowEndReasonEnd, 40)].
Proof.
  destruct (tcpFlow_Event_teardown TcpFlow.newTcpFlow eq_refl) as [_ Hseq].
  destruct (Hseq
    {| TcpFlow.FIN := true; TcpFlow.SYN := false; TcpFlow.RST := false;
       TcpFlow.PSH := false; TcpFlow.ACK := false; TcpFlow.URG := false |}
    {| TcpFlow.FIN := false; TcpFlow.SYN := false; TcpFlow.RST := false;
       TcpFlow.PSH := false; TcpFlow.ACK := true; TcpFlow.URG := false |}
    {| TcpFlow.FIN := true; TcpFlow.SYN := false; TcpFlow.RST := false;
       TcpFlow.PSH := false; TcpFlow.ACK := false; TcpFlow.URG := false |}
    {| TcpFlow.FIN := false; TcpFlow.SYN := false; TcpFlow.RST := false;
       TcpFlow.PSH := false; TcpFlow.ACK := true; TcpFlow.URG := false |}
    {| When := 10; Forward := true |} {| When := 20; Forward := false |}
    {| When := 30; Forward := false |} {| When := 40; Forward := true |}
    eq_refl eq_refl eq_refl eq_refl eq_refl eq_refl eq_refl eq_refl
    eq_refl eq_refl eq_refl eq_refl eq_refl eq_refl eq_refl eq_refl)
    as (f1 & f2 & f3 & f4 & H1 & H2 & H3 & H4 & _ & _ & _ & Hact & _ & _ & _ & Hexp).
  exists f4. split; [| split; [exact Hact | exact Hexp]].
  unfold TcpFlow.Events, TcpFlow.teardown, TcpFlow.segment.
  rewrite H1. cbn [mbind Result_bind]. rewrite H2. cbn [mbind Result_bind].
  rewrite H3. cbn [mbind Result_bind]. rewrite H4. reflexivity.
Defined.

(** ** The buffer pool *)

Section ReleaseProps.

Import MultiBuffer.

Implicit Types (bs nl : list ptr) (b : ptr).

Lemma unused_bound bs : (unused bs <= length bs)%nat.
Proof.
  induction bs as [|b bs IH]; simpl; [lia |].
  destruct (is_unused b); lia.
Qed.

Lemma kept_length (A : Z) bs : forall f,
  0 <= f <= A ->
  len (kept A f bs) = len bs - (Z.min A (f + Z.of_nat (unused bs)) - f).
Proof.
  unfold len. induction bs as [|b bs IH]; intros f Hf; simpl.
  - lia.
  - destruct (is_unused b); simpl.
    + destruct (Z.eqb_spec f A) as [-> | Hne]; simpl.
      * rewrite Nat2Z.inj_succ, IH by lia. lia.
      * rewrite IH by lia. lia.
    + rewrite Nat2Z.inj_succ, IH by lia. lia.
Qed.

Lemma put_ok (i : Z) b nl :
  0 <= i < len nl -> put i b nl = Ok (<[Z.to_nat i := b]> nl).
Proof.
  intros H. unfold put.
  destruct (i <? 0) eqn:E1; [apply Z.ltb_lt in E1; lia |].
  destruct (len nl <=? i) eqn:E2; [apply Z.leb_le in E2; lia |].
  reflexivity.
Qed.

Lemma put_panics (i : Z) b nl :
  len nl <= i -> put i b nl = Panicked (IndexOutOfRange i (len nl)).
Proof.
  intros H. unfold put.
  destruct (len nl <=? i) eqn:E2; [| apply Z.leb_gt in E2; lia].
  rewrite orb_true_r. reflexivity.
Qed.

Lemma wrap32_small (z : Z) : - 2 ^ 31 <= z < 2 ^ 31 -> wrap32 z = z.
Proof.
  intros H. unfold wrap32. rewrite Z.mod_small by lia. lia.
Qed.

(** Writing [k] into [nl] from index [i] on. *)
Lemma write_cons (i : nat) b (k nl : list ptr) :
  (i < length nl)%nat ->
  take (S i) (<[i := b]> nl) ++ k ++ drop (S i + length k) (<[i := b]> nl) =
  take i nl ++ (b :: k) ++ drop (i + length (b :: k)) nl.
Proof.
  intros Hi.
  rewrite drop_insert_lt by lia.
  rewrite (take_S_r _ i b) by (apply list_lookup_insert_eq; exact Hi).
  rewrite take_insert_ge by lia.
  rewrite <- app_assoc. simpl. repeat f_equal. lia.
Qed.

(** The loop of release over buffers none of which is nil: it writes the
    kept buffers from [idx] on, and panics at the end of [newlist] when they
    do not fit. *)
Lemma release_loop_spec (A : Z) bs : forall nl (i f : Z),
  Forall (fun b => b <> None) bs ->
  0 <= f <= A -> A < 2 ^ 31 ->
  0 <= i <= len nl ->
  release_loop A bs {| newlist := nl; idx := i; freed := f |} =
  if i + len (kept A f bs) <=? len nl then
    Ok {| newlist := take (Z.to_nat i) nl ++ kept A f bs
                     ++ drop (Z.to_nat i + length (kept A f bs)) nl;
          idx := i + len (kept A f bs);
          freed := Z.min A (f + Z.of_nat (unused bs)) |}
  else Panicked (IndexOutOfRange (len nl) (len nl)).
Proof.
  induction bs as [|b bs IH]; intros nl i f Hnil Hf HA Hi.
  - simpl. change (len (@nil ptr)) with 0.
    destruct (i + 0 <=? len nl) eqn:E; [| apply Z.leb_gt in E; lia].
    rewrite Nat.add_0_r, take_drop. f_equal. f_equal; lia.
  - apply Forall_cons in Hnil as [Hb Hnil].
    destruct b as [pb|]; [| contradiction].
    cbn [release_loop release_body kept is_unused unused newlist idx freed].
    assert (Hkeep : forall f',
      f' = f ->
      (st' ← (nl' ← put i (Some pb) nl;
              Ok {| newlist := nl'; idx := i + 1; freed := f |});
       release_loop A bs st') =
      if i + len (Some pb :: kept A f bs) <=? len nl then
        Ok {| newlist := take (Z.to_nat i) nl ++ (Some pb :: kept A f bs)
                ++ drop (Z.to_nat i + length (Some pb :: kept A f bs)) nl;
              idx := i + len (Some pb :: kept A f bs);
              freed := Z.min A (f' + Z.of_nat (unused bs)) |}
      else Panicked (IndexOutOfRange (len nl) (len nl))).
    { intros f' ->.
      assert (Hlen : len (Some pb :: kept A f bs) = 1 + len (kept A f bs)).
      { unfold len.
        change (length (Some pb :: kept A f bs))
          with (S (length (kept A f bs))). lia. }
      destruct (Z.eq_dec i (len nl)) as [Heq | Hne].
      - rewrite put_panics by lia. cbn [mbind Result_bind].
        destruct (i + len (Some pb :: kept A f bs) <=? len nl) eqn:E.
        + apply Z.leb_le in E. unfold len in *. lia.
        + rewrite Heq. reflexivity.
      - rewrite put_ok by lia. cbn [mbind Result_bind].
        assert (Hl : len (<[Z.to_nat i := Some pb]> nl) = len nl).
        { unfold len. rewrite length_insert. reflexivity. }
        rewrite IH;
          [| exact Hnil | exact Hf | exact HA
           | unfold len in *; rewrite length_insert; lia].
        rewrite Hl, Hlen.
        replace (i + 1 + len (kept A f bs)) with (i + (1 + len (kept A f bs)))
          by lia.
        destruct (i + (1 + len (kept A f bs)) <=? len nl); [| reflexivity].
        f_equal. f_equal.
        replace (Z.to_nat (i + 1)) with (S (Z.to_nat i)) by lia.
        apply write_cons. unfold len in *. lia. }
    destruct (inUse pb =? 0) eqn:Euse; cbn [negb andb].
    + destruct (Z.eqb_spec f A) as [-> | Hne]; cbn [negb].
      * rewrite (Hkeep A eq_refl). 
        replace (Z.min A (A + Z.of_nat (S (unused bs))))
          with (Z.min A (A + Z.of_nat (unused bs))) by lia.
        reflexivity.
      * cbn [mbind Result_bind].
        rewrite wrap32_small by lia.
        rewrite IH; [| exact Hnil | lia | exact HA | exact Hi].
        replace (f + 1 + Z.of_nat (unused bs))
          with (f + Z.of_nat (S (unused bs))) by lia.
        reflexivity.
    + rewrite (Hkeep f eq_refl). reflexivity.
Qed.

(** release on a pool without nil buffers whose allocSize is within the
    pool: it succeeds iff at least allocSize buffers are unused. *)
Lemma release_spec (mpb : multiPacketBuffer) :
  Forall (fun b => b <> None) (buffers mpb) ->
  0 <= allocSize mpb < 2 ^ 31 ->
  allocSize mpb <= len (buffers mpb) ->
  release mpb =
    if allocSize mpb <=? Z.of_nat (unused (buffers mpb)) then
      Ok {| numFree := wrap32 (numFree mpb + wrap32 (- allocSize mpb));
            allocSize := allocSize mpb;
            prealloc := prealloc mpb;
            buffers := kept (allocSize mpb) 0 (buffers mpb);
            resize := resize mpb |}
    else
      Panicked (IndexOutOfRange (len (buffers mpb) - allocSize mpb)
                                (len (buffers mpb) - allocSize mpb)).
Proof.
  destruct mpb as [nf A pre bs rs]. simpl. intros Hnil HA Hle.
  unfold release, make. simpl.
  destruct (len bs - A <? 0) eqn:E; [apply Z.ltb_lt in E; lia |].
  cbn [mbind Result_bind].
  set (n := Z.to_nat (len bs - A)).
  assert (Hn : len (replicate n (@None packetBuffer)) = len bs - A).
  { unfold len. rewrite length_replicate. subst n. unfold len in *. lia. }
  rewrite release_loop_spec; [| exact Hnil | lia | lia | rewrite Hn; lia].
  pose proof (kept_length A bs 0 ltac:(lia)) as Hk.
  pose proof (unused_bound bs) as Hu.
  rewrite Hn, Hk.
  destruct (Z.leb_spec A (Z.of_nat (unused bs))) as [Hge | Hlt].
  - destruct (Z.leb_spec (0 + (len bs - (Z.min A (0 + Z.of_nat (unused bs)) - 0)))
                (len bs - A)) as [_ | H]; [| lia].
    cbn [mbind Result_bind newlist freed]. f_equal.
    rewrite Z.min_l by lia.
    assert (Hlk : length (kept A 0 bs) = n).
    { subst n. unfold len in *. lia. }
    simpl take. rewrite Nat.add_0_l, Hlk.
    rewrite drop_replicate, Nat.sub_diag. simpl replicate.
    rewrite app_nil_r. reflexivity.
  - destruct (Z.leb_spec (0 + (len bs - (Z.min A (0 + Z.of_nat (unused bs)) - 0)))
                (len bs - A)) as [H | _]; [lia |].
    reflexivity.
Qed.

(** What release keeps is a sub-list of the pool that holds every buffer in
    use: only unused buffers are dropped. *)
Lemma kept_sublist (A : Z) bs : forall f, sublist (kept A f bs) bs.
Proof.
  induction bs as [|b bs IH]; intros f; simpl.
  - constructor.
  - destruct (is_unused b && negb (f =? A)).
    + apply sublist_cons. apply IH.
    + apply sublist_skip. apply IH.
Qed.

Lemma kept_in_use (A : Z) bs : forall f b,
  In b bs -> is_unused b = false -> In b (kept A f bs).
Proof.
  induction bs as [|b0 bs IH]; intros f b Hin Hb; simpl.
  - destruct Hin.
  - destruct Hin as [-> | Hin].
    + rewrite Hb. simpl. left. reflexivity.
    + destruct (is_unused b0 && negb (f =? A)).
      * apply IH; assumption.
      * right. apply IH; assumption.
Qed.

End ReleaseProps.

(** C9. release does not stay within the list it rebuilds when fewer than
    allocSize buffers are unused: in a pool of two buffers with allocSize 2,
    one of them in use, the new list is made with length [2 - 2 = 0] and the
    buffer in use is then stored at index 0 of it, which is out of range. *)
Theorem release_out_of_range_when_few_unused :
  MultiBuffer.unused (MultiBuffer.buffers MultiBuffer.pool_one_busy) = 1%nat /\
  MultiBuffer.allocSize MultiBuffer.pool_one_busy = 2 /\
  MultiBuffer.release MultiBuffer.pool_one_busy =
    Panicked (IndexOutOfRange 0 0).
Proof. split; [| split]; reflexivity. Qed.

(** The pool of the failing case is within reach: replenish on an empty pool
    with allocSize 2 gives two unused buffers, of which a batch then takes
    the first. *)
Example replenish_two :
  MultiBuffer.replenish 0
    {| MultiBuffer.numFree := 0; MultiBuffer.allocSize := 2;
       MultiBuffer.prealloc := 4096; MultiBuffer.buffers := [];
       MultiBuffer.resize := false |} =
    Ok {| MultiBuffer.numFree := 2; MultiBuffer.allocSize := 2;
          MultiBuffer.prealloc := 4096;
          MultiBuffer.buffers :=
            [ Some {| MultiBuffer.addr := 0; MultiBuffer.inUse := 0 |};
              Some {| MultiBuffer.addr := 1; MultiBuffer.inUse := 0 |} ];
          MultiBuffer.resize := false |}.
Proof. reflexivity. Qed.

(** With allocSize unused buffers at hand release drops the first allocSize
    of them and keeps the rest in order. *)
Example release_three_free :
  MultiBuffer.release MultiBuffer.pool_three_free =
    Ok {| MultiBuffer.numFree := 1;
          MultiBuffer.allocSize := 2;
          MultiBuffer.prealloc := 4096;
          MultiBuffer.buffers :=
            [ Some {| MultiBuffer.addr := 1; MultiBuffer.inUse := 1 |};
              Some {| MultiBuffer.addr := 3; MultiBuffer.inUse := 0 |} ];
          MultiBuffer.resize := false |}.
Proof. reflexivity. Qed.

(** * Further properties *)

(** ** Timers: registration, addTimer, hasTimer and runs of expire *)

Section TimersMore.

Import Timers.

Context {TimerCallback : Type}.
Variable run :
  TimerCallback -> EventContext -> DateTimeNanoseconds ->
  funcEntries TimerCallback -> funcEntries TimerCallback.
Hypothesis run_inert : inert run.

Implicit Types (fe : funcEntries TimerCallback).
Implicit Types (e : funcEntry TimerCallback).

Lemma alter_alter_insert (i : nat) (f : option TimerCallback)
    (c : EventContext) (l : list (funcEntry TimerCallback)) :
  (i < length l)%nat ->
  alter (setContext TimerCallback c) i (alter (setFunction TimerCallback f) i l)
  = <[i := {| function := f; context := c |}]> l.
Proof.
  intros Hi. apply list_eq. intros j.
  destruct (decide (i = j)) as [<- | Hne].
  - rewrite !list_lookup_alter_eq, list_lookup_insert_eq by exact Hi.
    destruct (lookup_lt_is_Some_2 l i Hi) as [e He]. rewrite He. reflexivity.
  - rewrite !list_lookup_alter_ne, list_lookup_insert_ne by exact Hne.
    reflexivity.
Qed.

(** The array addTimer stores into: grown by one zero entry when [id] is the
    length. *)
Lemma addTimer_explicit (id : TimerID) (f : option TimerCallback)
    (c : EventContext) fe :
  0 <= id <= len fe ->
  addTimer id f c fe =
    Ok (<[Z.to_nat id := {| function := f; context := c |}]>
          (if len fe <=? id then fe ++ [zeroEntry] else fe)).
Proof.
  intros Hid. unfold addTimer.
  set (fep0 := if len fe <=? id then fe ++ [zeroEntry] else fe).
  assert (H0 : (if len fe <=? id
                then ext ← make TimerCallback (len fe - id + 1); Ok (fe ++ ext)
                else Ok fe) = Ok fep0).
  { subst fep0. destruct (len fe <=? id) eqn:E; [| reflexivity].
    apply Z.leb_le in E. replace (len fe - id + 1) with 1 by lia.
    reflexivity. }
  rewrite H0. cbn [mbind Result_bind].
  assert (Hlen : len fep0 = Z.max (len fe) (id + 1)).
  { subst fep0. destruct (len fe <=? id) eqn:E.
    - apply Z.leb_le in E. rewrite len_app.
      change (len [@zeroEntry TimerCallback]) with 1. lia.
    - apply Z.leb_gt in E. lia. }
  assert (Hin : 0 <= id < len fep0) by lia.
  rewrite (store_ok _ _ _ Hin). cbn [mbind Result_bind].
  rewrite store_ok.
  - f_equal. apply alter_alter_insert. unfold len in Hin. lia.
  - unfold funcEntries, len in *. rewrite length_alter. lia.
Qed.

Lemma hasTimer_lookup (id : TimerID) fe :
  hasTimer id fe =
    if id <? 0 then false
    else match fe !! Z.to_nat id with
         | Some e => negb (When (context e) =? 0)
         | None => false
         end.
Proof.
  unfold hasTimer, funcEntries in *.
  destruct (id <? 0) eqn:E1; [rewrite orb_true_r; reflexivity |].
  rewrite orb_false_r. apply Z.ltb_ge in E1.
  destruct (len fe <=? id) eqn:E2.
  - apply Z.leb_le in E2. rewrite lookup_ge_None_2; [reflexivity |].
    unfold len in E2. lia.
  - destruct (fe !! Z.to_nat id) as [e|]; [| reflexivity].
    destruct (When (context e) =? 0); reflexivity.
Qed.

Lemma due_calls_nil (t : DateTimeNanoseconds) fe : forall i,
  (forall e, In e fe -> due t e = false) -> due_calls t i fe = [].
Proof.
  induction fe as [|e fe IH]; intros i H; simpl.
  - reflexivity.
  - rewrite (H e) by (left; reflexivity).
    rewrite IH by (intros e' He'; apply H; right; exact He').
    destruct (function e); reflexivity.
Qed.

Lemma calls_to_nil (i : nat) : calls_to i (@nil (Invocation TimerCallback)) = O.
Proof. reflexivity. Qed.

(** Runs of expire, one list of times after another. *)
Lemma expires_app (ts1 ts2 : list DateTimeNanoseconds) : forall fe,
  expires run (ts1 ++ ts2) fe =
    r1 ← expires run ts1 fe;
    r2 ← expires run ts2 (fst r1);
    Ok (fst r2, snd r1 ++ snd r2).
Proof.
  induction ts1 as [|t ts1 IH]; intros fe; simpl.
  - destruct (expires run ts2 fe) as [[fe2 c2]|p]; reflexivity.
  - destruct (expire run t fe) as [st|p]; cbn [mbind Result_bind];
      [| reflexivity].
    rewrite IH.
    destruct (expires run ts1 (fep st)) as [[fe1 c1]|p];
      cbn [mbind Result_bind fst snd]; [| reflexivity].
    destruct (expires run ts2 fe1) as [[fe2 c2]|p]; reflexivity.
Qed.

(** While the times are before the scheduled time of entry [i], the entry is
    left as it is and never called. *)
Lemma expires_before_due (i : nat) e (ts : list DateTimeNanoseconds) :
  forall fe,
    armed fe -> fe !! i = Some e ->
    When (context e) <> 0 ->
    Forall (fun t => t < When (context e)) ts ->
    exists fe' calls,
      expires run ts fe = Ok (fe', calls) /\
      armed fe' /\ fe' !! i = Some e /\
      length calls = length ts /\
      Forall (fun c => calls_to i c = O) calls.
Proof.
  induction ts as [|t ts IH]; intros fe Harmed Hi Hw Hts.
  - exists fe, []. simpl. repeat split; auto.
  - apply Forall_cons in Hts as [Ht Hts].
    assert (Hnd : due t e = false).
    { unfold due. destruct (When (context e) <=? t) eqn:E;
        [apply Z.leb_le in E; lia | apply andb_false_r]. }
    assert (Hi' : map (expired t) fe !! i = Some e).
    { unfold funcEntries in *. rewrite list_lookup_fmap, Hi. simpl.
      unfold expired. rewrite Hnd.
      reflexivity. }
    destruct (IH _ (armed_expired t fe Harmed) Hi' Hw Hts)
      as (fe' & calls & Hrun & Harmed' & Hi'' & Hlen & Hall).
    exists fe', (due_calls t 0 fe :: calls).
    simpl. rewrite (expire_inert run run_inert t fe Harmed).
    cbn [mbind Result_bind fep fired]. rewrite Hrun.
    cbn [mbind Result_bind fst snd].
    split; [reflexivity |]. split; [exact Harmed' |]. split; [exact Hi'' |].
    split; [simpl; rewrite Hlen; reflexivity |].
    constructor; [| exact Hall].
    rewrite (calls_to_due_calls t fe O i e Harmed Hi
               : calls_to i (due_calls t 0 fe) = _), Hnd.
    reflexivity.
Qed.

(** An entry that is not scheduled is never called. *)
Lemma expires_unscheduled (i : nat) e (ts : list DateTimeNanoseconds) :
  forall fe,
    armed fe -> fe !! i = Some e ->
    When (context e) = 0 ->
    exists fe' calls,
      expires run ts fe = Ok (fe', calls) /\
      fe' !! i = Some e /\
      length calls = length ts /\
      Forall (fun c => calls_to i c = O) calls.
Proof.
  induction ts as [|t ts IH]; intros fe Harmed Hi Hw.
  - exists fe, []. simpl. repeat split; auto.
  - assert (Hnd : due t e = false).
    { unfold due. rewrite Hw. reflexivity. }
    assert (Hi' : map (expired t) fe !! i = Some e).
    { unfold funcEntries in *. rewrite list_lookup_fmap, Hi. simpl.
      unfold expired. rewrite Hnd.
      reflexivity. }
    destruct (IH _ (armed_expired t fe Harmed) Hi' Hw)
      as (fe' & calls & Hrun & Hi'' & Hlen & Hall).
    exists fe', (due_calls t 0 fe :: calls).
    simpl. rewrite (expire_inert run run_inert t fe Harmed).
    cbn [mbind Result_bind fep fired]. rewrite Hrun.
    cbn [mbind Result_bind fst snd].
    split; [reflexivity |]. split; [exact Hi'' |].
    split; [simpl; rewrite Hlen; reflexivity |].
    constructor; [| exact Hall].
    rewrite (calls_to_due_calls t fe O i e Harmed Hi
               : calls_to i (due_calls t 0 fe) = _), Hnd.
    reflexivity.
Qed.

End TimersMore.

(** X1. For a TimerID within the array or one past its end, addTimer
    succeeds: the array has length max(len, id + 1), holds the callback and
    the context at index [id], hasTimer(id) is true iff the context's time is
    nonzero, and every other timer is left as it was. *)
Theorem addTimer_stores_keeps_others :
  forall (TimerCallback : Type) (id : Timers.TimerID)
         (f : option TimerCallback) (c : EventContext)
         (fe : Timers.funcEntries TimerCallback),
    0 <= id <= len fe ->
    exists fe',
      Timers.addTimer id f c fe = Ok fe' /\
      len fe' = Z.max (len fe) (id + 1) /\
      fe' !! Z.to_nat id =
        Some {| Timers.function := f; Timers.context := c |} /\
      Timers.hasTimer id fe' = negb (When c =? 0) /\
      (forall (j : nat) e, j <> Z.to_nat id -> fe !! j = Some e ->
                           fe' !! j = Some e) /\
      (forall j : Timers.TimerID, j <> id ->
         Timers.hasTimer j fe' = Timers.hasTimer j fe).
Proof.
  intros TimerCallback id f c fe Hid.
  rewrite (addTimer_explicit id f c fe Hid).
  set (fep0 := if len fe <=? id then fe ++ [Timers.zeroEntry] else fe).
  assert (Hlen : len fep0 = Z.max (len fe) (id + 1)).
  { subst fep0. destruct (len fe <=? id) eqn:E.
    - apply Z.leb_le in E. rewrite len_app.
      change (len [@Timers.zeroEntry TimerCallback]) with 1. lia.
    - apply Z.leb_gt in E. lia. }
  assert (Hin : (Z.to_nat id < length fep0)%nat) by (unfold len in Hlen; lia).
  assert (Hother : forall j : nat, j <> Z.to_nat id ->
            (<[Z.to_nat id := {| Timers.function := f; Timers.context := c |}]>
               fep0) !! j = fe !! j).
  { intros j Hj. unfold Timers.funcEntries in *.
    rewrite list_lookup_insert_ne by congruence.
    subst fep0. destruct (len fe <=? id) eqn:E; [| reflexivity].
    apply Z.leb_le in E. unfold len in *.
    destruct (Nat.lt_ge_cases j (length fe)) as [Hlt | Hge].
    - apply lookup_app_l. exact Hlt.
    - rewrite (lookup_ge_None_2 fe j Hge). apply lookup_ge_None_2.
      rewrite length_app. simpl. lia. }
  eexists. split; [reflexivity |].
  split; [unfold len in *; rewrite length_insert; exact Hlen |].
  split; [apply list_lookup_insert_eq; exact Hin |].
  split; [| split].
  - rewrite hasTimer_lookup.
    destruct (id <? 0) eqn:E; [apply Z.ltb_lt in E; lia |].
    unfold Timers.funcEntries in *.
    rewrite list_lookup_insert_eq by exact Hin. reflexivity.
  - intros j e Hj He. unfold Timers.funcEntries in *.
    rewrite Hother by exact Hj. exact He.
  - intros j Hj. rewrite !hasTimer_lookup.
    destruct (j <? 0) eqn:E; [reflexivity |]. apply Z.ltb_ge in E.
    unfold Timers.funcEntries in *. rewrite Hother by lia. reflexivity.
Qed.

Lemma addTimer_stores_keeps_others_witness :
  exists fe',
    Timers.addTimer 2 (Some 7%nat) {| When := 30; Forward := true |}
      Timers.idle_and_active = Ok fe' /\
    len fe' = 3 /\
    Timers.hasTimer 2 fe' = true /\
    Timers.hasTimer 0 fe' = true.
Proof.
  destruct (addTimer_stores_keeps_others nat 2 (Some 7%nat)
              {| When := 30; Forward := true |} Timers.idle_and_active
              ltac:(vm_compute; split; discriminate))
    as (fe' & Hrun & Hlen & _ & Hhas & _ & Hothers).
  exists fe'. split; [exact Hrun |]. split; [exact Hlen |].
  split; [exact Hhas |].
  rewrite (Hothers 0 ltac:(discriminate)). reflexivity.
Defined.

(** X2. addTimer called for the ids id, id + 1, ... in ascending order, the
    first of them within the array or one past its end, always succeeds: the
    array ends with length max(len, id + n), holds the n entries at their
    ids, and keeps every entry below [id]. *)
Theorem addTimers_ascending_succeeds :
  forall (TimerCallback : Type)
         (es : list (option TimerCallback * EventContext))
         (id : Timers.TimerID) (fe : Timers.funcEntries TimerCallback),
    0 <= id <= len fe ->
    exists fe',
      Timers.addTimers id es fe = Ok fe' /\
      len fe' = Z.max (len fe) (id + len es) /\
      (forall (k : nat) f c, es !! k = Some (f, c) ->
         fe' !! (Z.to_nat id + k)%nat =
           Some {| Timers.function := f; Timers.context := c |}) /\
      (forall (j : nat) e, (j < Z.to_nat id)%nat -> fe !! j = Some e ->
                           fe' !! j = Some e).
Proof.
  intros TimerCallback es.
  induction es as [|[f c] es IH]; intros id fe Hid.
  - exists fe. simpl. split; [reflexivity |].
    split; [change (len (@nil (option TimerCallback * EventContext))) with 0; lia |].
    split; [intros k f c Hk; discriminate | auto].
  - destruct (addTimer_stores_keeps_others TimerCallback id f c fe Hid)
      as (fe1 & Hrun & Hlen1 & Hget & _ & Hkeep & _).
    destruct (IH (id + 1) fe1 ltac:(lia))
      as (fe' & Hrun' & Hlen' & Hgets & Hkeeps).
    exists fe'. simpl. rewrite Hrun. cbn [mbind Result_bind].
    split; [exact Hrun' |]. split; [| split].
    + rewrite Hlen', Hlen1. unfold len. simpl length. lia.
    + intros [|k] f' c' Hk; simpl in Hk.
      * injection Hk as <- <-. rewrite Nat.add_0_r.
        apply Hkeeps; [lia | exact Hget].
      * replace (Z.to_nat id + S k)%nat with (Z.to_nat (id + 1) + k)%nat by lia.
        apply Hgets. exact Hk.
    + intros j e Hj He. apply Hkeeps; [lia |].
      apply Hkeep; [lia | exact He].
Qed.

Lemma addTimers_ascending_succeeds_witness :
  exists fe',
    Timers.addTimers 0
      [ (Some 0%nat, {| When := 5; Forward := true |});
        (Some 1%nat, {| When := 20; Forward := true |});
        (Some 2%nat, {| When := 0; Forward := true |});
        (Some 3%nat, {| When := 7; Forward := false |}) ]
      Timers.makeFuncEntries = Ok fe' /\
    len fe' = 4.
Proof.
  destruct (addTimers_ascending_succeeds nat
      [ (Some 0%nat, {| When := 5; Forward := true |});
        (Some 1%nat, {| When := 20; Forward := true |});
        (Some 2%nat, {| When := 0; Forward := true |});
        (Some 3%nat, {| When := 7; Forward := false |}) ]
      0 Timers.makeFuncEntries ltac:(vm_compute; split; discriminate))
    as (fe' & Hrun & Hlen & _).
  exists fe'. split; [exact Hrun | exact Hlen].
Defined.

(** X3. After expire(now), with callbacks that leave the array alone,
    hasTimer(id) is true exactly for the entries scheduled after [now]:
    timers that fired are no longer there, and expire schedules nothing. *)
Theorem hasTimer_after_expire :
  forall (TimerCallback : Type)
         (run : TimerCallback -> EventContext -> DateTimeNanoseconds ->
                Timers.funcEntries TimerCallback ->
                Timers.funcEntries TimerCallback)
         (now : DateTimeNanoseconds) (fe : Timers.funcEntries TimerCallback),
    Timers.inert run ->
    Timers.armed fe ->
    exists st,
      Timers.expire run now fe = Ok st /\
      (forall (id : Timers.TimerID) e,
         0 <= id -> fe !! Z.to_nat id = Some e ->
         Timers.hasTimer id (Timers.fep st) = Timers.pending now e) /\
      (forall id : Timers.TimerID,
         Timers.hasTimer id (Timers.fep st) = true ->
         Timers.hasTimer id fe = true).
Proof.
  intros TimerCallback run now fe Hinert Harmed.
  eexists. split; [apply (expire_inert run Hinert now fe Harmed) |].
  cbn [Timers.fep].
  assert (Hat : forall (id : Timers.TimerID) e,
            0 <= id -> fe !! Z.to_nat id = Some e ->
            Timers.hasTimer id (map (Timers.expired now) fe) =
            Timers.pending now e).
  { intros id e Hid He. rewrite hasTimer_lookup.
    destruct (id <? 0) eqn:E; [apply Z.ltb_lt in E; lia |].
    unfold Timers.funcEntries in *.
    rewrite list_lookup_fmap, He. simpl.
    rewrite When_expired. unfold Timers.due, Timers.pending.
    destruct (When (Timers.context e) =? 0) eqn:E0; simpl;
      [rewrite ?E0; reflexivity |].
    destruct (When (Timers.context e) <=? now); simpl;
      [reflexivity | rewrite E0; reflexivity]. }
  split; [exact Hat |].
  intros id H. rewrite (hasTimer_lookup id fe).
  destruct (id <? 0) eqn:E.
  - rewrite hasTimer_lookup, E in H. discriminate.
  - apply Z.ltb_ge in E. unfold Timers.funcEntries in *.
    destruct (fe !! Z.to_nat id) as [e|] eqn:He.
    + rewrite (Hat id e E He) in H. unfold Timers.pending in H.
      apply andb_prop in H as [H _]. exact H.
    + rewrite hasTimer_lookup in H.
      destruct (id <? 0); [discriminate |].
      unfold Timers.funcEntries in *.
      rewrite list_lookup_fmap, He in H. discriminate.
Qed.

Lemma hasTimer_after_expire_witness :
  exists st,
    Timers.expire Timers.nop 10 Timers.idle_and_active = Ok st /\
    Timers.hasTimer 0 (Timers.fep st) = false /\
    Timers.hasTimer 1 (Timers.fep st) = true.
Proof.
  destruct (hasTimer_after_expire nat Timers.nop 10 Timers.idle_and_active
              nop_inert idle_and_active_armed) as (st & Hrun & Hat & _).
  exists st. split; [exact Hrun |].
  split; [exact (Hat 0 _ ltac:(lia) eq_refl) | exact (Hat 1 _ ltac:(lia) eq_refl)].
Defined.

(** X4. A timer scheduled at a nonzero time [w] fires in the first
    expire(t) with t >= w and in no other: over a run of expire at times of
    which the first ones are before [w], the next one is not, and the rest is
    arbitrary, the entry is called exactly once, in that run. *)
Theorem timer_fires_in_first_expire_past_due :
  forall (TimerCallback : Type)
         (run : TimerCallback -> EventContext -> DateTimeNanoseconds ->
                Timers.funcEntries TimerCallback ->
                Timers.funcEntries TimerCallback)
         (fe : Timers.funcEntries TimerCallback)
         (i : nat) (e : Timers.funcEntry TimerCallback)
         (before : list DateTimeNanoseconds) (t : DateTimeNanoseconds)
         (after : list DateTimeNanoseconds),
    Timers.inert run ->
    Timers.armed fe ->
    fe !! i = Some e ->
    When (Timers.context e) <> 0 ->
    Forall (fun t' => t' < When (Timers.context e)) before ->
    When (Timers.context e) <= t ->
    exists fe' c1 c2 c3,
      Timers.expires run (before ++ t :: after) fe = Ok (fe', c1 ++ c2 :: c3) /\
      length c1 = length before /\ length c3 = length after /\
      Forall (fun c => Timers.calls_to i c = O) c1 /\
      Timers.calls_to i c2 = 1%nat /\
      Forall (fun c => Timers.calls_to i c = O) c3.
Proof.
  intros TimerCallback run fe i e before t after Hinert Harmed Hi Hw Hb Ht.
  destruct (expires_before_due run Hinert i e before fe Harmed Hi Hw Hb)
    as (fe1 & c1 & Hrun1 & Harmed1 & Hi1 & Hlen1 & Hall1).
  assert (Hd : Timers.due t e = true) by (apply due_iff; split; assumption).
  assert (Hi2 : map (Timers.expired t) fe1 !! i = Some (Timers.clearWhen e)).
  { unfold Timers.funcEntries in *. rewrite list_lookup_fmap, Hi1. simpl.
    unfold Timers.expired. rewrite Hd. reflexivity. }
  destruct (expires_unscheduled run Hinert i (Timers.clearWhen e) after
              (map (Timers.expired t) fe1)
              (armed_expired t fe1 Harmed1) Hi2 eq_refl)
    as (fe3 & c3 & Hrun3 & _ & Hlen3 & Hall3).
  exists fe3, c1, (Timers.due_calls t 0 fe1), c3.
  split; [| repeat split; try assumption].
  - rewrite expires_app, Hrun1. cbn [mbind Result_bind fst snd].
    simpl Timers.expires.
    rewrite (expire_inert run Hinert t fe1 Harmed1).
    cbn [mbind Result_bind Timers.fep Timers.fired]. rewrite Hrun3.
    reflexivity.
  - rewrite (calls_to_due_calls t fe1 O i e Harmed1 Hi1
             : Timers.calls_to i (Timers.due_calls t 0 fe1) = _), Hd.
    reflexivity.
Qed.

Lemma timer_fires_in_first_expire_past_due_witness :
  exists fe' c1 c2 c3,
    Timers.expires Timers.nop ([3; 12] ++ 25 :: [30; 40])
      Timers.idle_and_active = Ok (fe', c1 ++ c2 :: c3) /\
    length c1 = 2%nat /\
    Timers.calls_to 1 c2 = 1%nat.
Proof.
  destruct (timer_fires_in_first_expire_past_due nat Timers.nop
              Timers.idle_and_active 1 _ [3; 12] 25 [30; 40]
              nop_inert idle_and_active_armed eq_refl
              ltac:(simpl; discriminate)
              ltac:(repeat constructor)
              ltac:(simpl; discriminate))
    as (fe' & c1 & c2 & c3 & Hrun & Hl1 & _ & _ & Hc2 & _).
  exists fe', c1, c2, c3. split; [exact Hrun |]. split; [exact Hl1 | exact Hc2].
Defined.

(** X5. The value returned by expire(now) tells when to come back: with
    callbacks that leave the array alone, if it is zero no later expire calls
    anything, and otherwise an expire before that time calls nothing while
    the expire at that time calls at least one timer. *)
Theorem expire_next_is_when_to_return :
  forall (TimerCallback : Type)
         (run : TimerCallback -> EventContext -> DateTimeNanoseconds ->
                Timers.funcEntries TimerCallback ->
                Timers.funcEntries TimerCallback)
         (now : DateTimeNanoseconds) (fe : Timers.funcEntries TimerCallback),
    Timers.inert run ->
    Timers.armed fe ->
    exists st,
      Timers.expire run now fe = Ok st /\
      (forall t', Timers.next st = 0 \/ t' < Timers.next st ->
         exists st', Timers.expire run t' (Timers.fep st) = Ok st' /\
                     Timers.fired st' = [] /\
                     Timers.fep st' = Timers.fep st) /\
      (Timers.next st <> 0 ->
         exists st', Timers.expire run (Timers.next st) (Timers.fep st) = Ok st' /\
                     Timers.fired st' <> []).
Proof.
  intros TimerCallback run now fe Hinert Harmed.
  eexists. split; [apply (expire_inert run Hinert now fe Harmed) |].
  cbn [Timers.fep Timers.next].
  pose proof (armed_expired now fe Harmed) as Harmed'.
  destruct (earliest_spec now fe 0) as (H1 & _ & H3).
  assert (Hleft : forall e', In e' (map (Timers.expired now) fe) ->
            When (Timers.context e') <> 0 ->
            In e' fe /\ Timers.pending now e' = true).
  { intros e' He' Hw. apply in_map_iff in He' as (e & <- & He).
    rewrite When_expired in Hw.
    destruct (Timers.due now e) eqn:Ed; [congruence |].
    destruct (due_or_pending now e Hw) as [Hd | Hp]; [congruence |].
    rewrite (expired_pending _ _ Hp). split; assumption. }
  split.
  - intros t' Ht'. eexists.
    split; [apply (expire_inert run Hinert t' _ Harmed') |].
    cbn [Timers.fep Timers.fired].
    assert (Hnone : forall e', In e' (map (Timers.expired now) fe) ->
              Timers.due t' e' = false).
    { intros e' He'.
      destruct (Z.eq_dec (When (Timers.context e')) 0) as [H0 | H0].
      - unfold Timers.due. rewrite H0. reflexivity.
      - destruct (Hleft e' He' H0) as [Hin Hp].
        destruct (H3 e' Hin Hp) as [Hne Hle].
        destruct Ht' as [Hz | Hlt]; [contradiction |].
        unfold Timers.due.
        destruct (When (Timers.context e') <=? t') eqn:E;
          [apply Z.leb_le in E; lia | apply andb_false_r]. }
    split; [apply due_calls_nil; exact Hnone |].
    rewrite <- (map_id (map (Timers.expired now) fe)) at 2.
    apply map_ext_in. intros e' He'. unfold Timers.expired at 1.
    rewrite (Hnone e' He'). reflexivity.
  - intros Hnz. eexists.
    split; [apply (expire_inert run Hinert _ _ Harmed') |].
    cbn [Timers.fired].
    destruct H1 as [H1 | (e & He & Hp & Hw)]; [contradiction |].
    assert (Hin : In e (map (Timers.expired now) fe)).
    { rewrite <- (expired_pending _ _ Hp). apply in_map. exact He. }
    apply list_elem_of_In, list_elem_of_lookup in Hin as [k Hk].
    destruct (Timers.function e) as [f|] eqn:Ef.
    + intros Hnil.
      assert (Hcall : In {| Timers.inv_id := (0 + k)%nat; Timers.inv_function := f;
                            Timers.inv_context := Timers.context e;
                            Timers.inv_now := Timers.earliest now 0 fe |}
                         (Timers.due_calls (Timers.earliest now 0 fe) 0
                            (map (Timers.expired now) fe))).
      { apply due_calls_In. exists k, e, f.
        split; [exact Hk |]. split; [| split; [exact Ef | reflexivity]].
        apply due_iff. split; [lia | lia]. }
      rewrite Hnil in Hcall. destruct Hcall.
    + exfalso. apply (Harmed e He); [lia | exact Ef].
Qed.

Lemma expire_next_is_when_to_return_witness :
  exists st st',
    Timers.expire Timers.nop 10 Timers.idle_and_active = Ok st /\
    Timers.expire Timers.nop 19 (Timers.fep st) = Ok st' /\
    Timers.fired st' = [].
Proof.
  destruct (expire_next_is_when_to_return nat Timers.nop 10
              Timers.idle_and_active nop_inert idle_and_active_armed)
    as (st & Hrun & Hquiet & _).
  assert (Hst : st = {| Timers.fep := map (Timers.expired 10) Timers.idle_and_active;
                        Timers.next := 20;
                        Timers.fired := Timers.due_calls 10 0 Timers.idle_and_active |}).
  { vm_compute in Hrun. injection Hrun as <-. reflexivity. }
  destruct (Hquiet 19) as (st' & Hrun' & Hnil & _).
  { right. rewrite Hst. reflexivity. }
  exists st, st'. split; [exact Hrun |]. split; [exact Hrun' | exact Hnil].
Defined.

Lemma wrap64_small (z : Z) : - 2 ^ 63 <= z < 2 ^ 63 -> Timers.wrap64 z = z.
Proof.
  intros H. unfold Timers.wrap64. rewrite Z.mod_small by lia. lia.
Qed.

Lemma RegisterTimers_ids (n : nat) : forall s : Timers.TimerID,
  0 <= s -> s + Z.of_nat n < 2 ^ 63 ->
  Timers.RegisterTimers n s =
    (map (fun k => s + Z.of_nat k) (seq 0 n), s + Z.of_nat n).
Proof.
  induction n as [|n IH]; intros s Hs Hn.
  - simpl. f_equal. lia.
  - cbn [Timers.RegisterTimers Timers.RegisterTimer].
    rewrite wrap64_small by lia. rewrite IH by lia.
    cbn [seq map]. f_equal.
    + f_equal; [lia |]. rewrite <- seq_shift, map_map.
      apply map_ext. intros k. lia.
    + lia.
Qed.

(** X6. RegisterTimer hands out consecutive ids and never the same id
    twice: n registrations starting at a nonnegative counter below the range
    of the Go int return the counter, counter + 1, ..., without repetition,
    and leave the counter at counter + n. The package registers the idle
    timer as 0 and the active timer as 1, so no timer registered later gets
    either id. *)
Theorem RegisterTimer_ids_are_fresh :
  forall (n : nat) (s : Timers.TimerID),
    0 <= s -> s + Z.of_nat n < 2 ^ 63 ->
    snd (Timers.RegisterTimers n s) = s + Z.of_nat n /\
    NoDup (fst (Timers.RegisterTimers n s)) /\
    (forall (k : nat) id,
       fst (Timers.RegisterTimers n s) !! k = Some id -> id = s + Z.of_nat k) /\
    (s = Timers.timerMaxID_init ->
       Timers.timerIdle = 0 /\ Timers.timerActive = 1 /\
       ~ In Timers.timerIdle (fst (Timers.RegisterTimers n s)) /\
       ~ In Timers.timerActive (fst (Timers.RegisterTimers n s))).
Proof.
  intros n s Hs Hn. rewrite (RegisterTimers_ids n s Hs Hn). simpl fst. simpl snd.
  split; [reflexivity |]. split; [| split].
  - apply NoDup_fmap_2; [| apply NoDup_seq].
    intros a b Hab. lia.
  - intros k id Hk. rewrite list_lookup_fmap in Hk.
    destruct (seq 0 n !! k) as [j|] eqn:Hj; [| discriminate].
    apply lookup_seq in Hj as [-> _]. simpl in Hk. injection Hk as <-.
    reflexivity.
  - intros ->. split; [reflexivity |]. split; [reflexivity |].
    assert (Hinit : Timers.timerMaxID_init = 2) by reflexivity.
    assert (Hidle : Timers.timerIdle = 0) by reflexivity.
    assert (Hactive : Timers.timerActive = 1) by reflexivity.
    split; intros Hin; apply in_map_iff in Hin as (k & Hk & _); lia.
Qed.

Lemma RegisterTimer_ids_are_fresh_witness :
  fst (Timers.RegisterTimers 3 Timers.timerMaxID_init) = [2; 3; 4] /\
  NoDup (fst (Timers.RegisterTimers 3 Timers.timerMaxID_init)).
Proof.
  destruct (RegisterTimer_ids_are_fresh 3 Timers.timerMaxID_init
              ltac:(vm_compute; discriminate) ltac:(reflexivity))
    as (_ & Hnodup & _).
  split; [reflexivity | exact Hnodup].
Defined.

(** ** The five-tuple key: when it is returned, how it reads, what it tells *)

Section FiveTupleMore.

Import FiveTuple.

Implicit Types (t : Tuple).

(** The canonical tuple is the tuple itself when the forward bit is true,
    and otherwise the tuple with its addresses swapped, and its ports too
    unless the protocol is an IP-control one. *)
Lemma canonical_cases t :
  canonical t = (t, true) \/
  canonical t =
    (if is_IP_control (t_proto t) then swap_addresses t else reverse_tuple t,
     false).
Proof.
  unfold canonical.
  destruct (lex_ltb (t_dstIP t) (t_srcIP t));
    [| destruct (bytes_eqb (t_srcIP t) (t_dstIP t));
       [destruct (lex_ltb (t_srcPort t) (t_dstPort t)) |]];
    try (left; reflexivity);
    right; destruct (is_IP_control (t_proto t)); reflexivity.
Qed.

Lemma canonical_proto t : t_proto (fst (canonical t)) = t_proto t.
Proof.
  destruct (canonical_cases t) as [-> | ->]; [reflexivity |].
  destruct (is_IP_control (t_proto t)); reflexivity.
Qed.

(** Canonicalizing twice changes nothing more. *)
Lemma canonical_idem t :
  fst (canonical (fst (canonical t))) = fst (canonical t) /\
  (is_IP_control (t_proto t) = false ->
   snd (canonical (fst (canonical t))) = true).
Proof.
  destruct t as [s d pr sp dp]. unfold canonical. simpl.
  destruct (lex_ltb d s) eqn:E1.
  - destruct (is_IP_control pr) eqn:Ec; simpl;
      rewrite (lex_ltb_asym _ _ E1),
              (bytes_eqb_neq d s (lex_ltb_diff _ _ E1));
      simpl; split; auto.
  - destruct (bytes_eqb s d) eqn:E2.
    + apply bytes_eqb_eq in E2. subst d.
      destruct (lex_ltb sp dp) eqn:E3.
      * destruct (is_IP_control pr) eqn:Ec; simpl;
          rewrite ?lex_ltb_irrefl, ?bytes_eqb_refl, ?E3, ?Ec,
                  ?(lex_ltb_asym _ _ E3);
          simpl; split; auto; discriminate.
      * simpl. rewrite ?lex_ltb_irrefl, ?bytes_eqb_refl, ?E3.
        simpl. split; auto.
    + simpl. rewrite E1, E2. simpl. split; auto.
Qed.

Lemma well_sized_parts (k : FlowKey) :
  well_sized k ->
  exists p,
    Proto k = Some p /\
    key_bytes k = SrcIP k ++ DstIP k ++ [p] ++ SrcPort k ++ DstPort k.
Proof.
  destruct k as [t | t]; simpl; intros Hlen.
  - do 14 (destruct t as [|? t]; try discriminate Hlen).
    eexists. split; reflexivity.
  - do 38 (destruct t as [|? t]; try discriminate Hlen).
    eexists. split; reflexivity.
Qed.

Lemma reverse_tuple_involutive t : reverse_tuple (reverse_tuple t) = t.
Proof. destruct t. reflexivity. Qed.

(** Between two different addresses and for an IP-control protocol, the
    reversed tuple has the same canonical addresses, the ports the other way
    round, and the opposite forward bit. *)
Lemma canonical_reverse_control t :
  is_IP_control (t_proto t) = true ->
  t_srcIP t <> t_dstIP t ->
  canonical (reverse_tuple t) =
    (swap_ports (fst (canonical t)), negb (snd (canonical t))).
Proof.
  destruct t as [s d pr sp dp]. simpl. intros Hctl Hne.
  unfold canonical, reverse_tuple. simpl. rewrite Hctl.
  destruct (lex_ltb d s) eqn:E1.
  - rewrite (lex_ltb_asym _ _ E1).
    rewrite (bytes_eqb_neq d s (lex_ltb_diff _ _ E1)). reflexivity.
  - rewrite (bytes_eqb_neq s d Hne).
    assert (E3 : lex_ltb s d = true).
    { destruct (lex_ltb s d) eqn:E; [reflexivity | exfalso].
      apply Hne. apply lex_ltb_total; assumption. }
    rewrite E3. reflexivity.
Qed.

Lemma canonical_not_control t :
  is_IP_control (t_proto t) = false ->
  fst (canonical t) = t \/ fst (canonical t) = reverse_tuple t.
Proof.
  intros Hctl. destruct (canonical_cases t) as [-> | ->]; [left; reflexivity |].
  rewrite Hctl. right. reflexivity.
Qed.

End FiveTupleMore.

(** X7. fivetuple returns a key exactly when the packet has a network and a
    transport layer and the canonical source address has 4 or 16 bytes; a
    packet without one of the layers is rejected; whenever no key is
    returned the forward bit is false; and a key returned holds an array of
    the length of its type. *)
Theorem fivetuple_returns_key_iff :
  forall packet : FiveTuple.Packet,
    ((exists k, fst (FiveTuple.fivetuple packet) = Some k) <->
     (exists network transport,
        FiveTuple.Network packet = Some network /\
        FiveTuple.Transport packet = Some transport /\
        (length (FiveTuple.t_srcIP
                   (fst (FiveTuple.canonical
                           (FiveTuple.raw_tuple network transport)))) = 4%nat \/
         length (FiveTuple.t_srcIP
                   (fst (FiveTuple.canonical
                           (FiveTuple.raw_tuple network transport)))) = 16%nat))) /\
    (FiveTuple.Network packet = None \/ FiveTuple.Transport packet = None ->
     FiveTuple.fivetuple packet = (None, false)) /\
    (fst (FiveTuple.fivetuple packet) = None ->
     snd (FiveTuple.fivetuple packet) = false) /\
    (forall k, fst (FiveTuple.fivetuple packet) = Some k ->
               FiveTuple.well_sized k).
Proof.
  intros packet.
  destruct (FiveTuple.Network packet) as [network|] eqn:Hn;
    [destruct (FiveTuple.Transport packet) as [transport|] eqn:Ht |].
  - pose proof (fivetuple_spec _ _ _ Hn Ht) as Hspec. cbv zeta in Hspec.
    set (c := fst (FiveTuple.canonical (FiveTuple.raw_tuple network transport))) in *.
    split; [| split; [| split]].
    + split.
      * intros [k Hk].
        destruct (FiveTuple.fivetuple packet) as [ok fwd] eqn:E.
        simpl in Hk. subst ok.
        destruct (fivetuple_produced _ _ _ _ _ Hn Ht E) as [_ Hc].
        exists network, transport. fold c in Hc.
        split; [reflexivity |]. split; [reflexivity |]. tauto.
      * intros (network' & transport' & Hn' & Ht' & Hlen).
        injection Hn' as <-. injection Ht' as <-. fold c in Hlen.
        rewrite Hspec. destruct Hlen as [-> | ->]; simpl; eauto.
    + intros [H | H]; discriminate.
    + rewrite Hspec.
      destruct (length (FiveTuple.t_srcIP c) =? 4)%nat; [discriminate |].
      destruct (length (FiveTuple.t_srcIP c) =? 16)%nat; [discriminate |].
      reflexivity.
    + intros k Hk.
      destruct (FiveTuple.fivetuple packet) as [ok fwd] eqn:E.
      simpl in Hk. subst ok.
      destruct (fivetuple_fields _ _ _ _ _ Hn Ht E)
        as (w & [-> | ->] & Hlen & Hkl & Hkb & _);
        destruct (fivetuple_produced _ _ _ _ _ Hn Ht E) as [_ [[Hl ->] | [Hl ->]]];
        simpl in *; try exact Hkl; fold c in Hl, Hlen; congruence.
  - assert (H : FiveTuple.fivetuple packet = (None, false)).
    { unfold FiveTuple.fivetuple. rewrite Hn, Ht. reflexivity. }
    rewrite H. simpl.
    split; [| split; [| split]]; try reflexivity; try discriminate.
    split; [intros [k Hk]; discriminate |].
    intros (network' & transport' & _ & Ht' & _). discriminate.
  - assert (H : FiveTuple.fivetuple packet = (None, false)).
    { unfold FiveTuple.fivetuple. rewrite Hn. reflexivity. }
    rewrite H. simpl.
    split; [| split; [| split]]; try reflexivity; try discriminate.
    split; [intros [k Hk]; discriminate |].
    intros (network' & transport' & Hn' & _). discriminate.
Qed.

Lemma fivetuple_returns_key_iff_witness :
  exists k, fst (FiveTuple.fivetuple FiveTuple.udp_9_to_1) = Some k /\
            FiveTuple.well_sized k.
Proof.
  destruct (fivetuple_returns_key_iff FiveTuple.udp_9_to_1)
    as (_ & _ & _ & Hsized).
  eexists. split; [vm_compute; reflexivity |].
  apply Hsized. vm_compute. reflexivity.
Defined.

(** X8. The accessors of a key take it apart without loss: for a key whose
    array has the length of its type, SrcIP, DstIP, Proto, SrcPort and
    DstPort put end to end give the key back, the two addresses having 4
    bytes each (16 for fiveTuple6) and the two ports 2 bytes each. *)
Theorem key_accessors_round_trip :
  forall k : FiveTuple.FlowKey,
    FiveTuple.well_sized k ->
    exists p,
      FiveTuple.Proto k = Some p /\
      FiveTuple.key_bytes k =
        FiveTuple.SrcIP k ++ FiveTuple.DstIP k ++ [p]
        ++ FiveTuple.SrcPort k ++ FiveTuple.DstPort k /\
      length (FiveTuple.SrcIP k) = length (FiveTuple.DstIP k) /\
      (length (FiveTuple.SrcIP k) = 4%nat \/
       length (FiveTuple.SrcIP k) = 16%nat) /\
      length (FiveTuple.SrcPort k) = 2%nat /\
      length (FiveTuple.DstPort k) = 2%nat.
Proof.
  intros k Hk. destruct (well_sized_parts k Hk) as (p & Hp & Hbytes).
  exists p. split; [exact Hp |]. split; [exact Hbytes |].
  destruct k as [t | t]; simpl in Hk |- *; unfold FiveTuple.slice;
    rewrite !length_take, !length_drop, Hk; simpl; auto.
Qed.

Lemma key_accessors_round_trip_witness :
  exists k p,
    fst (FiveTuple.fivetuple FiveTuple.udp_9_to_1) = Some k /\
    FiveTuple.Proto k = Some p /\
    FiveTuple.key_bytes k =
      FiveTuple.SrcIP k ++ FiveTuple.DstIP k ++ [p]
      ++ FiveTuple.SrcPort k ++ FiveTuple.DstPort k.
Proof.
  eexists.
  destruct (key_accessors_round_trip
              (FiveTuple.fiveTuple4
                 [x01; x00; x00; x01; x09; x00; x00; x01; x11;
                  x07; xd0; x03; xe8]) eq_refl)
    as (p & Hp & Hbytes & _).
  exists p. split; [reflexivity |]. split; [exact Hp | exact Hbytes].
Defined.

(** X9. Keying is idempotent: a packet that carries the canonical tuple of
    another packet (what that packet's key holds) gets the same key, and,
    unless the transport is an IP-control one, is a forward packet. *)
Theorem fivetuple_of_canonical_packet :
  forall (packet packet' : FiveTuple.Packet)
         (network network' : FiveTuple.NetworkLayer)
         (transport transport' : FiveTuple.TransportLayer),
    FiveTuple.Network packet = Some network ->
    FiveTuple.Transport packet = Some transport ->
    FiveTuple.Network packet' = Some network' ->
    FiveTuple.Transport packet' = Some transport' ->
    FiveTuple.raw_tuple network' transport' =
      fst (FiveTuple.canonical (FiveTuple.raw_tuple network transport)) ->
    fst (FiveTuple.fivetuple packet') = fst (FiveTuple.fivetuple packet) /\
    (FiveTuple.is_IP_control (FiveTuple.LayerType_of transport) = false ->
     forall k, fst (FiveTuple.fivetuple packet) = Some k ->
               snd (FiveTuple.fivetuple packet') = true).
Proof.
  intros packet packet' network network' transport transport'
         Hn Ht Hn' Ht' Hraw.
  pose proof (fivetuple_spec _ _ _ Hn Ht) as Hp.
  pose proof (fivetuple_spec _ _ _ Hn' Ht') as Hp'.
  cbv zeta in Hp, Hp'. rewrite Hraw in Hp'.
  set (t := FiveTuple.raw_tuple network transport) in *.
  destruct (canonical_idem t) as [Hidem Hfwd].
  rewrite Hidem in Hp'. rewrite Hp, Hp'.
  destruct (length (FiveTuple.t_srcIP (fst (FiveTuple.canonical t))) =? 4)%nat;
    [| destruct (length (FiveTuple.t_srcIP (fst (FiveTuple.canonical t))) =? 16)%nat];
    simpl; (split; [reflexivity |]); intros Hctl k Hk;
    try (apply Hfwd; exact Hctl); discriminate.
Qed.

Lemma fivetuple_of_canonical_packet_witness :
  fst (FiveTuple.fivetuple FiveTuple.udp_1_to_9) =
  fst (FiveTuple.fivetuple FiveTuple.udp_9_to_1) /\
  snd (FiveTuple.fivetuple FiveTuple.udp_1_to_9) = true.
Proof.
  destruct (fivetuple_of_canonical_packet FiveTuple.udp_9_to_1
              FiveTuple.udp_1_to_9 _ _ _ _ eq_refl eq_refl eq_refl eq_refl
              eq_refl) as [Hkey Hfwd].
  split; [exact Hkey | exact (Hfwd eq_refl _ eq_refl)].
Defined.

(** X10. The forward bit tells how the key reads against the packet: when
    it is true the key holds the packet's source as source and its
    destination as destination; when it is false the key holds the packet's
    destination address as source address and the reverse, and the ports
    are exchanged as well unless the transport is an IP-control one, which
    keeps them in the packet's order. *)
Theorem forward_bit_reads_key :
  forall (packet : FiveTuple.Packet) (network : FiveTuple.NetworkLayer)
         (transport : FiveTuple.TransportLayer)
         (k : FiveTuple.FlowKey) (fwd : bool),
    FiveTuple.Network packet = Some network ->
    FiveTuple.Transport packet = Some transport ->
    FiveTuple.fivetuple packet = (Some k, fwd) ->
    let t := FiveTuple.raw_tuple network transport in
    let w := length (FiveTuple.SrcIP k) in
    (fwd = true ->
       FiveTuple.SrcIP k = FiveTuple.t_srcIP t /\
       FiveTuple.DstIP k = FiveTuple.field w (FiveTuple.t_dstIP t) /\
       FiveTuple.SrcPort k = FiveTuple.field 2 (FiveTuple.t_srcPort t) /\
       FiveTuple.DstPort k = FiveTuple.field 2 (FiveTuple.t_dstPort t)) /\
    (fwd = false ->
       FiveTuple.SrcIP k = FiveTuple.t_dstIP t /\
       FiveTuple.DstIP k = FiveTuple.field w (FiveTuple.t_srcIP t) /\
       (FiveTuple.is_IP_control (FiveTuple.t_proto t) = false ->
          FiveTuple.SrcPort k = FiveTuple.field 2 (FiveTuple.t_dstPort t) /\
          FiveTuple.DstPort k = FiveTuple.field 2 (FiveTuple.t_srcPort t)) /\
       (FiveTuple.is_IP_control (FiveTuple.t_proto t) = true ->
          FiveTuple.SrcPort k = FiveTuple.field 2 (FiveTuple.t_srcPort t) /\
          FiveTuple.DstPort k = FiveTuple.field 2 (FiveTuple.t_dstPort t))).
Proof.
  intros packet network transport k fwd Hn Ht Hk t w.
  destruct (fivetuple_fields _ _ _ _ _ Hn Ht Hk)
    as (w' & _ & Hlen & _ & _ & Hs & Hd & _ & Hsp & Hdp).
  destruct (fivetuple_produced _ _ _ _ _ Hn Ht Hk) as [Hfwd _].
  fold t in Hlen, Hs, Hd, Hsp, Hdp, Hfwd.
  assert (Hw : w = w') by (subst w; rewrite Hs; exact Hlen).
  rewrite Hw. clear Hw w.
  destruct (canonical_cases t) as [Hc | Hc]; rewrite Hc in *;
    cbn [fst snd] in *.
  - split; [intros _ | intros ->; discriminate].
    split; [exact Hs |]. split; [exact Hd |]. split; [exact Hsp | exact Hdp].
  - split; [intros ->; discriminate | intros _].
    destruct (FiveTuple.is_IP_control (FiveTuple.t_proto t)) eqn:Ec;
      (split; [exact Hs |]); (split; [exact Hd |]);
      split; intros H; try discriminate H; exact (conj Hsp Hdp).
Qed.

Lemma forward_bit_reads_key_witness :
  exists k,
    FiveTuple.fivetuple FiveTuple.udp_9_to_1 = (Some k, false) /\
    FiveTuple.SrcIP k = [x01; x00; x00; x01] /\
    FiveTuple.SrcPort k = [x07; xd0].
Proof.
  eexists. split; [reflexivity |].
  destruct (forward_bit_reads_key FiveTuple.udp_9_to_1 _ _ _ false
              eq_refl eq_refl eq_refl) as [_ Hrev].
  destruct (Hrev eq_refl) as (Hs & _ & Hports & _).
  destruct (Hports eq_refl) as [Hsp _].
  split; [exact Hs | exact Hsp].
Defined.

(** X11. For an IP-control transport (ICMPv4, ICMPv6) and two different
    addresses, the two directions of an exchange get keys with the same
    addresses and protocol byte and opposite forward bits, but each key
    holds the ports in its own packet's order: the two keys are the same
    key only when the two port fields are equal. *)
Theorem control_reversed_keys_differ_by_ports :
  forall (p q : FiveTuple.Packet) (network : FiveTuple.NetworkLayer)
         (transport : FiveTuple.TransportLayer)
         (kp : FiveTuple.FlowKey) (fp : bool),
    FiveTuple.Network p = Some network ->
    FiveTuple.Transport p = Some transport ->
    FiveTuple.reversed p q ->
    FiveTuple.is_IP_control (FiveTuple.LayerType_of transport) = true ->
    FiveTuple.t_srcIP (FiveTuple.raw_tuple network transport) <>
    FiveTuple.t_dstIP (FiveTuple.raw_tuple network transport) ->
    FiveTuple.fivetuple p = (Some kp, fp) ->
    exists kq,
      FiveTuple.fivetuple q = (Some kq, negb fp) /\
      FiveTuple.SrcIP kq = FiveTuple.SrcIP kp /\
      FiveTuple.DstIP kq = FiveTuple.DstIP kp /\
      FiveTuple.Proto kq = FiveTuple.Proto kp /\
      FiveTuple.SrcPort kq = FiveTuple.DstPort kp /\
      FiveTuple.DstPort kq = FiveTuple.SrcPort kp /\
      (kq = kp <-> FiveTuple.SrcPort kp = FiveTuple.DstPort kp).
Proof.
  intros p q network transport kp fp Hn Ht Hrev Hctl Hne Hkp.
  destruct Hrev as (network' & transport' & Hn' & Ht' & Hqn & Hqt).
  rewrite Hn in Hn'. injection Hn' as <-.
  rewrite Ht in Ht'. injection Ht' as <-.
  set (t := FiveTuple.raw_tuple network transport) in *.
  pose proof (fivetuple_spec _ _ _ Hqn Hqt) as Hq. cbv zeta in Hq.
  change (FiveTuple.raw_tuple _ _) with (FiveTuple.reverse_tuple t) in Hq.
  rewrite (canonical_reverse_control t Hctl Hne) in Hq. cbn [fst snd] in Hq.
  destruct (fivetuple_produced _ _ _ _ _ Hn Ht Hkp) as [Hfp Hcases].
  fold t in Hfp, Hcases. rewrite <- Hfp in Hq.
  set (c := fst (FiveTuple.canonical t)) in *.
  change (FiveTuple.t_srcIP (FiveTuple.swap_ports c))
    with (FiveTuple.t_srcIP c) in Hq.
  assert (Hparts : forall w,
    let kq := FiveTuple.encode w (FiveTuple.swap_ports c) in
    let kp := FiveTuple.encode w c in
    FiveTuple.slice 0 w kq = FiveTuple.slice 0 w kp /\
    FiveTuple.slice w (w + w) kq = FiveTuple.slice w (w + w) kp /\
    kq !! (w + w)%nat = kp !! (w + w)%nat /\
    FiveTuple.slice (w + w + 1) (w + w + 3) kq =
      FiveTuple.slice (w + w + 3) (w + w + 5) kp /\
    FiveTuple.slice (w + w + 3) (w + w + 5) kq =
      FiveTuple.slice (w + w + 1) (w + w + 3) kp /\
    (kq = kp <->
     FiveTuple.slice (w + w + 1) (w + w + 3) kp =
     FiveTuple.slice (w + w + 3) (w + w + 5) kp)).
  { intros w kq kp'.
    destruct (encode_fields w c) as (A1 & A2 & A3 & A4 & A5 & _).
    destruct (encode_fields w (FiveTuple.swap_ports c))
      as (B1 & B2 & B3 & B4 & B5 & _).
    subst kq kp'. rewrite A1, A2, A3, A4, A5, B1, B2, B3, B4, B5.
    repeat (split; [reflexivity |]).
    unfold FiveTuple.encode. simpl. split.
    - intros H. apply app_inv_head in H. apply app_inv_head in H.
      injection H as H. apply app_inj_1 in H as [H _];
        [symmetry; exact H | rewrite !length_field; reflexivity].
    - intros H. rewrite H. reflexivity. }
  destruct Hcases as [[Hlen ->] | [Hlen ->]]; rewrite Hlen in Hq; simpl in Hq.
  - exists (FiveTuple.fiveTuple4 (FiveTuple.encode 4 (FiveTuple.swap_ports c))).
    destruct (Hparts 4%nat) as (P1 & P2 & P3 & P4 & P5 & P6).
    split; [exact Hq |]. split; [exact P1 |]. split; [exact P2 |].
    split; [exact P3 |]. split; [exact P4 |]. split; [exact P5 |].
    split.
    + intros H. injection H as H. apply P6. exact H.
    + intros H. f_equal. apply P6. exact H.
  - exists (FiveTuple.fiveTuple6 (FiveTuple.encode 16 (FiveTuple.swap_ports c))).
    destruct (Hparts 16%nat) as (P1 & P2 & P3 & P4 & P5 & P6).
    split; [exact Hq |]. split; [exact P1 |]. split; [exact P2 |].
    split; [exact P3 |]. split; [exact P4 |]. split; [exact P5 |].
    split.
    + intros H. injection H as H. apply P6. exact H.
    + intros H. f_equal. apply P6. exact H.
Qed.

Lemma control_reversed_keys_differ_by_ports_witness :
  exists kp kq,
    FiveTuple.fivetuple FiveTuple.icmp_9_to_1 = (Some kp, false) /\
    FiveTuple.fivetuple FiveTuple.icmp_1_to_9 = (Some kq, true) /\
    FiveTuple.SrcIP kq = FiveTuple.SrcIP kp /\
    FiveTuple.SrcPort kq = FiveTuple.DstPort kp /\
    kq <> kp.
Proof.
  assert (Hrev : FiveTuple.reversed FiveTuple.icmp_9_to_1 FiveTuple.icmp_1_to_9).
  { eexists. eexists. repeat split; reflexivity. }
  eexists.
  destruct (control_reversed_keys_differ_by_ports FiveTuple.icmp_9_to_1
              FiveTuple.icmp_1_to_9 _ _ _ false eq_refl eq_refl Hrev eq_refl
              ltac:(simpl; discriminate) eq_refl)
    as (kq & Hq & Hs & _ & _ & Hsp & _ & Hsame).
  exists kq. split; [reflexivity |]. split; [exact Hq |].
  split; [exact Hs |]. split; [exact Hsp |].
  intros H. apply Hsame in H. vm_compute in H. discriminate.
Defined.

(** X12. Packets that get the same key belong to the same bidirectional
    flow: for TCP and UDP packets with addresses of one length and ports of
    two bytes, if fivetuple returns the same key for two packets then their
    5-tuples are equal or exact reverses of each other. *)
Theorem same_key_same_flow :
  forall (p1 p2 : FiveTuple.Packet)
         (n1 n2 : FiveTuple.NetworkLayer) (tr1 tr2 : FiveTuple.TransportLayer)
         (k : FiveTuple.FlowKey) (f1 f2 : bool),
    FiveTuple.Network p1 = Some n1 -> FiveTuple.Transport p1 = Some tr1 ->
    FiveTuple.Network p2 = Some n2 -> FiveTuple.Transport p2 = Some tr2 ->
    let t1 := FiveTuple.raw_tuple n1 tr1 in
    let t2 := FiveTuple.raw_tuple n2 tr2 in
    (FiveTuple.t_proto t1 = LayerTypeTCP \/ FiveTuple.t_proto t1 = LayerTypeUDP) ->
    (FiveTuple.t_proto t2 = LayerTypeTCP \/ FiveTuple.t_proto t2 = LayerTypeUDP) ->
    length (FiveTuple.t_dstIP t1) = length (FiveTuple.t_srcIP t1) ->
    length (FiveTuple.t_dstIP t2) = length (FiveTuple.t_srcIP t2) ->
    length (FiveTuple.t_srcPort t1) = 2%nat ->
    length (FiveTuple.t_dstPort t1) = 2%nat ->
    length (FiveTuple.t_srcPort t2) = 2%nat ->
    length (FiveTuple.t_dstPort t2) = 2%nat ->
    FiveTuple.fivetuple p1 = (Some k, f1) ->
    FiveTuple.fivetuple p2 = (Some k, f2) ->
    t2 = t1 \/ t2 = FiveTuple.reverse_tuple t1.
Proof.
  intros p1 p2 n1 n2 tr1 tr2 k f1 f2 Hn1 Ht1 Hn2 Ht2 t1 t2
         Hp1 Hp2 Hl1 Hl2 Hs1 Hd1 Hs2 Hd2 Hk1 Hk2.
  destruct (fivetuple_fields _ _ _ _ _ Hn1 Ht1 Hk1)
    as (w1 & _ & Hlen1 & _ & _ & A1 & A2 & A3 & A4 & A5).
  destruct (fivetuple_fields _ _ _ _ _ Hn2 Ht2 Hk2)
    as (w2 & _ & Hlen2 & _ & _ & B1 & B2 & B3 & B4 & B5).
  fold t1 in Hlen1, A1, A2, A4, A5. fold t2 in Hlen2, B1, B2, B4, B5.
  assert (Hc1 : FiveTuple.is_IP_control (FiveTuple.t_proto t1) = false)
    by (destruct Hp1 as [-> | ->]; reflexivity).
  assert (Hc2 : FiveTuple.is_IP_control (FiveTuple.t_proto t2) = false)
    by (destruct Hp2 as [-> | ->]; reflexivity).
  set (c1 := fst (FiveTuple.canonical t1)) in *.
  set (c2 := fst (FiveTuple.canonical t2)) in *.
  assert (Hprop : forall t c,
            c = t \/ c = FiveTuple.reverse_tuple t ->
            length (FiveTuple.t_dstIP t) = length (FiveTuple.t_srcIP t) ->
            length (FiveTuple.t_srcPort t) = 2%nat ->
            length (FiveTuple.t_dstPort t) = 2%nat ->
            length (FiveTuple.t_dstIP c) = length (FiveTuple.t_srcIP c) /\
            length (FiveTuple.t_srcPort c) = 2%nat /\
            length (FiveTuple.t_dstPort c) = 2%nat /\
            FiveTuple.t_proto c = FiveTuple.t_proto t).
  { intros t c [-> | ->] H1 H2 H3; simpl; auto. }
  destruct (Hprop t1 c1 (canonical_not_control t1 Hc1) Hl1 Hs1 Hd1)
    as (L1 & L2 & L3 & L4).
  destruct (Hprop t2 c2 (canonical_not_control t2 Hc2) Hl2 Hs2 Hd2)
    as (M1 & M2 & M3 & M4).
  assert (Hw : w1 = w2).
  { rewrite <- Hlen1, <- Hlen2, <- A1, <- B1. reflexivity. }
  subst w2.
  rewrite field_exact in A2 by congruence.
  rewrite field_exact in B2 by congruence.
  rewrite field_exact in A4, A5, B4, B5 by assumption.
  assert (Hproto : FiveTuple.t_proto t1 = FiveTuple.t_proto t2).
  { rewrite A3 in B3. injection B3 as B3.
    change (FiveTuple.LayerType_of tr1) with (FiveTuple.t_proto t1) in B3.
    change (FiveTuple.LayerType_of tr2) with (FiveTuple.t_proto t2) in B3.
    destruct Hp1 as [E1 | E1], Hp2 as [E2 | E2]; rewrite E1, E2 in *;
      try reflexivity; discriminate B3. }
  assert (Hc : c1 = c2).
  { destruct c1 as [a1 b1 pr1 x1 y1], c2 as [a2 b2 pr2 x2 y2].
    simpl in *. congruence. }
  destruct (canonical_not_control t1 Hc1) as [E1 | E1],
           (canonical_not_control t2 Hc2) as [E2 | E2];
    fold c1 in E1; fold c2 in E2.
  - left. congruence.
  - right. rewrite <- E1, Hc, E2. symmetry. apply reverse_tuple_involutive.
  - right. congruence.
  - left. rewrite <- (reverse_tuple_involutive t2), <- E2, <- Hc, E1.
    apply reverse_tuple_involutive.
Qed.

Lemma same_key_same_flow_witness :
  FiveTuple.raw_tuple
    {| FiveTuple.NetworkFlow :=
         {| FiveTuple.ftyp := 1; FiveTuple.fsrc := [x01; x00; x00; x01];
            FiveTuple.fdst := [x09; x00; x00; x01] |} |}
    {| FiveTuple.LayerType_of := LayerTypeUDP;
       FiveTuple.TransportFlow :=
         {| FiveTuple.ftyp := 5; FiveTuple.fsrc := [x07; xd0];
            FiveTuple.fdst := [x03; xe8] |} |} =
  FiveTuple.reverse_tuple
    (FiveTuple.raw_tuple
       {| FiveTuple.NetworkFlow :=
            {| FiveTuple.ftyp := 1; FiveTuple.fsrc := [x09; x00; x00; x01];
               FiveTuple.fdst := [x01; x00; x00; x01] |} |}
       {| FiveTuple.LayerType_of := LayerTypeUDP;
          FiveTuple.TransportFlow :=
            {| FiveTuple.ftyp := 5; FiveTuple.fsrc := [x03; xe8];
               FiveTuple.fdst := [x07; xd0] |} |}).
Proof.
  destruct (same_key_same_flow FiveTuple.udp_9_to_1 FiveTuple.udp_1_to_9
              _ _ _ _ _ false true eq_refl eq_refl eq_refl eq_refl
              (or_intror eq_refl) (or_intror eq_refl)
              eq_refl eq_refl eq_refl eq_refl eq_refl eq_refl
              eq_refl eq_refl) as [H | H].
  - discriminate H.
  - exact H.
Defined.

(** ** The TCP flow over sequences of events *)

Section TcpFlowMore.

Import TcpFlow.

Lemma Event_inactive (event : Buffer) (context : EventContext) (flow : tcpFlow) :
  Active flow = false -> Event event context flow = Ok flow.
Proof.
  destruct flow as [[act feats exps] sf df da sa]. unfold Active. simpl.
  intros ->. reflexivity.
Qed.

Lemma Events_inactive (evs : list (Buffer * EventContext)) (flow : tcpFlow) :
  Active flow = false -> Events evs flow = Ok flow.
Proof.
  intros H. induction evs as [|[event context] evs IH]; simpl.
  - reflexivity.
  - rewrite (Event_inactive _ _ _ H). exact IH.
Qed.

(** One TCP segment on an active flow. *)
Lemma Event_active_step (flow : tcpFlow) (tcp : TCP) (context : EventContext) :
  Active flow = true ->
  exists flow',
    Event {| TransportLayer := LayerTCP tcp |} context flow = Ok flow' /\
    (srcFIN flow = true -> srcFIN flow' = true) /\
    (dstFIN flow = true -> dstFIN flow' = true) /\
    (srcACK flow = true -> srcACK flow' = true) /\
    (dstACK flow = true -> dstACK flow' = true) /\
    (acks_follow_fins flow -> acks_follow_fins flow') /\
    ((Active flow' = true /\
      exported (base flow') = exported (base flow)) \/
     (Active flow' = false /\
      exported (base flow') =
        exported (base flow) ++ [(FlowEndReasonEnd, When context)])) /\
    (RST tcp = false ->
     forall d, FIN_of d flow = false ->
               (Forward context = d -> FIN tcp = false) ->
               FIN_of d flow' = false /\ Active flow' = true /\
               exported (base flow') = exported (base flow)).
Proof.
  destruct flow as [[act feats exps] sf df da sa].
  destruct tcp as [fin syn rst psh ack urg], context as [when fwd].
  unfold Active. simpl. intros ->.
  destruct rst, fwd, fin, ack, sf, df, da, sa;
    (eexists; split; [vm_compute; reflexivity |];
     unfold acks_follow_fins; cbn;
     split; [auto |]; split; [auto |]; split; [auto |]; split; [auto |];
     split; [tauto |]; split; [auto |];
     intros Hrst; try discriminate Hrst;
     intros [|] Hd Hfin; cbn in *;
     try discriminate Hd; try (specialize (Hfin eq_refl); discriminate Hfin);
     auto).
Qed.

End TcpFlowMore.

(** X13. A TCP flow that is no longer active ignores every event: Event
    returns before looking at the packet, so the flow is unchanged whatever
    the packet holds; an active flow given a packet whose transport layer is
    not a TCP layer panics on the type assertion. *)
Theorem tcpFlow_Event_inactive_or_not_tcp :
  forall (flow : TcpFlow.tcpFlow) (event : TcpFlow.Buffer)
         (context : EventContext),
    (TcpFlow.Active flow = false ->
       TcpFlow.Event event context flow = Ok flow) /\
    (TcpFlow.Active flow = true ->
     (forall tcp, TcpFlow.TransportLayer event <> TcpFlow.LayerTCP tcp) ->
       TcpFlow.Event event context flow = Panicked InterfaceConversion).
Proof.
  intros flow event context. split.
  - apply Event_inactive.
  - destruct flow as [[act feats exps] sf df da sa], event as [l].
    unfold TcpFlow.Active. simpl. intros -> Hl.
    destruct l as [| tcp | t]; try reflexivity.
    exfalso. apply (Hl tcp). reflexivity.
Qed.

Lemma tcpFlow_Event_inactive_or_not_tcp_witness :
  TcpFlow.Event (TcpFlow.segment true true) {| When := 50; Forward := true |}
    TcpFlow.torn_down = Ok TcpFlow.torn_down /\
  TcpFlow.Event {| TcpFlow.TransportLayer := TcpFlow.LayerOther LayerTypeUDP |}
    {| When := 50; Forward := true |} TcpFlow.newTcpFlow
    = Panicked InterfaceConversion.
Proof.
  split.
  - destruct (tcpFlow_Event_inactive_or_not_tcp TcpFlow.torn_down
                (TcpFlow.segment true true) {| When := 50; Forward := true |})
      as [H _].
    apply H. reflexivity.
  - destruct (tcpFlow_Event_inactive_or_not_tcp TcpFlow.newTcpFlow
                {| TcpFlow.TransportLayer := TcpFlow.LayerOther LayerTypeUDP |}
                {| When := 50; Forward := true |})
      as [_ H].
    apply H; [reflexivity | intros tcp; discriminate].
Defined.

(** X14. Over any sequence of events that does not panic, a TCP flow
    exports at most once, with reason end and the time of one of the events,
    and is inactive from then on; a flow that is still active at the end has
    exported nothing, and a flow inactive at the start is left untouched. *)
Theorem tcpFlow_exports_at_most_once :
  forall (evs : list (TcpFlow.Buffer * EventContext))
         (flow flow' : TcpFlow.tcpFlow),
    TcpFlow.Events evs flow = Ok flow' ->
    (TcpFlow.Active flow = false -> flow' = flow) /\
    (TcpFlow.Active flow = true ->
       (TcpFlow.Active flow' = true /\
        TcpFlow.exported (TcpFlow.base flow') =
          TcpFlow.exported (TcpFlow.base flow))
       \/
       (TcpFlow.Active flow' = false /\
        exists ev, In ev evs /\
          TcpFlow.exported (TcpFlow.base flow') =
            TcpFlow.exported (TcpFlow.base flow)
            ++ [(TcpFlow.FlowEndReasonEnd, When (snd ev))])).
Proof.
  intros evs. induction evs as [|[event context] evs IH]; intros flow flow' Hrun.
  - simpl in Hrun. injection Hrun as <-. split; [reflexivity |].
    intros Hact. left. split; [exact Hact | reflexivity].
  - split.
    + intros Hact. rewrite (Events_inactive _ _ Hact) in Hrun.
      injection Hrun as <-. reflexivity.
    + intros Hact. simpl in Hrun.
      destruct event as [l]. destruct l as [| tcp | t].
      * destruct flow as [[act feats exps] sf df da sa].
        unfold TcpFlow.Active in Hact. simpl in Hact. subst act.
        discriminate Hrun.
      * destruct (Event_active_step flow tcp context Hact)
          as (f1 & Hstep & _ & _ & _ & _ & _ & Hexp & _).
        rewrite Hstep in Hrun. cbn [mbind Result_bind] in Hrun.
        destruct (IH f1 flow' Hrun) as [Hin Hac].
        destruct Hexp as [[Hact1 Hsame] | [Hact1 Hexp]].
        -- destruct (Hac Hact1) as [[Ha He] | [Ha (ev & Hev & He)]].
           ++ left. split; [exact Ha | congruence].
           ++ right. split; [exact Ha |]. exists ev.
              split; [right; exact Hev | congruence].
        -- right. rewrite (Hin Hact1). split; [exact Hact1 |].
           exists ({| TcpFlow.TransportLayer := TcpFlow.LayerTCP tcp |}, context).
           split; [left; reflexivity | exact Hexp].
      * destruct flow as [[act feats exps] sf df da sa].
        unfold TcpFlow.Active in Hact. simpl in Hact. subst act.
        discriminate Hrun.
Qed.

Lemma tcpFlow_exports_at_most_once_witness :
  TcpFlow.Events (TcpFlow.teardown ++ TcpFlow.teardown) TcpFlow.newTcpFlow
    = Ok TcpFlow.torn_down /\
  length (TcpFlow.exported (TcpFlow.base TcpFlow.torn_down)) = 1%nat.
Proof.
  assert (Hrun : TcpFlow.Events (TcpFlow.teardown ++ TcpFlow.teardown)
                   TcpFlow.newTcpFlow = Ok TcpFlow.torn_down)
    by (vm_compute; reflexivity).
  split; [exact Hrun |].
  destruct (tcpFlow_exports_at_most_once
              (TcpFlow.teardown ++ TcpFlow.teardown) TcpFlow.newTcpFlow
              TcpFlow.torn_down Hrun) as [_ H].
  destruct (H eq_refl) as [[Ha _] | [_ (ev & _ & He)]].
  - discriminate Ha.
  - rewrite He. reflexivity.
Defined.

(** X15. Event never clears a teardown bit, and it records an
    acknowledgement only for a FIN that is recorded: over any sequence of
    events, a bit that is set stays set, and if srcACK implies srcFIN and
    dstACK implies dstFIN before, they do so afterwards (as they do on a new
    flow). *)
Theorem tcpFlow_bits_monotone_acks_follow_fins :
  forall (evs : list (TcpFlow.Buffer * EventContext))
         (flow flow' : TcpFlow.tcpFlow),
    TcpFlow.Events evs flow = Ok flow' ->
    (TcpFlow.srcFIN flow = true -> TcpFlow.srcFIN flow' = true) /\
    (TcpFlow.dstFIN flow = true -> TcpFlow.dstFIN flow' = true) /\
    (TcpFlow.srcACK flow = true -> TcpFlow.srcACK flow' = true) /\
    (TcpFlow.dstACK flow = true -> TcpFlow.dstACK flow' = true) /\
    (TcpFlow.acks_follow_fins flow -> TcpFlow.acks_follow_fins flow').
Proof.
  intros evs. induction evs as [|[event context] evs IH]; intros flow flow' Hrun.
  - simpl in Hrun. injection Hrun as <-. tauto.
  - destruct (TcpFlow.Active flow) eqn:Hact.
    + simpl in Hrun. destruct event as [l]. destruct l as [| tcp | t].
      * destruct flow as [[act feats exps] sf df da sa].
        unfold TcpFlow.Active in Hact. simpl in Hact. subst act.
        discriminate Hrun.
      * destruct (Event_active_step flow tcp context Hact)
          as (f1 & Hstep & M1 & M2 & M3 & M4 & Hinv & _).
        rewrite Hstep in Hrun. cbn [mbind Result_bind] in Hrun.
        destruct (IH f1 flow' Hrun) as (N1 & N2 & N3 & N4 & Ninv).
        repeat split; auto.
        -- apply Ninv, Hinv; assumption.
        -- apply Ninv, Hinv; assumption.
      * destruct flow as [[act feats exps] sf df da sa].
        unfold TcpFlow.Active in Hact. simpl in Hact. subst act.
        discriminate Hrun.
    + rewrite (Events_inactive _ _ Hact) in Hrun. injection Hrun as <-. tauto.
Qed.

Lemma tcpFlow_bits_monotone_acks_follow_fins_witness :
  TcpFlow.Events TcpFlow.teardown TcpFlow.newTcpFlow = Ok TcpFlow.torn_down /\
  TcpFlow.acks_follow_fins TcpFlow.torn_down.
Proof.
  assert (Hrun : TcpFlow.Events TcpFlow.teardown TcpFlow.newTcpFlow
                 = Ok TcpFlow.torn_down) by (vm_compute; reflexivity).
  split; [exact Hrun |].
  destruct (tcpFlow_bits_monotone_acks_follow_fins TcpFlow.teardown
              TcpFlow.newTcpFlow TcpFlow.torn_down Hrun)
    as (_ & _ & _ & _ & Hinv).
  apply Hinv. split; intros H; discriminate H.
Defined.

(** X16. Without RST a TCP flow is not exported before both sides have sent
    a FIN: if the FIN of one direction is not recorded and, in a sequence of
    TCP segments without RST, no packet of that direction carries a FIN,
    then the flow is still active at the end and has exported nothing. *)
Theorem tcpFlow_no_export_without_both_FINs :
  forall (d : bool) (evs : list (TcpFlow.Buffer * EventContext))
         (flow : TcpFlow.tcpFlow),
    TcpFlow.Active flow = true ->
    TcpFlow.FIN_of d flow = false ->
    Forall TcpFlow.tcp_no_RST evs ->
    Forall (TcpFlow.no_FIN_from d) evs ->
    exists flow',
      TcpFlow.Events evs flow = Ok flow' /\
      TcpFlow.Active flow' = true /\
      TcpFlow.FIN_of d flow' = false /\
      TcpFlow.exported (TcpFlow.base flow') =
        TcpFlow.exported (TcpFlow.base flow).
Proof.
  intros d evs. induction evs as [|[event context] evs IH];
    intros flow Hact Hfin Htcp Hno.
  - exists flow. simpl. auto.
  - apply Forall_cons in Htcp as [(tcp & Hl & Hrst) Htcp].
    apply Forall_cons in Hno as [Hno1 Hno].
    destruct event as [l]. simpl in Hl. subst l.
    destruct (Event_active_step flow tcp context Hact)
      as (f1 & Hstep & _ & _ & _ & _ & _ & _ & Hkeep).
    destruct (Hkeep Hrst d Hfin (Hno1 tcp eq_refl)) as (Hfin1 & Hact1 & Hexp1).
    destruct (IH f1 Hact1 Hfin1 Htcp Hno) as (f' & Hrun & Ha & Hf & He).
    exists f'. simpl. rewrite Hstep. cbn [mbind Result_bind].
    split; [exact Hrun |]. split; [exact Ha |]. split; [exact Hf | congruence].
Qed.

Lemma tcpFlow_no_export_without_both_FINs_witness :
  exists f,
    TcpFlow.Events
      [ (TcpFlow.segment true false, {| When := 10; Forward := true |});
        (TcpFlow.segment false true, {| When := 20; Forward := false |});
        (TcpFlow.segment false true, {| When := 30; Forward := true |}) ]
      TcpFlow.newTcpFlow = Ok f /\
    TcpFlow.Active f = true.
Proof.
  destruct (tcpFlow_no_export_without_both_FINs false
      [ (TcpFlow.segment true false, {| When := 10; Forward := true |});
        (TcpFlow.segment false true, {| When := 20; Forward := false |});
        (TcpFlow.segment false true, {| When := 30; Forward := true |}) ]
      TcpFlow.newTcpFlow eq_refl eq_refl)
    as (f & Hrun & Hact & _).
  - repeat constructor; eexists; split; reflexivity.
  - repeat constructor; intros tcp Htcp Hfwd; simpl in *;
      try discriminate Hfwd; injection Htcp as <-; reflexivity.
  - exists f. split; [exact Hrun | exact Hact].
Defined.




(** ** The buffer pool: replenish and release *)

Section PoolMore.

Import MultiBuffer.

Implicit Types (bs nl : list ptr) (b : ptr).



Lemma unused_kept (A : Z) bs : forall f,
  0 <= f <= A ->
  Z.of_nat (unused (kept A f bs)) =
  Z.of_nat (unused bs) - (Z.min A (f + Z.of_nat (unused bs)) - f).
Proof.
  induction bs as [|b bs IH]; intros f Hf; simpl.
  - lia.
  - destruct (is_unused b) eqn:Eb; simpl.
    + destruct (Z.eqb_spec f A) as [-> | Hne]; simpl.
      * rewrite Eb. rewrite !Nat2Z.inj_succ, IH by lia. lia.
      * rewrite IH by lia. lia.
    + rewrite Eb. rewrite IH by lia. lia.
Qed.





End PoolMore.



(** X19. On a pool without nil buffers, with allocSize within the range of
    int32 and at least allocSize buffers unused, release succeeds: it drops
    exactly allocSize buffers, all of them unused, keeps every buffer in use
    and the order of what it keeps, and lowers numFree by allocSize; if
    numFree counted the unused buffers before, it counts them afterwards. *)
Theorem release_drops_allocSize_unused :
  forall mpb : MultiBuffer.multiPacketBuffer,
    Forall (fun b => b <> None) (MultiBuffer.buffers mpb) ->
    0 <= MultiBuffer.allocSize mpb < 2 ^ 31 ->
    MultiBuffer.allocSize mpb <=
      Z.of_nat (MultiBuffer.unused (MultiBuffer.buffers mpb)) ->
    exists mpb',
      MultiBuffer.release mpb = Ok mpb' /\
      sublist (MultiBuffer.buffers mpb') (MultiBuffer.buffers mpb) /\
      len (MultiBuffer.buffers mpb') =
        len (MultiBuffer.buffers mpb) - MultiBuffer.allocSize mpb /\
      (forall b, In b (MultiBuffer.buffers mpb) ->
                 MultiBuffer.is_unused b = false ->
                 In b (MultiBuffer.buffers mpb')) /\
      Z.of_nat (MultiBuffer.unused (MultiBuffer.buffers mpb')) =
        Z.of_nat (MultiBuffer.unused (MultiBuffer.buffers mpb))
        - MultiBuffer.allocSize mpb /\
      MultiBuffer.numFree mpb' =
        wrap32 (MultiBuffer.numFree mpb + wrap32 (- MultiBuffer.allocSize mpb)) /\
      (MultiBuffer.numFree mpb =
         Z.of_nat (MultiBuffer.unused (MultiBuffer.buffers mpb)) ->
       MultiBuffer.numFree mpb < 2 ^ 31 ->
       MultiBuffer.numFree mpb' =
         Z.of_nat (MultiBuffer.unused (MultiBuffer.buffers mpb'))).
Proof.
  intros mpb Hnil HA Hu.
  pose proof (unused_bound (MultiBuffer.buffers mpb)) as Hb.
  rewrite (release_spec mpb Hnil HA) by (unfold len; lia).
  destruct (Z.leb_spec (MultiBuffer.allocSize mpb)
              (Z.of_nat (MultiBuffer.unused (MultiBuffer.buffers mpb))))
    as [_ | H]; [| lia].
  eexists. split; [reflexivity |]. simpl.
  pose proof (kept_length (MultiBuffer.allocSize mpb)
                (MultiBuffer.buffers mpb) 0 ltac:(lia)) as Hk.
  pose proof (unused_kept (MultiBuffer.allocSize mpb)
                (MultiBuffer.buffers mpb) 0 ltac:(lia)) as Huk.
  split; [apply kept_sublist |]. split; [lia |].
  split; [intros b Hin Hbu; apply kept_in_use; assumption |].
  split; [lia |]. split; [reflexivity |].
  intros Hinv Hrange. rewrite Huk.
  rewrite (wrap32_small (- MultiBuffer.allocSize mpb)) by lia.
  rewrite wrap32_small by lia. lia.
Qed.

Lemma release_drops_allocSize_unused_witness :
  exists mpb',
    MultiBuffer.release MultiBuffer.pool_three_free = Ok mpb' /\
    len (MultiBuffer.buffers mpb') = 2 /\
    MultiBuffer.numFree mpb' = 1.
Proof.
  destruct (release_drops_allocSize_unused MultiBuffer.pool_three_free
              ltac:(repeat constructor; discriminate)
              ltac:(vm_compute; split; [discriminate | reflexivity])
              ltac:(vm_compute; discriminate))
    as (mpb' & Hrun & _ & Hlen & _ & _ & Hnf & _).
  exists mpb'. split; [exact Hrun |]. split; [exact Hlen | exact Hnf].
Defined.

(** X20. When it cannot drop allocSize unused buffers release panics:
    with more than len(buffers) asked for,
    the new list cannot be made (negative length); with fewer than allocSize
    buffers unused, a buffer to keep is stored at index len - allocSize of
    the new list, one past its end. *)
Theorem release_panics_otherwise :
  forall mpb : MultiBuffer.multiPacketBuffer,
    (len (MultiBuffer.buffers mpb) < MultiBuffer.allocSize mpb ->
       MultiBuffer.release mpb =
         Panicked (MakeSliceLenOutOfRange
                     (len (MultiBuffer.buffers mpb) - MultiBuffer.allocSize mpb))) /\
    (Forall (fun b => b <> None) (MultiBuffer.buffers mpb) ->
     0 <= MultiBuffer.allocSize mpb < 2 ^ 31 ->
     MultiBuffer.allocSize mpb <= len (MultiBuffer.buffers mpb) ->
     Z.of_nat (MultiBuffer.unused (MultiBuffer.buffers mpb)) <
       MultiBuffer.allocSize mpb ->
       MultiBuffer.release mpb =
         Panicked (IndexOutOfRange
                     (len (MultiBuffer.buffers mpb) - MultiBuffer.allocSize mpb)
                     (len (MultiBuffer.buffers mpb) - MultiBuffer.allocSize mpb))).
Proof.
  intros mpb. split.
  - intros H. unfold MultiBuffer.release, MultiBuffer.make.
    destruct (len (MultiBuffer.buffers mpb) - MultiBuffer.allocSize mpb <? 0)
      eqn:E; [reflexivity | apply Z.ltb_ge in E; lia].
  - intros Hnil HA Hle Hu. rewrite (release_spec mpb Hnil HA Hle).
    destruct (Z.leb_spec (MultiBuffer.allocSize mpb)
                (Z.of_nat (MultiBuffer.unused (MultiBuffer.buffers mpb))))
      as [H | _]; [lia | reflexivity].
Qed.

Lemma release_panics_otherwise_witness :
  MultiBuffer.release MultiBuffer.pool_one_busy = Panicked (IndexOutOfRange 0 0).
Proof.
  destruct (release_panics_otherwise MultiBuffer.pool_one_busy) as [_ H].
  exact (H ltac:(repeat constructor; discriminate)
           ltac:(vm_compute; split; [discriminate | reflexivity])
           ltac:(vm_compute; discriminate)
           ltac:(reflexivity)).
Defined.



Section BatchMore.
Import MultiBuffer.
Implicit Types (smpb : shallowMultiPacketBuffer) (ps pre mid post : list (option nat)).

Lemma insert_middle {A : Type} (pre : list A) (x y : A) (post : list A) (n : nat) :
  n = length pre -> <[n := y]> (pre ++ x :: post) = pre ++ y :: post.
Proof.
  intros ->. replace (length pre) with (length pre + 0)%nat by lia.
  rewrite insert_app_r. reflexivity.
Qed.

Lemma push_all_spec ps : forall pre mid post o r w ts e,
  w = len pre -> length mid = length ps ->
  push_all ps {| sbuffers := pre ++ mid ++ post; owner := o; rindex := r;
                 windex := w; timestamp := ts; expire := e |} =
    ({| sbuffers := pre ++ ps ++ post; owner := o; rindex := r;
        windex := w + len ps; timestamp := ts; expire := e |},
     replicate (length ps) true).
Proof.
  induction ps as [|p ps IH]; intros pre mid post o r w ts e Hw Hmid.
  - destruct mid; [| discriminate]. simpl. rewrite Z.add_0_r. reflexivity.
  - destruct mid as [|m mid]; [discriminate |]. injection Hmid as Hmid.
    cbn [push_all]. unfold push. cbn [sbuffers windex owner rindex timestamp expire].
    assert (Hlen : len (pre ++ (m :: mid) ++ post) = len pre + 1 + len mid + len post).
    { unfold len. repeat (rewrite length_app || cbn [length]). lia. }
    assert (H0 : 0 <= len pre) by (unfold len; lia).
    assert (H1 : 0 <= len mid) by (unfold len; lia).
    assert (H2 : 0 <= len post) by (unfold len; lia).
    destruct (Z.leb_spec (len (pre ++ (m :: mid) ++ post)) w) as [H | _]; [lia |].
    destruct (Z.ltb_spec w 0) as [H | _]; [lia |].
    cbn [orb fst snd].
    change ((m :: mid) ++ post) with (m :: mid ++ post).
    rewrite insert_middle by (subst w; unfold len; lia).
    change (pre ++ p :: mid ++ post) with (pre ++ [p] ++ mid ++ post).
    rewrite (app_assoc pre [p]).
    rewrite (IH (pre ++ [p]) mid post o r (w + 1) ts e);
      [| unfold len in *; rewrite length_app; cbn [length]; lia | exact Hmid].
    rewrite <- app_assoc. cbn [replicate length fst snd].
    f_equal. f_equal. unfold len. cbn [length]. lia.
Qed.

Lemma push_at_capacity p smpb :
  len (sbuffers smpb) <= windex smpb -> push p smpb = (smpb, false).
Proof.
  intros H. unfold push.
  destruct (Z.leb_spec (len (sbuffers smpb)) (windex smpb)) as [_ | H']; [| lia].
  reflexivity.
Qed.

Lemma read_n_spec n : forall pre mid post o r w ts e,
  r = len pre -> length mid = n -> r + Z.of_nat n <= w ->
  read_n n {| sbuffers := pre ++ mid ++ post; owner := o; rindex := r;
              windex := w; timestamp := ts; expire := e |} =
    ({| sbuffers := pre ++ mid ++ post; owner := o; rindex := r + Z.of_nat n;
        windex := w; timestamp := ts; expire := e |}, mid).
Proof.
  induction n as [|n IH]; intros pre mid post o r w ts e Hr Hmid Hw.
  - destruct mid; [| discriminate]. simpl. rewrite Z.add_0_r. reflexivity.
  - destruct mid as [|m mid]; [discriminate |]. injection Hmid as Hmid.
    cbn [read_n]. unfold read. cbn [sbuffers windex owner rindex timestamp expire].
    assert (Hlen : len (pre ++ (m :: mid) ++ post) = len pre + 1 + len mid + len post).
    { unfold len. repeat (rewrite length_app || cbn [length]). lia. }
    assert (H0 : 0 <= len pre) by (unfold len; lia).
    assert (H1 : 0 <= len mid) by (unfold len; lia).
    assert (H2 : 0 <= len post) by (unfold len; lia).
    destruct (Z.leb_spec (len (pre ++ (m :: mid) ++ post)) r) as [H | _]; [lia |].
    destruct (Z.leb_spec w r) as [H | _]; [lia |].
    destruct (Z.ltb_spec r 0) as [H | _]; [lia |].
    cbn [orb].
    change ((m :: mid) ++ post) with (m :: mid ++ post).
    rewrite list_lookup_middle by (subst r; unfold len; lia).
    cbn [fst snd].
    change (pre ++ m :: mid ++ post) with (pre ++ [m] ++ mid ++ post).
    rewrite (app_assoc pre [m]).
    rewrite (IH (pre ++ [m]) mid post o (r + 1) w ts e);
      [| unfold len in *; rewrite length_app; cbn [length]; lia | exact Hmid | lia].
    cbn [fst snd]. f_equal. f_equal. lia.
Qed.

End BatchMore.

Section PopMore.
Import MultiBuffer.
Implicit Types (bs : list ptr) (pre rest : list (option nat)).

Lemma reserve_0 bs : reserve 0 bs = bs.
Proof. destruct bs; reflexivity. Qed.

Lemma first_unused_0 bs : first_unused 0 bs = [].
Proof. destruct bs; reflexivity. Qed.

Lemma reserve_busy (n : nat) pb bs :
  (inUse pb =? 0) = false -> reserve n (Some pb :: bs) = Some pb :: reserve n bs.
Proof.
  intros E. destruct n; [rewrite !reserve_0; reflexivity |].
  simpl. rewrite E. reflexivity.
Qed.

Lemma first_unused_busy (n : nat) pb bs :
  (inUse pb =? 0) = false -> first_unused n (Some pb :: bs) = first_unused n bs.
Proof.
  intros E. destruct n; [rewrite !first_unused_0; reflexivity |].
  simpl. rewrite E. reflexivity.
Qed.

Lemma Pop_loop_spec bs : forall pre rest o r w ts e num,
  Forall (fun b => b <> None) bs ->
  w = len pre -> 0 <= num -> num + Z.of_nat (unused bs) < 2 ^ 31 ->
  Pop_loop bs {| sbuffers := pre ++ rest; owner := o; rindex := r;
                 windex := w; timestamp := ts; expire := e |} num =
    Ok (reserve (Nat.min (length rest) (unused bs)) bs,
        {| sbuffers := pre ++ first_unused (Nat.min (length rest) (unused bs)) bs
                           ++ drop (Nat.min (length rest) (unused bs)) rest;
           owner := o; rindex := r;
           windex := w + Z.of_nat (Nat.min (length rest) (unused bs));
           timestamp := ts; expire := e |},
        num + Z.of_nat (Nat.min (length rest) (unused bs))).
Proof.
  induction bs as [|b bs IH]; intros pre rest o r w ts e num Hnil Hw Hnum Hrange.
  - cbn [unused Pop_loop]. rewrite Nat.min_0_r, reserve_0, first_unused_0.
    cbn [drop app]. rewrite !Z.add_0_r. reflexivity.
  - inversion Hnil as [|b' bs' Hb Hbs]; subst b' bs'.
    destruct b as [pb|]; [| congruence].
    cbn [Pop_loop unused is_unused] in *.
    destruct (inUse pb =? 0) eqn:E.
    + destruct rest as [|x rest].
      * rewrite push_at_capacity
          by (cbn [sbuffers windex]; rewrite app_nil_r; lia).
        cbn [negb snd fst length Nat.min].
        rewrite reserve_0, first_unused_0. cbn [drop app].
        rewrite !Z.add_0_r. reflexivity.
      * unfold push. cbn [sbuffers windex owner rindex timestamp expire].
        assert (Hlen : len (pre ++ x :: rest) = len pre + 1 + len rest).
        { unfold len. rewrite length_app. cbn [length]. lia. }
        assert (H0 : 0 <= len pre) by (unfold len; lia).
        assert (H2 : 0 <= len rest) by (unfold len; lia).
        destruct (Z.leb_spec (len (pre ++ x :: rest)) w) as [H | _]; [lia |].
        destruct (Z.ltb_spec w 0) as [H | _]; [lia |].
        cbn [orb negb fst snd].
        rewrite insert_middle by (subst w; unfold len; lia).
        change (pre ++ Some (addr pb) :: rest)
          with (pre ++ [Some (addr pb)] ++ rest).
        rewrite (app_assoc pre).
        rewrite wrap32_small by lia.
        rewrite (IH (pre ++ [Some (addr pb)]) rest o r (w + 1) ts e (num + 1));
          [| exact Hbs
           | unfold len in *; rewrite length_app; cbn [length]; lia
           | lia | lia].
        cbn [mbind Result_bind fst snd length Nat.min reserve first_unused drop].
        rewrite E. rewrite <- app_assoc.
        rewrite Nat2Z.inj_succ, <- Z.add_1_l, !Z.add_assoc. reflexivity.
    + rewrite (IH pre rest o r w ts e num Hbs Hw Hnum Hrange).
      cbn [mbind Result_bind fst snd].
      rewrite reserve_busy, first_unused_busy by exact E. reflexivity.
Qed.

End PopMore.

Section PopMore2.
Import MultiBuffer.
Implicit Types (bs : list ptr) (pre rest : list (option nat)).

Lemma length_reserve bs : forall n : nat, length (reserve n bs) = length bs.
Proof.
  induction bs as [|b bs IH]; intros n; [destruct n; reflexivity |].
  destruct n; [rewrite reserve_0; reflexivity |].
  cbn [reserve]. destruct b as [pb|]; [destruct (inUse pb =? 0) |];
    cbn [length]; rewrite IH; reflexivity.
Qed.

Lemma unused_reserve bs : forall n : nat,
  (n <= unused bs)%nat -> unused (reserve n bs) = (unused bs - n)%nat.
Proof.
  induction bs as [|b bs IH]; intros n Hn.
  - destruct n; reflexivity.
  - destruct n; [rewrite reserve_0; lia |].
    destruct b as [pb|]; cbn [reserve unused is_unused] in *.
    + revert Hn. destruct (inUse pb =? 0) eqn:E; intros Hn;
        cbn [unused is_unused].
      * change (inUse (set_inUse 1 pb) =? 0) with false. cbn iota.
        rewrite IH by lia. lia.
      * rewrite E. apply IH. exact Hn.
    + cbn [unused is_unused]. apply IH. exact Hn.
Qed.

Lemma length_first_unused bs : forall n : nat,
  (n <= unused bs)%nat -> length (first_unused n bs) = n.
Proof.
  induction bs as [|b bs IH]; intros n Hn.
  - destruct n; [reflexivity | simpl in Hn; lia].
  - destruct n; [rewrite first_unused_0; reflexivity |].
    destruct b as [pb|]; cbn [first_unused unused is_unused] in *.
    + revert Hn. destruct (inUse pb =? 0) eqn:E; intros Hn; cbn [length].
      * rewrite IH by lia. reflexivity.
      * apply IH. exact Hn.
    + apply IH. exact Hn.
Qed.

(** What reserve does to each buffer of the pool. *)
Lemma reserve_lookup bs : forall (n i : nat) b,
  bs !! i = Some b ->
  reserve n bs !! i = Some b \/
  exists pb, b = Some pb /\ inUse pb = 0 /\
             reserve n bs !! i = Some (Some (set_inUse 1 pb)) /\
             In (Some (addr pb)) (first_unused n bs).
Proof.
  induction bs as [|b0 bs IH]; intros n i b Hi; [discriminate |].
  destruct n; [rewrite reserve_0; left; exact Hi |].
  cbn [reserve first_unused]. destruct b0 as [pb0|].
  - destruct (inUse pb0 =? 0) eqn:E.
    + destruct i as [|i].
      * injection Hi as <-. right. exists pb0.
        split; [reflexivity |]. split; [apply Z.eqb_eq; exact E |].
        split; [reflexivity | left; reflexivity].
      * destruct (IH n i b Hi) as [H | (pb & -> & H0 & H1 & H2)].
        -- left. exact H.
        -- right. exists pb. repeat split; try assumption. right. exact H2.
    + destruct i as [|i]; [left; exact Hi |]. apply (IH (S n) i b Hi).
  - destruct i as [|i]; [left; exact Hi |]. apply (IH (S n) i b Hi).
Qed.

(** Where the pointers of first_unused come from. *)
Lemma first_unused_In bs : forall (n : nat) p,
  In p (first_unused n bs) ->
  exists (i : nat) pb, p = Some (addr pb) /\ bs !! i = Some (Some pb) /\
                       inUse pb = 0 /\
                       reserve n bs !! i = Some (Some (set_inUse 1 pb)).
Proof.
  induction bs as [|b0 bs IH]; intros n p Hp.
  - destruct n; destruct Hp.
  - destruct n; [rewrite first_unused_0 in Hp; destruct Hp |].
    cbn [reserve first_unused] in *. destruct b0 as [pb0|].
    + destruct (inUse pb0 =? 0) eqn:E.
      * destruct Hp as [<- | Hp].
        -- exists O, pb0. split; [reflexivity |]. split; [reflexivity |].
           split; [apply Z.eqb_eq; exact E | reflexivity].
        -- destruct (IH n p Hp) as (i & pb & H1 & H2 & H3 & H4).
           exists (S i), pb. repeat split; assumption.
      * destruct (IH (S n) p Hp) as (i & pb & H1 & H2 & H3 & H4).
        exists (S i), pb. repeat split; assumption.
    + destruct (IH (S n) p Hp) as (i & pb & H1 & H2 & H3 & H4).
      exists (S i), pb. repeat split; assumption.
Qed.

Lemma unused_le_length_Z bs : Z.of_nat (unused bs) <= len bs.
Proof. pose proof (unused_bound bs). unfold len. lia. Qed.

(** Pop when the counter allows it, in terms of reserve and first_unused. *)
Lemma Pop_fast batchSize low (mpb : multiPacketBuffer)
    (buffer : shallowMultiPacketBuffer) :
  Forall (fun b => b <> None) (buffers mpb) ->
  batchSize <= numFree mpb ->
  len (buffers mpb) < 2 ^ 31 ->
  Pop batchSize low mpb buffer =
    let n := Nat.min (length (sbuffers buffer)) (unused (buffers mpb)) in
    let nf := wrap32 (numFree mpb + wrap32 (- Z.of_nat n)) in
    Ok (Popped
          {| numFree := nf; allocSize := allocSize mpb;
             prealloc := prealloc mpb; buffers := reserve n (buffers mpb);
             resize := resize mpb |}
          {| sbuffers := first_unused n (buffers mpb)
                         ++ drop n (sbuffers buffer);
             owner := owner buffer; rindex := 0; windex := Z.of_nat n;
             timestamp := timestamp buffer; expire := expire buffer |}
          nf (len (buffers mpb))).
Proof.
  intros Hnil Hfree Hlen. unfold Pop.
  destruct (Z.ltb_spec (numFree mpb) batchSize) as [H | _]; [lia |].
  cbn [mbind Result_bind snd fst]. unfold reset.
  pose proof (unused_le_length_Z (buffers mpb)) as Hu.
  pose proof (Pop_loop_spec (buffers mpb) [] (sbuffers buffer) (owner buffer)
                0 0 (timestamp buffer) (expire buffer) 0 Hnil eq_refl
                ltac:(lia) ltac:(lia)) as Hl.
  cbn [app] in Hl. rewrite Hl.
  cbn [mbind Result_bind snd fst app buffers numFree allocSize prealloc resize].
  rewrite !Z.add_0_l. unfold len. rewrite length_reserve. reflexivity.
Qed.

Lemma wrap32_sub_add (a n : Z) :
  - 2 ^ 31 <= a < 2 ^ 31 -> wrap32 (wrap32 (a - n) + n) = a.
Proof.
  intros Ha. unfold wrap32.
  pose proof (Z.div_mod (a - n + 2 ^ 31) (2 ^ 32) ltac:(lia)) as Hdm.
  replace ((a - n + 2 ^ 31) mod 2 ^ 32 - 2 ^ 31 + n + 2 ^ 31)
    with (a + 2 ^ 31 + (- ((a - n + 2 ^ 31) / 2 ^ 32)) * 2 ^ 32) by lia.
  rewrite Z_mod_plus_full, Z.mod_small by lia. lia.
Qed.

End PopMore2.

Section RecycleMore.
Import MultiBuffer.
Implicit Types (bs : list ptr) (buf : list (option nat)) (S : list nat).

Lemma set_inUse_same pb : inUse pb = 0 -> set_inUse 0 pb = pb.
Proof. destruct pb as [a u]. simpl. intros ->. reflexivity. Qed.

Lemma existsb_eqb_In (a : nat) S : existsb (Nat.eqb a) S = true <-> In a S.
Proof.
  rewrite existsb_exists. split.
  - intros (x & Hx & E). apply Nat.eqb_eq in E. subst x. exact Hx.
  - intros H. exists a. split; [exact H | apply Nat.eqb_refl].
Qed.

Lemma length_clear_all S bs : length (clear_all S bs) = length bs.
Proof. unfold clear_all. apply length_map. Qed.

Lemma clear_all_cons (a : nat) S bs :
  clear_all S (clear_inUse a bs) = clear_all (a :: S) bs.
Proof.
  unfold clear_all, clear_inUse. rewrite map_map. apply map_ext.
  intros [pb|]; [| reflexivity]. cbn [existsb].
  destruct (Nat.eqb (addr pb) a) eqn:E; cbn [orb].
  - cbn [set_inUse addr]. destruct (existsb (Nat.eqb (addr pb)) S); reflexivity.
  - reflexivity.
Qed.

Lemma clear_all_nil bs : clear_all [] bs = bs.
Proof.
  unfold clear_all. induction bs as [|[pb|] bs IH]; cbn [map existsb] in *;
    rewrite ?IH; reflexivity.
Qed.

Lemma clear_all_lookup S bs (i : nat) pb :
  bs !! i = Some (Some pb) ->
  clear_all S bs !! i =
    Some (Some (if existsb (Nat.eqb (addr pb)) S then set_inUse 0 pb else pb)).
Proof.
  unfold clear_all. revert i.
  induction bs as [|b bs IH]; intros i Hi; [discriminate |].
  destruct i as [|i]; [| exact (IH i Hi)].
  injection Hi as ->. cbn.
  destruct (existsb (Nat.eqb (addr pb)) S); reflexivity.
Qed.

Lemma recycled_le canRecycle buf : len (recycled canRecycle buf) <= len buf.
Proof.
  unfold len.
  assert (H : (length (recycled canRecycle buf) <= length buf)%nat).
  { induction buf as [|[a|] buf IH]; cbn [recycled length]; [lia | | lia].
    destruct (canRecycle a); cbn [length]; lia. }
  lia.
Qed.

Lemma recycle_loop_spec canRecycle buf : forall bs num,
  Forall (fun p => p <> None) buf -> 0 <= num -> num + len buf < 2 ^ 31 ->
  recycle_loop canRecycle buf bs num =
    Ok (clear_all (recycled canRecycle buf) bs,
        num + len (recycled canRecycle buf)).
Proof.
  induction buf as [|p buf IH]; intros bs num Hnil Hnum Hrange.
  - cbn. rewrite clear_all_nil, Z.add_0_r. reflexivity.
  - inversion Hnil as [|p' buf' Hp Hbuf]; subst p' buf'.
    destruct p as [a|]; [| congruence].
    assert (Hl : len (Some a :: buf) = 1 + len buf)
      by (unfold len; cbn [length]; lia).
    assert (H0 : 0 <= len buf) by (unfold len; lia).
    pose proof (recycled_le canRecycle buf) as Hle.
    cbn [recycle_loop recycled].
    destruct (canRecycle a) eqn:E.
    + rewrite wrap32_small by lia.
      rewrite IH; [| exact Hbuf | lia | lia].
      rewrite clear_all_cons. f_equal. f_equal.
      unfold len. cbn [length]. lia.
    + apply IH; [exact Hbuf | lia | lia].
Qed.

End RecycleMore.

Section RoundTrip.
Import MultiBuffer.
Implicit Types (bs : list ptr) (buf : list (option nat)) (S : list nat).

Lemma In_addrs bs pb : In (Some pb) bs -> In (addr pb) (addrs bs).
Proof.
  induction bs as [|[pb0|] bs IH]; intros H; cbn [addrs].
  - destruct H.
  - destruct H as [H | H]; [injection H as ->; left; reflexivity |].
    right. apply IH. exact H.
  - destruct H as [H | H]; [discriminate |]. apply IH. exact H.
Qed.

Lemma addrs_inj bs :
  NoDup (addrs bs) ->
  forall pb pb', In (Some pb) bs -> In (Some pb') bs ->
                 addr pb = addr pb' -> pb = pb'.
Proof.
  induction bs as [|[pb0|] bs IH]; intros Hnd pb pb' H H' E; cbn [addrs] in Hnd.
  - destruct H.
  - inversion Hnd as [|a l Hnotin Hnd']; subst a l.
    rewrite list_elem_of_In in Hnotin.
    destruct H as [H | H], H' as [H' | H'].
    + congruence.
    + injection H as ->. exfalso. apply Hnotin. rewrite E.
      apply In_addrs. exact H'.
    + injection H' as ->. exfalso. apply Hnotin. rewrite <- E.
      apply In_addrs. exact H.
    + exact (IH Hnd' pb pb' H H' E).
  - destruct H as [H | H]; [discriminate |].
    destruct H' as [H' | H']; [discriminate |].
    exact (IH Hnd pb pb' H H' E).
Qed.

Lemma recycled_all_In (a : nat) buf :
  In (Some a) buf -> In a (recycled (fun _ => true) buf).
Proof.
  induction buf as [|[a0|] buf IH]; intros H; cbn [recycled].
  - destruct H.
  - destruct H as [H | H]; [injection H as ->; left; reflexivity |].
    right. apply IH. exact H.
  - destruct H as [H | H]; [discriminate |]. apply IH. exact H.
Qed.

Lemma In_recycled canRecycle (a : nat) buf :
  In a (recycled canRecycle buf) <-> In (Some a) buf /\ canRecycle a = true.
Proof.
  induction buf as [|[a0|] buf IH]; cbn [recycled].
  - split; [intros [] | intros [[] _]].
  - destruct (canRecycle a0) eqn:E0.
    + split.
      * intros [-> | H]; [split; [left; reflexivity | exact E0] |].
        apply IH in H as [H1 H2]. split; [right; exact H1 | exact H2].
      * intros [[H | H] Ha].
        -- injection H as ->. left. reflexivity.
        -- right. apply IH. split; assumption.
    + split.
      * intros H. apply IH in H as [H1 H2]. split; [right; exact H1 | exact H2].
      * intros [[H | H] Ha].
        -- injection H as ->. congruence.
        -- apply IH. split; assumption.
  - split.
    + intros H. apply IH in H as [H1 H2]. split; [right; exact H1 | exact H2].
    + intros [[H | H] Ha]; [discriminate |]. apply IH. split; assumption.
Qed.

Lemma recycled_all_length buf :
  Forall (fun p => p <> None) buf ->
  length (recycled (fun _ => true) buf) = length buf.
Proof.
  induction 1 as [|[a|] buf Hp Hbuf IH]; cbn [recycled length];
    [reflexivity | rewrite IH; reflexivity | congruence].
Qed.

Lemma clear_all_fixed S bs :
  (forall pb, In (Some pb) bs -> inUse pb <> 0 -> ~ In (addr pb) S) ->
  clear_all S bs = bs.
Proof.
  unfold clear_all. induction bs as [|b bs IH]; intros H; [reflexivity |].
  cbn [map]. rewrite IH by (intros pb Hin; apply H; right; exact Hin).
  f_equal. destruct b as [pb|]; [| reflexivity].
  destruct (existsb (Nat.eqb (addr pb)) S) eqn:E; [| reflexivity].
  apply existsb_eqb_In in E.
  destruct (Z.eq_dec (inUse pb) 0) as [H0 | H0].
  - rewrite set_inUse_same by exact H0. reflexivity.
  - exfalso. exact (H pb (or_introl eq_refl) H0 E).
Qed.

Lemma clear_all_reserve S bs : forall n : nat,
  (forall pb, In (Some pb) bs -> inUse pb <> 0 -> ~ In (addr pb) S) ->
  (forall a : nat, In (Some a) (first_unused n bs) -> In a S) ->
  clear_all S (reserve n bs) = bs.
Proof.
  induction bs as [|b bs IH]; intros n Hbusy Hsub.
  - destruct n; reflexivity.
  - destruct n; [rewrite reserve_0; apply clear_all_fixed; exact Hbusy |].
    assert (Hbusy' : forall pb, In (Some pb) bs -> inUse pb <> 0 ->
                                ~ In (addr pb) S)
      by (intros pb Hin; apply Hbusy; right; exact Hin).
    cbn [reserve first_unused] in *. destruct b as [pb|].
    + destruct (inUse pb =? 0) eqn:E.
      * change (clear_all S (Some (set_inUse 1 pb) :: reserve n bs))
          with ((if existsb (Nat.eqb (addr pb)) S
                 then Some (set_inUse 0 (set_inUse 1 pb))
                 else Some (set_inUse 1 pb))
                :: clear_all S (reserve n bs)).
        rewrite (proj2 (existsb_eqb_In (addr pb) S))
          by (apply Hsub; left; reflexivity).
        rewrite IH; [| exact Hbusy' | intros a Ha; apply Hsub; right; exact Ha].
        f_equal. f_equal. apply Z.eqb_eq in E. destruct pb as [a u].
        cbn in *. subst u. reflexivity.
      * change (clear_all S (Some pb :: reserve (Datatypes.S n) bs))
          with ((if existsb (Nat.eqb (addr pb)) S
                 then Some (set_inUse 0 pb) else Some pb)
                :: clear_all S (reserve (Datatypes.S n) bs)).
        rewrite IH; [| exact Hbusy' | exact Hsub].
        destruct (existsb (Nat.eqb (addr pb)) S) eqn:Ex; [| reflexivity].
        exfalso. apply existsb_eqb_In in Ex. apply Z.eqb_neq in E.
        exact (Hbusy pb (or_introl eq_refl) E Ex).
    + change (clear_all S (None :: reserve (Datatypes.S n) bs))
        with (None :: clear_all S (reserve (Datatypes.S n) bs)).
      rewrite IH; [reflexivity | exact Hbusy' | exact Hsub].
Qed.

Lemma first_unused_not_nil bs : forall n : nat,
  Forall (fun p : option nat => p <> None) (first_unused n bs).
Proof.
  intros n. apply Forall_forall. intros p Hp. apply list_elem_of_In in Hp.
  apply first_unused_In in Hp as (i & pb & -> & _). discriminate.
Qed.

End RoundTrip.

Section RecycleSpec.
Import MultiBuffer.

Lemma recycle_empty batchSize canRecycle (mpb : multiPacketBuffer)
    (smpb : shallowMultiPacketBuffer) :
  windex smpb = 0 ->
  recycle batchSize canRecycle mpb smpb = Ok (mpb, reset smpb, false).
Proof.
  intros E. unfold recycle, empty. rewrite E. reflexivity.
Qed.

Lemma recycle_nonempty batchSize canRecycle (mpb : multiPacketBuffer)
    (smpb : shallowMultiPacketBuffer) :
  0 < windex smpb <= len (sbuffers smpb) ->
  windex smpb < 2 ^ 31 ->
  Forall (fun p => p <> None) (take (Z.to_nat (windex smpb)) (sbuffers smpb)) ->
  recycle batchSize canRecycle mpb smpb =
    Ok ({| numFree :=
             wrap32 (numFree mpb
                     + len (recycled canRecycle
                              (take (Z.to_nat (windex smpb)) (sbuffers smpb))));
           allocSize := allocSize mpb; prealloc := prealloc mpb;
           buffers :=
             clear_all (recycled canRecycle
                          (take (Z.to_nat (windex smpb)) (sbuffers smpb)))
                       (buffers mpb);
           resize := resize mpb |},
        reset smpb,
        batchSize <?
          wrap32 (numFree mpb
                  + len (recycled canRecycle
                           (take (Z.to_nat (windex smpb)) (sbuffers smpb))))).
Proof.
  intros Hw Hrange Hnil. unfold recycle, empty.
  destruct (Z.eqb_spec (windex smpb) 0) as [E | E]; [lia |]. cbn [negb].
  set (buf := take (Z.to_nat (windex smpb)) (sbuffers smpb)) in *.
  assert (Hbl : len buf = windex smpb).
  { unfold len, buf in *. rewrite length_take. lia. }
  destruct (sbuffers smpb) as [|p0 rest] eqn:Es.
  { unfold len in Hw. cbn [length] in Hw. lia. }
  assert (Hp0 : p0 <> None).
  { assert (Hin : In p0 buf).
    { unfold buf. destruct (Z.to_nat (windex smpb)) eqn:En;
        [lia | left; reflexivity]. }
    rewrite Forall_forall in Hnil. apply Hnil, list_elem_of_In. exact Hin. }
  destruct p0 as [a0|]; [| congruence].
  cbn [lookup list_lookup]. unfold slice_to.
  destruct (Z.ltb_spec (windex smpb) 0) as [H | _]; [lia |].
  destruct (Z.ltb_spec (len (Some a0 :: rest)) (windex smpb))
    as [H | _]; [lia |].
  cbn [orb mbind Result_bind]. fold buf.
  rewrite (recycle_loop_spec canRecycle buf (buffers mpb) 0 Hnil
             ltac:(lia) ltac:(lia)).
  cbn [mbind Result_bind fst snd]. unfold free.
  cbn [numFree buffers allocSize prealloc resize fst snd].
  rewrite Z.add_0_l. reflexivity.
Qed.

End RecycleSpec.

(** X22. A batch is a queue with a fixed capacity: pushes onto a batch that
    was reset succeed for as many pointers as it has room for, the reads
    that follow return those pointers in the order they were pushed, and the
    read after the last one returns nil; empty tells whether anything was
    pushed, and full holds once everything pushed has been read. A push onto
    a batch filled to its capacity returns false and changes nothing. *)
Theorem batch_push_read_round_trip :
  forall (smpb : MultiBuffer.shallowMultiPacketBuffer)
         (ps : list (option nat)),
    (length ps <= length (MultiBuffer.sbuffers smpb))%nat ->
    let filled := MultiBuffer.push_all ps (MultiBuffer.reset smpb) in
    let drained := MultiBuffer.read_n (length ps) (fst filled) in
    snd filled = replicate (length ps) true /\
    MultiBuffer.windex (fst filled) = len ps /\
    MultiBuffer.empty (fst filled) = (len ps =? 0) /\
    snd drained = ps /\
    MultiBuffer.read (fst drained) = (fst drained, None) /\
    MultiBuffer.full (fst drained) = negb (len ps =? 0) /\
    (length ps = length (MultiBuffer.sbuffers smpb) ->
     forall p, MultiBuffer.push p (fst filled) = (fst filled, false)).
Proof.
  intros [old o r w ts e] ps Hlen. cbn [MultiBuffer.sbuffers] in Hlen.
  unfold MultiBuffer.reset.
  cbn [MultiBuffer.sbuffers MultiBuffer.owner MultiBuffer.timestamp
       MultiBuffer.expire].
  pose proof (push_all_spec ps [] (take (length ps) old)
                (drop (length ps) old) o 0 0 ts e eq_refl
                ltac:(rewrite length_take; lia)) as Hpush.
  cbn [app] in Hpush. rewrite take_drop, Z.add_0_l in Hpush.
  cbv zeta. rewrite !Hpush. cbn [fst snd].
  pose proof (read_n_spec (length ps) [] ps (drop (length ps) old) o 0
                (len ps) ts e eq_refl eq_refl ltac:(unfold len; lia)) as Hread.
  cbn [app] in Hread. rewrite !Hread. cbn [fst snd].
  split; [reflexivity |]. split; [reflexivity |].
  split; [reflexivity |]. split; [reflexivity |].
  split.
  { unfold MultiBuffer.read.
    cbn [MultiBuffer.sbuffers MultiBuffer.rindex MultiBuffer.windex].
    change (0 + Z.of_nat (length ps)) with (len ps).
    rewrite (Z.leb_refl (len ps)), orb_true_r. reflexivity. }
  split.
  { unfold MultiBuffer.full.
    cbn [MultiBuffer.rindex MultiBuffer.windex].
    change (0 + Z.of_nat (length ps)) with (len ps).
    rewrite Z.eqb_refl, andb_true_r. reflexivity. }
  intros Hfull p. apply push_at_capacity.
  cbn [MultiBuffer.sbuffers MultiBuffer.windex].
  rewrite drop_ge by lia. rewrite app_nil_r. lia.
Qed.

Lemma batch_push_read_round_trip_witness :
  snd (MultiBuffer.read_n 2
         (fst (MultiBuffer.push_all [Some 7%nat; Some 3%nat]
                 (MultiBuffer.reset
                    {| MultiBuffer.sbuffers := [None; Some 1%nat; None];
                       MultiBuffer.owner := true;
                       MultiBuffer.rindex := 1; MultiBuffer.windex := 2;
                       MultiBuffer.timestamp := 0;
                       MultiBuffer.expire := false |}))))
  = [Some 7%nat; Some 3%nat].
Proof.
  destruct (batch_push_read_round_trip
              {| MultiBuffer.sbuffers := [None; Some 1%nat; None];
                 MultiBuffer.owner := true;
                 MultiBuffer.rindex := 1; MultiBuffer.windex := 2;
                 MultiBuffer.timestamp := 0;
                 MultiBuffer.expire := false |}
              [Some 7%nat; Some 3%nat] ltac:(simpl; lia))
    as (_ & _ & _ & H & _).
  exact H.
Defined.

(** X23. Copy gives the other batch the written part of this one, to be
    read from its start, and leaves the rest of the other batch, its
    timestamp and its expire mark as they were; it panics when the other
    batch is shorter than the written part. *)
Theorem Copy_copies_written_part :
  forall smpb other : MultiBuffer.shallowMultiPacketBuffer,
    0 <= MultiBuffer.windex smpb <= len (MultiBuffer.sbuffers smpb) ->
    (MultiBuffer.windex smpb <= len (MultiBuffer.sbuffers other) ->
     exists other',
       MultiBuffer.Copy smpb other = Ok other' /\
       MultiBuffer.sbuffers other' =
         take (Z.to_nat (MultiBuffer.windex smpb)) (MultiBuffer.sbuffers smpb)
         ++ drop (Z.to_nat (MultiBuffer.windex smpb))
                 (MultiBuffer.sbuffers other) /\
       MultiBuffer.rindex other' = 0 /\
       MultiBuffer.windex other' = MultiBuffer.windex smpb /\
       MultiBuffer.timestamp other' = MultiBuffer.timestamp other /\
       MultiBuffer.expire other' = MultiBuffer.expire other /\
       snd (MultiBuffer.read_n (Z.to_nat (MultiBuffer.windex smpb)) other') =
         take (Z.to_nat (MultiBuffer.windex smpb))
              (MultiBuffer.sbuffers smpb)) /\
    (len (MultiBuffer.sbuffers other) < MultiBuffer.windex smpb ->
     MultiBuffer.Copy smpb other =
       Panicked (IndexOutOfRange (MultiBuffer.windex smpb)
                                 (len (MultiBuffer.sbuffers other)))).
Proof.
  intros [src o r w ts e] [dst o' r' w' ts' e'].
  cbn [MultiBuffer.sbuffers MultiBuffer.windex MultiBuffer.rindex
       MultiBuffer.timestamp MultiBuffer.expire].
  intros Hw. unfold MultiBuffer.Copy, MultiBuffer.slice_to.
  cbn [MultiBuffer.sbuffers MultiBuffer.windex MultiBuffer.owner
       MultiBuffer.timestamp MultiBuffer.expire].
  destruct (Z.ltb_spec w 0) as [H | _]; [lia |].
  destruct (Z.ltb_spec (len src) w) as [H | _]; [lia |].
  cbn [orb mbind Result_bind].
  assert (Htake : len (take (Z.to_nat w) src) = w).
  { unfold len in *. rewrite length_take. lia. }
  rewrite Htake.
  destruct (Z.ltb_spec w 0) as [H | _]; [lia |].
  split.
  - intros Hdst.
    destruct (Z.ltb_spec (len dst) w) as [H | _]; [lia |].
    cbn [orb]. eexists. split; [reflexivity |].
    cbn [MultiBuffer.sbuffers MultiBuffer.windex MultiBuffer.rindex
         MultiBuffer.timestamp MultiBuffer.expire].
    assert (Hmin : Nat.min (length (take (Z.to_nat w) dst))
                           (length (take (Z.to_nat w) src)) = Z.to_nat w).
    { unfold len in *. rewrite !length_take. lia. }
    rewrite Hmin.
    assert (Htt : take (Z.to_nat w) (take (Z.to_nat w) src)
                  = take (Z.to_nat w) src)
      by (rewrite take_take; f_equal; lia).
    rewrite Htt.
    split; [reflexivity |]. split; [reflexivity |]. split; [reflexivity |].
    split; [reflexivity |]. split; [reflexivity |].
    pose proof (read_n_spec (Z.to_nat w) [] (take (Z.to_nat w) src)
                  (drop (Z.to_nat w) dst) o' 0 w ts' e' eq_refl
                  ltac:(unfold len in *; rewrite length_take; lia)
                  ltac:(lia)) as Hread.
    cbn [app] in Hread. rewrite Hread. reflexivity.
  - intros Hdst.
    destruct (Z.ltb_spec (len dst) w) as [_ | H]; [| lia].
    reflexivity.
Qed.

Lemma Copy_copies_written_part_witness :
  exists other',
    MultiBuffer.Copy
      {| MultiBuffer.sbuffers := [Some 4%nat; Some 5%nat; Some 6%nat];
         MultiBuffer.owner := false;
         MultiBuffer.rindex := 1; MultiBuffer.windex := 2;
         MultiBuffer.timestamp := 10; MultiBuffer.expire := true |}
      {| MultiBuffer.sbuffers := [None; None; Some 9%nat];
         MultiBuffer.owner := true;
         MultiBuffer.rindex := 0; MultiBuffer.windex := 0;
         MultiBuffer.timestamp := 20; MultiBuffer.expire := false |}
    = Ok other' /\
    MultiBuffer.sbuffers other' = [Some 4%nat; Some 5%nat; Some 9%nat] /\
    MultiBuffer.timestamp other' = 20.
Proof.
  destruct (Copy_copies_written_part
              {| MultiBuffer.sbuffers := [Some 4%nat; Some 5%nat; Some 6%nat];
                 MultiBuffer.owner := false;
                 MultiBuffer.rindex := 1; MultiBuffer.windex := 2;
                 MultiBuffer.timestamp := 10; MultiBuffer.expire := true |}
              {| MultiBuffer.sbuffers := [None; None; Some 9%nat];
                 MultiBuffer.owner := true;
                 MultiBuffer.rindex := 0; MultiBuffer.windex := 0;
                 MultiBuffer.timestamp := 20; MultiBuffer.expire := false |}
              ltac:(vm_compute; split; discriminate)) as [H _].
  destruct (H ltac:(vm_compute; discriminate))
    as (other' & Hrun & Hbuf & _ & _ & Hts & _).
  exists other'. split; [exact Hrun |]. split; [exact Hbuf | exact Hts].
Defined.

(** X24. When the counter of free buffers is at least batchSize and the
    pool holds no nil, Pop does not wait: it resets the batch and fills it
    from its start with min(capacity of the batch, unused buffers of the
    pool) pointers, lowers numFree by that number, keeps the number of
    buffers of the pool and ends with the call high(numFree, len(buffers)).
    If numFree counted the unused buffers before, it counts them afterwards,
    and a batch of at most batchSize pointers is filled to its capacity. *)
Theorem Pop_fills_batch :
  forall (batchSize : Z)
         (low : Z -> Z -> MultiBuffer.multiPacketBuffer ->
                Result MultiBuffer.multiPacketBuffer)
         (mpb : MultiBuffer.multiPacketBuffer)
         (buffer : MultiBuffer.shallowMultiPacketBuffer),
    Forall (fun b => b <> None) (MultiBuffer.buffers mpb) ->
    batchSize <= MultiBuffer.numFree mpb ->
    len (MultiBuffer.buffers mpb) < 2 ^ 31 ->
    exists mpb' buffer',
      MultiBuffer.Pop batchSize low mpb buffer =
        Ok (MultiBuffer.Popped mpb' buffer' (MultiBuffer.numFree mpb')
              (len (MultiBuffer.buffers mpb))) /\
      MultiBuffer.rindex buffer' = 0 /\
      MultiBuffer.windex buffer' =
        Z.min (len (MultiBuffer.sbuffers buffer))
              (Z.of_nat (MultiBuffer.unused (MultiBuffer.buffers mpb))) /\
      len (MultiBuffer.sbuffers buffer') = len (MultiBuffer.sbuffers buffer) /\
      len (MultiBuffer.buffers mpb') = len (MultiBuffer.buffers mpb) /\
      Z.of_nat (MultiBuffer.unused (MultiBuffer.buffers mpb')) =
        Z.of_nat (MultiBuffer.unused (MultiBuffer.buffers mpb))
        - MultiBuffer.windex buffer' /\
      MultiBuffer.numFree mpb' =
        wrap32 (MultiBuffer.numFree mpb
                + wrap32 (- MultiBuffer.windex buffer')) /\
      (MultiBuffer.numFree mpb =
         Z.of_nat (MultiBuffer.unused (MultiBuffer.buffers mpb)) ->
       MultiBuffer.numFree mpb' =
         Z.of_nat (MultiBuffer.unused (MultiBuffer.buffers mpb')) /\
       (len (MultiBuffer.sbuffers buffer) <= batchSize ->
        MultiBuffer.windex buffer' = len (MultiBuffer.sbuffers buffer))).
Proof.
  intros batchSize low mpb buffer Hnil Hfree Hlen.
  rewrite (Pop_fast batchSize low mpb buffer Hnil Hfree Hlen). cbv zeta.
  set (n := Nat.min (length (MultiBuffer.sbuffers buffer))
                    (MultiBuffer.unused (MultiBuffer.buffers mpb))).
  pose proof (unused_le_length_Z (MultiBuffer.buffers mpb)) as Hu.
  assert (Hn1 : (n <= length (MultiBuffer.sbuffers buffer))%nat)
    by (subst n; lia).
  assert (Hn2 : (n <= MultiBuffer.unused (MultiBuffer.buffers mpb))%nat)
    by (subst n; lia).
  lazymatch goal with
  | |- exists _ _, Ok (MultiBuffer.Popped ?m ?b _ _) = _ /\ _ => exists m, b
  end.
  split; [reflexivity |].
  cbn [MultiBuffer.rindex MultiBuffer.windex MultiBuffer.sbuffers
       MultiBuffer.buffers MultiBuffer.numFree].
  split; [reflexivity |].
  split; [unfold len; subst n; lia |].
  split.
  { unfold len. rewrite length_app, length_first_unused, length_drop by exact Hn2.
    lia. }
  split; [unfold len; rewrite length_reserve; reflexivity |].
  split; [rewrite unused_reserve by exact Hn2; lia |].
  split; [reflexivity |].
  intros Hinv. split.
  - rewrite unused_reserve by exact Hn2.
    rewrite (wrap32_small (- Z.of_nat n)) by lia.
    rewrite wrap32_small by lia. lia.
  - intros Hcap. unfold len in *. subst n. lia.
Qed.

Lemma Pop_fills_batch_witness :
  exists mpb' buffer',
    MultiBuffer.Pop 2 (fun _ _ mpb => Ok mpb) MultiBuffer.pool_three_free
      {| MultiBuffer.sbuffers := [None; None];
         MultiBuffer.owner := true;
         MultiBuffer.rindex := 0; MultiBuffer.windex := 0;
         MultiBuffer.timestamp := 0; MultiBuffer.expire := false |}
    = Ok (MultiBuffer.Popped mpb' buffer' 1 4) /\
    MultiBuffer.windex buffer' = 2.
Proof.
  destruct (Pop_fills_batch 2 (fun _ _ mpb => Ok mpb)
              MultiBuffer.pool_three_free
              {| MultiBuffer.sbuffers := [None; None];
                 MultiBuffer.owner := true;
                 MultiBuffer.rindex := 0; MultiBuffer.windex := 0;
                 MultiBuffer.timestamp := 0; MultiBuffer.expire := false |}
              ltac:(repeat constructor; discriminate)
              ltac:(vm_compute; discriminate)
              ltac:(reflexivity))
    as (mpb' & buffer' & Hrun & _ & Hw & _ & _ & _ & Hnf & _).
  exists mpb', buffer'. split; [| exact Hw].
  rewrite Hrun, Hnf, Hw. reflexivity.
Defined.

(** X25. The pointers Pop puts into the batch address buffers of the pool
    that were unused, each of which it marks as in use (inUse = 1); every
    other buffer of the pool is left as it was, so a buffer in use is never
    handed out nor changed. *)
Theorem Pop_hands_out_unused_buffers :
  forall (batchSize : Z)
         (low : Z -> Z -> MultiBuffer.multiPacketBuffer ->
                Result MultiBuffer.multiPacketBuffer)
         (mpb : MultiBuffer.multiPacketBuffer)
         (buffer : MultiBuffer.shallowMultiPacketBuffer),
    Forall (fun b => b <> None) (MultiBuffer.buffers mpb) ->
    batchSize <= MultiBuffer.numFree mpb ->
    len (MultiBuffer.buffers mpb) < 2 ^ 31 ->
    exists mpb' buffer' free total,
      MultiBuffer.Pop batchSize low mpb buffer =
        Ok (MultiBuffer.Popped mpb' buffer' free total) /\
      (forall p,
         In p (take (Z.to_nat (MultiBuffer.windex buffer'))
                    (MultiBuffer.sbuffers buffer')) ->
         exists (i : nat) pb,
           p = Some (MultiBuffer.addr pb) /\
           MultiBuffer.buffers mpb !! i = Some (Some pb) /\
           MultiBuffer.inUse pb = 0 /\
           MultiBuffer.buffers mpb' !! i =
             Some (Some (MultiBuffer.set_inUse 1 pb))) /\
      (forall (i : nat) b,
         MultiBuffer.buffers mpb !! i = Some b ->
         MultiBuffer.buffers mpb' !! i = Some b \/
         exists pb,
           b = Some pb /\ MultiBuffer.inUse pb = 0 /\
           MultiBuffer.buffers mpb' !! i =
             Some (Some (MultiBuffer.set_inUse 1 pb)) /\
           In (Some (MultiBuffer.addr pb))
              (take (Z.to_nat (MultiBuffer.windex buffer'))
                    (MultiBuffer.sbuffers buffer'))) /\
      (forall (i : nat) pb,
         MultiBuffer.buffers mpb !! i = Some (Some pb) ->
         MultiBuffer.inUse pb <> 0 ->
         MultiBuffer.buffers mpb' !! i = Some (Some pb)).
Proof.
  intros batchSize low mpb buffer Hnil Hfree Hlen.
  rewrite (Pop_fast batchSize low mpb buffer Hnil Hfree Hlen). cbv zeta.
  set (n := Nat.min (length (MultiBuffer.sbuffers buffer))
                    (MultiBuffer.unused (MultiBuffer.buffers mpb))).
  assert (Hn2 : (n <= MultiBuffer.unused (MultiBuffer.buffers mpb))%nat)
    by (subst n; lia).
  eexists. eexists. eexists. eexists. split; [reflexivity |].
  cbn [MultiBuffer.windex MultiBuffer.sbuffers MultiBuffer.buffers].
  rewrite Nat2Z.id.
  rewrite take_app_length' by (rewrite length_first_unused by exact Hn2; reflexivity).
  split; [intros p Hp; apply first_unused_In; exact Hp |].
  split; [intros i b Hi; apply reserve_lookup; exact Hi |].
  intros i pb Hi Hbusy.
  destruct (reserve_lookup (MultiBuffer.buffers mpb) n i (Some pb) Hi)
    as [H | (pb' & E & H0 & _)]; [exact H |].
  injection E as <-. contradiction.
Qed.

Lemma Pop_hands_out_unused_buffers_witness :
  exists mpb' buffer' free total,
    MultiBuffer.Pop 2 (fun _ _ mpb => Ok mpb) MultiBuffer.pool_three_free
      {| MultiBuffer.sbuffers := [None; None];
         MultiBuffer.owner := true;
         MultiBuffer.rindex := 0; MultiBuffer.windex := 0;
         MultiBuffer.timestamp := 0; MultiBuffer.expire := false |}
    = Ok (MultiBuffer.Popped mpb' buffer' free total) /\
    MultiBuffer.buffers mpb' !! 1%nat =
      Some (Some {| MultiBuffer.addr := 1; MultiBuffer.inUse := 1 |}).
Proof.
  destruct (Pop_hands_out_unused_buffers 2 (fun _ _ mpb => Ok mpb)
              MultiBuffer.pool_three_free
              {| MultiBuffer.sbuffers := [None; None];
                 MultiBuffer.owner := true;
                 MultiBuffer.rindex := 0; MultiBuffer.windex := 0;
                 MultiBuffer.timestamp := 0; MultiBuffer.expire := false |}
              ltac:(repeat constructor; discriminate)
              ltac:(vm_compute; discriminate)
              ltac:(reflexivity))
    as (mpb' & buffer' & free & total & Hrun & _ & _ & Hbusy).
  exists mpb', buffer', free, total. split; [exact Hrun |].
  apply Hbusy; [reflexivity | discriminate].
Defined.

(** X26. recycle of a batch whose written part holds no nil marks as unused
    every buffer of the pool whose address is in the written part and whose
    recycle condition holds, leaves every other buffer of the pool as it is,
    raises numFree by the number of such pointers of the batch (a pointer
    held twice counts twice), signals the condition iff numFree then exceeds
    batchSize, and resets the batch. An empty batch changes nothing in the
    pool and signals nothing. *)
Theorem recycle_clears_recyclable :
  forall (batchSize : Z) (canRecycle : nat -> bool)
         (mpb : MultiBuffer.multiPacketBuffer)
         (smpb : MultiBuffer.shallowMultiPacketBuffer),
    0 <= MultiBuffer.windex smpb <= len (MultiBuffer.sbuffers smpb) ->
    MultiBuffer.windex smpb < 2 ^ 31 ->
    Forall (fun p => p <> None)
           (take (Z.to_nat (MultiBuffer.windex smpb))
                 (MultiBuffer.sbuffers smpb)) ->
    exists mpb' signalled,
      MultiBuffer.recycle batchSize canRecycle mpb smpb =
        Ok (mpb', MultiBuffer.reset smpb, signalled) /\
      (forall (i : nat) pb,
         MultiBuffer.buffers mpb !! i = Some (Some pb) ->
         (In (Some (MultiBuffer.addr pb))
             (take (Z.to_nat (MultiBuffer.windex smpb))
                   (MultiBuffer.sbuffers smpb)) ->
          canRecycle (MultiBuffer.addr pb) = true ->
          MultiBuffer.buffers mpb' !! i =
            Some (Some (MultiBuffer.set_inUse 0 pb))) /\
         (~ (In (Some (MultiBuffer.addr pb))
                (take (Z.to_nat (MultiBuffer.windex smpb))
                      (MultiBuffer.sbuffers smpb)) /\
             canRecycle (MultiBuffer.addr pb) = true) ->
          MultiBuffer.buffers mpb' !! i = Some (Some pb))) /\
      len (MultiBuffer.buffers mpb') = len (MultiBuffer.buffers mpb) /\
      (MultiBuffer.windex smpb = 0 -> mpb' = mpb /\ signalled = false) /\
      (0 < MultiBuffer.windex smpb ->
       MultiBuffer.numFree mpb' =
         wrap32 (MultiBuffer.numFree mpb
                 + len (MultiBuffer.recycled canRecycle
                          (take (Z.to_nat (MultiBuffer.windex smpb))
                                (MultiBuffer.sbuffers smpb)))) /\
       signalled = (batchSize <? MultiBuffer.numFree mpb')).
Proof.
  intros batchSize canRecycle mpb smpb Hw Hrange Hnil.
  destruct (Z.eq_dec (MultiBuffer.windex smpb) 0) as [E | E].
  - exists mpb, false.
    split; [apply recycle_empty; exact E |].
    rewrite E in *. cbn [Z.to_nat take] in *.
    split; [| split; [reflexivity | split; [intros _; split; reflexivity | lia]]].
    intros i pb Hi. split; [intros [] | intros _; exact Hi].
  - rewrite (recycle_nonempty batchSize canRecycle mpb smpb
               ltac:(lia) Hrange Hnil).
    eexists. eexists. split; [reflexivity |].
    cbn [MultiBuffer.numFree MultiBuffer.buffers].
    split; [| split; [unfold len; rewrite length_clear_all; reflexivity
                     | split; [intros H0; lia | intros _; split; reflexivity]]].
    intros i pb Hi.
    rewrite (clear_all_lookup _ _ i pb Hi). split.
    + intros Hin Hcan.
      rewrite (proj2 (existsb_eqb_In (MultiBuffer.addr pb) _))
        by (apply In_recycled; split; assumption).
      reflexivity.
    + intros Hnot.
      match goal with
      | |- context [existsb ?f ?l] => destruct (existsb f l) eqn:Ex
      end; [| reflexivity].
      exfalso. apply Hnot. apply In_recycled, existsb_eqb_In. exact Ex.
Qed.

Lemma recycle_clears_recyclable_witness :
  exists mpb' signalled,
    MultiBuffer.recycle 2 (fun a => Nat.eqb a 1) MultiBuffer.pool_one_busy
      {| MultiBuffer.sbuffers := [Some 0%nat; Some 1%nat];
         MultiBuffer.owner := false;
         MultiBuffer.rindex := 1; MultiBuffer.windex := 1;
         MultiBuffer.timestamp := 0; MultiBuffer.expire := false |}
    = Ok (mpb',
          MultiBuffer.reset
            {| MultiBuffer.sbuffers := [Some 0%nat; Some 1%nat];
               MultiBuffer.owner := false;
               MultiBuffer.rindex := 1; MultiBuffer.windex := 1;
               MultiBuffer.timestamp := 0; MultiBuffer.expire := false |},
          signalled) /\
    len (MultiBuffer.buffers mpb') = 2.
Proof.
  destruct (recycle_clears_recyclable 2 (fun a => Nat.eqb a 1)
              MultiBuffer.pool_one_busy
              {| MultiBuffer.sbuffers := [Some 0%nat; Some 1%nat];
                 MultiBuffer.owner := false;
                 MultiBuffer.rindex := 1; MultiBuffer.windex := 1;
                 MultiBuffer.timestamp := 0; MultiBuffer.expire := false |}
              ltac:(vm_compute; split; discriminate)
              ltac:(reflexivity)
              ltac:(repeat constructor; discriminate))
    as (mpb' & signalled & Hrun & _ & Hlen & _).
  exists mpb', signalled. split; [exact Hrun | exact Hlen].
Defined.

(** X27. Pop followed by recycle of the batch it filled, when every buffer
    may be recycled, gives back the pool as it was before Pop - the same
    buffers with the same marks and the same numFree - provided the buffers
    of the pool have distinct addresses and none is nil. *)
Theorem Pop_then_recycle_restores_pool :
  forall (batchSize : Z)
         (low : Z -> Z -> MultiBuffer.multiPacketBuffer ->
                Result MultiBuffer.multiPacketBuffer)
         (mpb : MultiBuffer.multiPacketBuffer)
         (buffer : MultiBuffer.shallowMultiPacketBuffer),
    Forall (fun b => b <> None) (MultiBuffer.buffers mpb) ->
    NoDup (MultiBuffer.addrs (MultiBuffer.buffers mpb)) ->
    batchSize <= MultiBuffer.numFree mpb ->
    - 2 ^ 31 <= MultiBuffer.numFree mpb < 2 ^ 31 ->
    len (MultiBuffer.buffers mpb) < 2 ^ 31 ->
    exists mpb1 batch free total signalled,
      MultiBuffer.Pop batchSize low mpb buffer =
        Ok (MultiBuffer.Popped mpb1 batch free total) /\
      MultiBuffer.recycle batchSize (fun _ => true) mpb1 batch =
        Ok (mpb, MultiBuffer.reset batch, signalled).
Proof.
  intros batchSize low mpb buffer Hnil Hnd Hfree Hnf Hlen.
  rewrite (Pop_fast batchSize low mpb buffer Hnil Hfree Hlen). cbv zeta.
  set (n := Nat.min (length (MultiBuffer.sbuffers buffer))
                    (MultiBuffer.unused (MultiBuffer.buffers mpb))).
  pose proof (unused_le_length_Z (MultiBuffer.buffers mpb)) as Hu.
  assert (Hn1 : (n <= length (MultiBuffer.sbuffers buffer))%nat)
    by (subst n; lia).
  assert (Hn2 : (n <= MultiBuffer.unused (MultiBuffer.buffers mpb))%nat)
    by (subst n; lia).
  pose proof (length_first_unused (MultiBuffer.buffers mpb) n Hn2) as Hfu.
  set (batch := {| MultiBuffer.sbuffers :=
                     MultiBuffer.first_unused n (MultiBuffer.buffers mpb)
                     ++ drop n (MultiBuffer.sbuffers buffer);
                   MultiBuffer.owner := MultiBuffer.owner buffer;
                   MultiBuffer.rindex := 0;
                   MultiBuffer.windex := Z.of_nat n;
                   MultiBuffer.timestamp := MultiBuffer.timestamp buffer;
                   MultiBuffer.expire := MultiBuffer.expire buffer |}).
  set (mpb1 := {| MultiBuffer.numFree :=
                    wrap32 (MultiBuffer.numFree mpb + wrap32 (- Z.of_nat n));
                  MultiBuffer.allocSize := MultiBuffer.allocSize mpb;
                  MultiBuffer.prealloc := MultiBuffer.prealloc mpb;
                  MultiBuffer.buffers :=
                    MultiBuffer.reserve n (MultiBuffer.buffers mpb);
                  MultiBuffer.resize := MultiBuffer.resize mpb |}).
  assert (Htake : take (Z.to_nat (MultiBuffer.windex batch))
                       (MultiBuffer.sbuffers batch)
                  = MultiBuffer.first_unused n (MultiBuffer.buffers mpb)).
  { cbn [batch MultiBuffer.windex MultiBuffer.sbuffers].
    rewrite Nat2Z.id. apply take_app_length'. symmetry. exact Hfu. }
  exists mpb1, batch, (MultiBuffer.numFree mpb1),
         (len (MultiBuffer.buffers mpb)).
  destruct (Nat.eq_dec n O) as [E0 | E0].
  - exists false. split; [reflexivity |].
    rewrite recycle_empty by (cbn [batch MultiBuffer.windex]; lia).
    f_equal. f_equal. f_equal.
    unfold mpb1. rewrite E0, reserve_0. cbn [Z.of_nat Z.opp].
    change (wrap32 0) with 0. rewrite Z.add_0_r, wrap32_small by lia.
    destruct mpb; reflexivity.
  - eexists. split; [reflexivity |].
    rewrite recycle_nonempty;
      [| cbn [batch MultiBuffer.windex MultiBuffer.sbuffers]; unfold len;
         rewrite length_app, length_drop, Hfu; lia
       | cbn [batch MultiBuffer.windex]; unfold len in *; lia
       | rewrite Htake; apply first_unused_not_nil].
    rewrite Htake.
    assert (Hrl : len (MultiBuffer.recycled (fun _ => true)
                         (MultiBuffer.first_unused n (MultiBuffer.buffers mpb)))
                  = Z.of_nat n).
    { unfold len. rewrite recycled_all_length by apply first_unused_not_nil.
      rewrite Hfu. reflexivity. }
    rewrite Hrl.
    assert (Hnum : wrap32 (MultiBuffer.numFree mpb1 + Z.of_nat n)
                   = MultiBuffer.numFree mpb).
    { cbn [mpb1 MultiBuffer.numFree].
      rewrite (wrap32_small (- Z.of_nat n)) by (unfold len in *; lia).
      apply wrap32_sub_add. exact Hnf. }
    rewrite Hnum.
    assert (Hbufs : MultiBuffer.clear_all
                      (MultiBuffer.recycled (fun _ => true)
                         (MultiBuffer.first_unused n (MultiBuffer.buffers mpb)))
                      (MultiBuffer.buffers mpb1)
                    = MultiBuffer.buffers mpb).
    { cbn [mpb1 MultiBuffer.buffers]. apply clear_all_reserve.
      - intros pb Hin Hbusy Hrec.
        apply In_recycled in Hrec as [Hrec _].
        apply first_unused_In in Hrec as (i & pb' & E & Hi & H0 & _).
        injection E as E.
        assert (Hin' : In (Some pb') (MultiBuffer.buffers mpb)).
        { apply list_elem_of_In, list_elem_of_lookup. exists i. exact Hi. }
        rewrite (addrs_inj _ Hnd pb pb' Hin Hin' E) in Hbusy. contradiction.
      - intros a Ha. apply recycled_all_In. exact Ha. }
    rewrite Hbufs. cbn [mpb1 MultiBuffer.allocSize MultiBuffer.prealloc
                        MultiBuffer.resize].
    f_equal. f_equal. f_equal. destruct mpb; reflexivity.
Qed.

Lemma Pop_then_recycle_restores_pool_witness :
  exists mpb1 batch free total signalled,
    MultiBuffer.Pop 2 (fun _ _ mpb => Ok mpb) MultiBuffer.pool_three_free
      {| MultiBuffer.sbuffers := [None; None];
         MultiBuffer.owner := true;
         MultiBuffer.rindex := 0; MultiBuffer.windex := 0;
         MultiBuffer.timestamp := 0; MultiBuffer.expire := false |}
    = Ok (MultiBuffer.Popped mpb1 batch free total) /\
    MultiBuffer.recycle 2 (fun _ => true) mpb1 batch =
      Ok (MultiBuffer.pool_three_free, MultiBuffer.reset batch, signalled).
Proof.
  exact (Pop_then_recycle_restores_pool 2 (fun _ _ mpb => Ok mpb)
           MultiBuffer.pool_three_free
           {| MultiBuffer.sbuffers := [None; None];
              MultiBuffer.owner := true;
              MultiBuffer.rindex := 0; MultiBuffer.windex := 0;
              MultiBuffer.timestamp := 0; MultiBuffer.expire := false |}
           ltac:(repeat constructor; discriminate)
           ltac:(apply (bool_decide_unpack _); vm_compute; exact I)
           ltac:(vm_compute; discriminate)
           ltac:(vm_compute; split; [discriminate | reflexivity])
           ltac:(reflexivity)).
Defined.
Section FiltersMore.
Import Filters.
Variables (lt : LayerType) (data : list byte) (ci : CaptureInfo) (n : Z).

Lemma evaluated_all (f : Filters) :
  forallb (fun filter => filter lt data ci n) f = true ->
  evaluated lt data ci n f = length f.
Proof.
  induction f as [|flt rest IH]; simpl; [reflexivity |].
  destruct (flt lt data ci n); simpl; [| discriminate].
  intros H. rewrite IH by exact H. reflexivity.
Qed.

Lemma evaluated_app (f g : Filters) :
  evaluated lt data ci n (f ++ g) =
    if forallb (fun filter => filter lt data ci n) f
    then (length f + evaluated lt data ci n g)%nat
    else evaluated lt data ci n f.
Proof.
  induction f as [|flt rest IH]; simpl; [reflexivity |].
  destruct (flt lt data ci n); simpl; [| reflexivity].
  rewrite IH.
  match goal with
  | |- context [forallb ?p rest] => destruct (forallb p rest)
  end; reflexivity.
Qed.

End FiltersMore.

(** X28. Filter collections compose by conjunction: a packet matches the
    concatenation of two collections iff it matches both; when the first
    collection rejects the packet no filter of the second is called, and
    when it accepts, the filters of the second are called after those of
    the first exactly as they would be alone. *)
Theorem Filters_Matches_concatenation :
  forall (f g : Filters.Filters) (lt : LayerType) (data : list byte)
         (ci : Filters.CaptureInfo) (n : Z),
    fst (Filters.Matches (f ++ g) lt data ci n) =
      fst (Filters.Matches f lt data ci n)
      && fst (Filters.Matches g lt data ci n) /\
    (fst (Filters.Matches f lt data ci n) = false ->
     snd (Filters.Matches (f ++ g) lt data ci n) =
       snd (Filters.Matches f lt data ci n)) /\
    (fst (Filters.Matches f lt data ci n) = true ->
     snd (Filters.Matches (f ++ g) lt data ci n) =
       snd (Filters.Matches f lt data ci n)
       ++ map (Nat.add (length f)) (snd (Filters.Matches g lt data ci n))).
Proof.
  intros f g lt data ci n. unfold Filters.Matches.
  rewrite !Matches_from_eq. cbn [fst snd].
  rewrite forallb_app, evaluated_app.
  split; [reflexivity |]. split.
  - intros ->. reflexivity.
  - intros H. rewrite H, (evaluated_all lt data ci n f H).
    rewrite seq_app. f_equal.
    change (map (Nat.add (length f))) with (fmap (M:=list) (Nat.add (length f))).
    rewrite fmap_add_seq, Nat.add_0_r. reflexivity.
Qed.

Lemma Filters_Matches_concatenation_witness :
  snd (Filters.Matches
         ([fun _ _ _ _ => true] ++ [fun _ _ _ _ => false; fun _ _ _ _ => true])
         LayerTypeUDP []
         {| Filters.Timestamp := 0; Filters.CaptureLength := 0;
            Filters.Length := 0; Filters.InterfaceIndex := 0 |} 1)
  = [0; 1]%nat.
Proof.
  destruct (Filters_Matches_concatenation
              [fun _ _ _ _ => true]
              [fun _ _ _ _ => false; fun _ _ _ _ => true]
              LayerTypeUDP []
              {| Filters.Timestamp := 0; Filters.CaptureLength := 0;
                 Filters.Length := 0; Filters.InterfaceIndex := 0 |} 1)
    as (_ & _ & H).
  exact (eq_trans (H eq_refl) eq_refl).
Defined.
